(** * Photo capture and upload pipeline: a shallow embedding

    The development follows the three Python modules of the repository:
    - [camera_module.py]  (class [CameraModule]: [decode_fourcc], [save_photo]);
    - [google_photos.py]  (class [GooglePhotos]: [_execute_api], [create_album],
      [get_album_list], [get_album], [upload_image]);
    - [main.py]           (class [Scheduler]: [camera_job], [_get_album_id],
      [_send_auth_error_notification]).

    Stateful code is written in a small state-and-exception monad over an
    explicit [world]; the remote photo library is an interface ([Service])
    with an in-memory implementation used for concrete runs. *)

From Stdlib Require Import ZArith Ascii String List Bool Lia QArith_base.
From stdpp Require Import base option list gmap strings pretty.
Import ListNotations.

Local Open Scope Z_scope.
Local Open Scope string_scope.
Local Open Scope list_scope.

(** ** Python values shared by the modules *)

(** [needle in hay] on Python strings: substring test. *)
Fixpoint str_in (needle hay : string) : bool :=
  String.prefix needle hay ||
  match hay with
  | EmptyString => false
  | String _ rest => str_in needle rest
  end.

(** Exceptions.  [except Exception] catches [PyExc] only; [SystemExit] and
    [KeyboardInterrupt] derive from [BaseException] and pass through it. *)
Inductive pyexn : Type :=
| PyExc (cls : string) (msg : string)
| SystemExit (code : Z)
| KeyboardInterrupt.

(** Outcome of running a piece of code: a value, a raised exception, or
    ([OutOfFuel]) a [while True] loop cut off by the model's fuel. *)
Inductive result (A : Type) : Type :=
| Ok (a : A)
| Raised (e : pyexn)
| OutOfFuel.
Arguments Ok {A} a.
Arguments Raised {A} e.
Arguments OutOfFuel {A}.

(** ** camera_module.py: [decode_fourcc] *)

Module Camera.

(** [chr(n)] for a code point below 256. *)
Definition chr (n : Z) : ascii := ascii_of_N (Z.to_N n).

(** [ord(c)]. *)
Definition ord (c : ascii) : Z := Z.of_N (N_of_ascii c).

(** ["".join([chr((v >> 8 * i) & 0xFF) for i in range(4)])], with [int(v) = v]
    on integers. *)
Definition decode_fourcc (v : Z) : string :=
  string_of_list_ascii
    (map (fun i : nat => chr (Z.land (Z.shiftr v (8 * Z.of_nat i)) 255)) (seq 0 4)).

(** OpenCV's [cv2.VideoWriter_fourcc(c1, c2, c3, c4)], after its macro
    [(c1 & 255) + ((c2 & 255) << 8) + ((c3 & 255) << 16) + ((c4 & 255) << 24)]:
    the four character codes packed least-significant byte first, as a
    number from 0 to 2^32 - 1.  OpenCV hands the packing back as a C
    [int]: the same number when the fourth code is below 128 (any ASCII
    string), and that number minus 2^32 otherwise, which [decode_fourcc]
    reads alike.  The function belongs to the OpenCV library, not to this
    repository; [save_photo] calls it to build the value it hands to
    [cap.set(CAP_PROP_FOURCC, _)]. *)
Definition VideoWriter_fourcc (c1 c2 c3 c4 : ascii) : Z :=
  Z.land (ord c1) 255 + Z.shiftl (Z.land (ord c2) 255) 8
  + Z.shiftl (Z.land (ord c3) 255) 16 + Z.shiftl (Z.land (ord c4) 255) 24.

(** The packing of a four-character string, as
    [c1, c2, c3, c4 = list(settings["fourcc"])] followed by
    [cv2.VideoWriter_fourcc(c1, c2, c3, c4)] computes it; [None] stands for
    the [ValueError] of the unpacking when the length is not 4. *)
Definition fourcc_of_string (s : string) : option Z :=
  match list_ascii_of_string s with
  | [c1; c2; c3; c4] => Some (VideoWriter_fourcc c1 c2 c3 c4)
  | _ => None
  end.

End Camera.

(** ** The world the three modules act on *)

Inductive level : Type := INFO | WARNING | ERROR.

(** The remote calls the client hands to its retry wrapper. *)
Inductive api_op : Type :=
| AlbumsList | AlbumsCreate | UploadsPost | MediaItemsBatchCreate.

Inductive cap_prop : Type :=
| CAP_PROP_FOURCC | CAP_PROP_FRAME_WIDTH | CAP_PROP_FRAME_HEIGHT | CAP_PROP_FPS
| CAP_PROP_AUTO_EXPOSURE | CAP_PROP_AUTO_WB | CAP_PROP_AUTOFOCUS | CAP_PROP_FOCUS
| CAP_PROP_BRIGHTNESS | CAP_PROP_CONTRAST | CAP_PROP_SATURATION | CAP_PROP_ZOOM.

(** A frame: its pixels are opaque, the overlaid text is kept. *)
Record image : Type := { img_pixels : N; img_text : option string }.

(** Observable effects, in program order.  [EvCall] is a ghost event: it
    marks one invocation of the callback given to [_execute_api]. *)
Inductive event : Type :=
| EvLog (lvl : level) (msg : string)
| EvSleep (seconds : Z)
| EvCall (op : api_op)
| EvCapture (device_id : Z)
| EvCapSet (prop : cap_prop) (value : Q)
| EvCapRead
| EvCapRelease
| EvDestroyAllWindows
| EvMakedirs (dir : string)
| EvRemove (path : string)
| EvPublish (topic_arn subject message : string).

(** The camera hardware as [cv2.VideoCapture] reports it. *)
Record device : Type := {
  dev_opens : bool;               (* cap.isOpened() *)
  dev_frame : option image;       (* cap.read(): None when result is False *)
  dev_fourcc : Z;                 (* int(cap.get(CAP_PROP_FOURCC)) *)
  dev_width : Z;
  dev_height : Z;
  dev_fps : Z
}.

(** The SNS client of [boto3]. *)
Record sns_env : Type := {
  sns_client_error : option (string * string);
                                   (* boto3.client('sns', ...) raises an
                                      Exception of this class and message *)
  sns_publish_result : (string * string) + option string
                                   (* sns.publish(...) raises such an
                                      Exception, or answers with its
                                      'MessageId', if any *)
}.

(** What the process finds around it and does not change. *)
Record environment : Type := {
  env_device : device;
  env_putText_error : option pyexn;  (* cv2.putText raises this *)
  env_makedirs_error : string -> option pyexn;
                                     (* os.makedirs(dir, exist_ok=True) raises
                                        this for the directory *)
  env_imwrite_error : option pyexn;  (* cv2.imwrite raises this *)
  env_imwrite_ok : bool;             (* the value cv2.imwrite returns *)
  env_clock : string -> string;      (* datetime.now().strftime(fmt) *)
  env_hostname : string;             (* socket.gethostname() *)
  env_boto3 : option sns_env         (* None: the import failed *)
}.

(** The local disk shows in three places.  [files] holds the image files:
    what the camera writes and the uploader reads and removes.  The
    directories created and the lines logged are events of the trace
    ([EvMakedirs], [EvLog]).  The token file of the credential belongs to
    the state of the service, [remote], which alone reads and rewrites it
    (module [Auth] has that part of [_get_service] in full). *)
Record world (St : Type) : Type := {
  remote : St;                        (* the photo library service, with
                                         its credential and token file *)
  files : gmap string image;         (* image files on the local disk *)
  cap_held : bool;                   (* an opened capture handle not yet released *)
  trace : list event;
  env : environment
}.
Arguments remote {St} w.
Arguments files {St} w.
Arguments cap_held {St} w.
Arguments trace {St} w.
Arguments env {St} w.

Definition set_remote {St} (s : St) (w : world St) : world St :=
  {| remote := s; files := files w; cap_held := cap_held w;
     trace := trace w; env := env w |}.
Definition set_files {St} (f : gmap string image) (w : world St) : world St :=
  {| remote := remote w; files := f; cap_held := cap_held w;
     trace := trace w; env := env w |}.
Definition set_cap_held {St} (b : bool) (w : world St) : world St :=
  {| remote := remote w; files := files w; cap_held := b;
     trace := trace w; env := env w |}.
Definition add_event {St} (e : event) (w : world St) : world St :=
  {| remote := remote w; files := files w; cap_held := cap_held w;
     trace := trace w ++ [e]; env := env w |}.

(** ** The monad: state passing with Python exceptions *)

Definition M (St A : Type) : Type := world St -> result A * world St.

Definition ret {St A} (a : A) : M St A := fun w => (Ok a, w).

Definition bind {St A B} (m : M St A) (k : A -> M St B) : M St B :=
  fun w =>
    match m w with
    | (Ok a, w') => k a w'
    | (Raised e, w') => (Raised e, w')
    | (OutOfFuel, w') => (OutOfFuel, w')
    end.

Definition raise {St A} (e : pyexn) : M St A := fun w => (Raised e, w).

Definition out_of_fuel {St A} : M St A := fun w => (OutOfFuel, w).

(** [try: body  except Exception as e: handler]; [str(e)] is [msg]. *)
Definition try_except {St A} (body : M St A) (handler : string -> string -> M St A)
  : M St A :=
  fun w =>
    match body w with
    | (Raised (PyExc cls msg), w') => handler cls msg w'
    | r => r
    end.

Declare Scope py_scope.
Delimit Scope py_scope with py.
Notation "'let*' x ':=' m 'in' k" := (bind m (fun x => k))
  (at level 10, x name, m at level 100, k at level 200) : py_scope.
Notation "m ';;' k" := (bind m (fun _ => k))
  (at level 100, k at level 200, right associativity) : py_scope.
Local Open Scope py_scope.

Definition emit {St} (e : event) : M St unit := fun w => (Ok tt, add_event e w).
Definition log {St} (lvl : level) (msg : string) : M St unit := emit (EvLog lvl msg).
Definition sleep {St} (seconds : Z) : M St unit := emit (EvSleep seconds).
Definition sys_exit {St A} (code : Z) : M St A := raise (SystemExit code).
Definition when {St} (b : bool) (m : M St unit) : M St unit := if b then m else ret tt.

(** One call of a remote operation: it acts on the service alone. *)
Definition remote_call {St A} (op : api_op) (callback : St -> result A * St) : M St A :=
  fun w =>
    let '(r, s') := callback (remote w) in
    (r, set_remote s' (add_event (EvCall op) w)).

(** [os.path.isfile], [open(path, "rb")], [os.remove]. *)
Definition os_path_isfile {St} (path : string) : M St bool :=
  fun w =>
    (Ok (match files w !! path with Some _ => true | None => false end), w).

Definition open_rb {St} (path : string) : M St image :=
  fun w =>
    match files w !! path with
    | Some data => (Ok data, w)
    | None => (Raised (PyExc "FileNotFoundError" "No such file or directory"), w)
    end.

Definition os_remove {St} (path : string) : M St unit :=
  fun w =>
    match files w !! path with
    | Some _ => (Ok tt, add_event (EvRemove path) (set_files (delete path (files w)) w))
    | None => (Raised (PyExc "FileNotFoundError" "No such file or directory"), w)
    end.

(** Reading the surroundings: the clock, the host name, the device. *)
Definition ask {St A} (f : environment -> A) : M St A :=
  fun w => (Ok (f (env w)), w).

Definition strftime {St} (fmt : string) : M St string :=
  ask (fun e => env_clock e fmt).

(** ** google_photos.py: the remote library and its client *)

(** An album resource as the service lists it: a dictionary.  A [None]
    field is a key the dictionary does not carry (the service leaves out
    the title of an untitled album). *)
Record album : Type := { album_id : option string; album_title : option string }.

(** The JSON bodies the client inspects; a [None] field is a key the
    response does not carry. *)
Record list_response (Tok : Type) : Type := {
  lr_albums : option (list album);
  lr_nextPageToken : option Tok
}.
Arguments lr_albums {Tok} _.
Arguments lr_nextPageToken {Tok} _.

Record create_response : Type := {
  cr_id : option string;
  cr_title : option string
}.

Record http_response : Type := { status_code : Z; content : string }.

Record media_item_result : Type := { mir_status : option string }.

Record batch_response : Type := {
  br_newMediaItemResults : option (list media_item_result)
}.

(** The photo library: what [_get_service()] and the requests built from
    it do.  [St] is the state of the service, the stored credential (the
    token file) included; [Tok] are its page tokens. *)
Class Service (St Tok : Type) : Type := {
  (* _get_service(): loads the credential from the token file, refreshes
     or renews it and rewrites the token file; yields the access token *)
  svc_get_service : St -> result string * St;
  (* albums().list(pageSize, pageToken).execute *)
  svc_albums_list : nat -> option Tok -> St -> result (list_response Tok) * St;
  (* albums().create(body={"album": {"title": t}}).execute *)
  svc_albums_create : string -> St -> result create_response * St;
  (* requests.post(url, data, headers): bearer token, file name, bytes *)
  svc_uploads_post : string -> string -> image -> St -> result http_response * St;
  (* mediaItems().batchCreate(body={albumId, newMediaItems}).execute *)
  svc_batch_create : option string -> string -> St -> result batch_response * St
}.

Module GooglePhotos.
Section Client.
Context {St Tok : Type} `{!Service St Tok}.

Definition MAX_API_RETRY : nat := 3.

(** The test of [_execute_api] on [error_str = str(e)]. *)
Definition is_auth_error (error_str : string) : bool :=
  str_in "invalid_grant" error_str || str_in "expired" error_str
  || str_in "revoked" error_str.

(** [for i in range(MAX_API_RETRY): ... else: ...] over the indices still
    to run. *)
Fixpoint execute_api_for {A} (indices : list nat) (op : api_op) (name : string)
    (callback : St -> result A * St) : M St (option A) :=
  match indices with
  | [] =>
      log ERROR (name ++ " retry out.") ;;
      ret None
  | i :: rest =>
      try_except
        (let* r := remote_call op callback in ret (Some r))
        (fun cls error_str =>
           if is_auth_error error_str then
             log ERROR ("Authentication error detected: " ++ error_str) ;;
             raise (PyExc cls error_str)
           else
             log WARNING error_str ;;
             when (i <? MAX_API_RETRY - 1)%nat (sleep 3) ;;
             execute_api_for rest op name callback)
  end.

Definition _execute_api {A} (op : api_op) (name : string)
    (callback : St -> result A * St) : M St (option A) :=
  execute_api_for (seq 0 MAX_API_RETRY) op name callback.

(** [self._get_service()], evaluated before the request is built and so
    outside the retry wrapper. *)
Definition _get_service : M St string :=
  fun w => let '(r, s') := svc_get_service (remote w) in (r, set_remote s' w).

Definition NoneType_not_iterable : pyexn :=
  PyExc "TypeError" "argument of type 'NoneType' is not iterable".

Definition KeyError (key : string) : pyexn :=
  PyExc "KeyError" ("'" ++ key ++ "'").

Definition create_album (title : string) : M St string :=
  let* _ := _get_service in
  let* response := _execute_api AlbumsCreate "execute" (svc_albums_create title) in
  match response with
  | None => raise NoneType_not_iterable            (* "id" not in None *)
  | Some r =>
      match cr_id r with                            (* "id" not in response *)
      | None => log ERROR "Failed to create a new album."
      | Some _ => ret tt
      end ;;
      match cr_id r with
      | None => raise (KeyError "id")
      | Some id =>
          match cr_title r with
          | None => raise (KeyError "title")
          | Some t =>
              log INFO ("Succeeded to create a new album. id: " ++ id
                        ++ ", title: " ++ t) ;;
              ret id
          end
      end
  end.

(** The [while True] loop of [get_album_list]; [fuel] bounds the number of
    pages fetched. *)
Fixpoint get_album_list_loop (fuel : nat) (album_list : list album)
    (page_token : option Tok) : M St (list album) :=
  match fuel with
  | O => out_of_fuel
  | S fuel' =>
      let* _ := _get_service in
      let* response :=
        _execute_api AlbumsList "execute" (svc_albums_list 50 page_token) in
      match response with
      | None => raise NoneType_not_iterable        (* "albums" not in None *)
      | Some r =>
          match lr_albums r with
          | None => ret album_list
          | Some albums =>
              let album_list := album_list ++ albums in
              match lr_nextPageToken r with
              | None => ret album_list
              | Some t => get_album_list_loop fuel' album_list (Some t)
              end
          end
      end
  end.

Definition get_album_list (fuel : nat) : M St (list album) :=
  get_album_list_loop fuel [] None.

(** [for album in album_list: if album_title == album["title"]: return album],
    then [return None]. *)
Fixpoint first_titled (title : string) (album_list : list album)
  : pyexn + option album :=
  match album_list with
  | [] => inr None
  | a :: rest =>
      match album_title a with
      | None => inl (KeyError "title")
      | Some t => if String.eqb title t then inr (Some a) else first_titled title rest
      end
  end.

Definition get_album (fuel : nat) (title : string) : M St (option album) :=
  let* album_list := get_album_list fuel in
  match first_titled title album_list with
  | inl e => raise e
  | inr found => ret found
  end.

(** [album["id"]]. *)
Definition id_of (a : album) : M St string :=
  match album_id a with
  | Some id => ret id
  | None => raise (KeyError "id")
  end.

(** [os.path.basename]. *)
Fixpoint basename_from (acc path : string) : string :=
  match path with
  | EmptyString => acc
  | String c rest =>
      if Ascii.eqb c "/"%char then basename_from rest rest
      else basename_from acc rest
  end.
Definition basename (path : string) : string := basename_from path path.

Definition upload_image (album_id : option string) (image_path : string)
  : M St bool :=
  let* is_file := os_path_isfile image_path in
  if negb is_file then
    log ERROR "Image not exists." ;;
    ret false
  else
    let* token := _get_service in
    let* image_data := open_rb image_path in
    let* response :=
      _execute_api UploadsPost "post"
        (svc_uploads_post token (basename image_path) image_data) in
    match response with
    | None =>
        raise (PyExc "AttributeError"
                 "'NoneType' object has no attribute 'status_code'")
    | Some r =>
        if negb (Z.eqb (status_code r) 200) then    (* requests.codes.ok *)
          log WARNING "Failed to upload image due to response status_code is not ok." ;;
          ret false
        else
          let upload_token := content r in
          let* _ := _get_service in
          let* response :=
            _execute_api MediaItemsBatchCreate "execute"
              (svc_batch_create album_id upload_token) in
          match response with
          | None => raise NoneType_not_iterable
          | Some r2 =>
              match br_newMediaItemResults r2 with
              | None =>
                  log WARNING
                    "Failed to upload image due to newMediaItemResults key not exists." ;;
                  ret false
              | Some [] => raise (PyExc "IndexError" "list index out of range")
              | Some (item :: _) =>
                  match mir_status item with
                  | None => raise (KeyError "status")
                  | Some status =>
                      log INFO ("Succeeded upload of image to photo library. status: "
                                ++ status) ;;
                      ret true
                  end
              end
          end
    end.

End Client.
End GooglePhotos.

(** ** camera_module.py: [save_photo] *)

Module CameraModule.
Import Camera.

(** The [settings] dictionary of the configuration; [None] is an absent
    key (or a null value). *)
Record camera_settings : Type := {
  fourcc : option string;
  width : option Z;
  height : option Z;
  fps : option Q;
  camera_model : option string;
  focus : option Z
}.

Definition DEVICE_ID : Z := 0.

(** [os.path.dirname] on POSIX paths. *)
Fixpoint upto_last_slash (path : string) : option string :=
  match path with
  | EmptyString => None
  | String c rest =>
      match upto_last_slash rest with
      | Some p => Some (String c p)
      | None => if Ascii.eqb c "/"%char then Some (String c EmptyString) else None
      end
  end.

Fixpoint rstrip_slash (s : string) : string :=
  match s with
  | EmptyString => EmptyString
  | String c rest =>
      let r := rstrip_slash rest in
      if Ascii.eqb c "/"%char && String.eqb r "" then EmptyString else String c r
  end.

Definition dirname (path : string) : string :=
  match upto_last_slash path with
  | None => ""
  | Some head => if String.eqb (rstrip_slash head) "" then head else rstrip_slash head
  end.

Section SavePhoto.
Context {St : Type}.

(** [cv2.VideoCapture(device_id)]: the handle is held when the device opens. *)
Definition VideoCapture (device_id : Z) : M St unit :=
  fun w =>
    (Ok tt, set_cap_held (dev_opens (env_device (env w)))
              (add_event (EvCapture device_id) w)).

Definition cap_set (prop : cap_prop) (value : Q) : M St unit :=
  emit (EvCapSet prop value).

Definition cap_isOpened : M St bool := fun w => (Ok (cap_held w), w).

Definition cap_read : M St (option image) :=
  fun w => (Ok (dev_frame (env_device (env w))), add_event EvCapRead w).

Definition cap_release : M St unit :=
  fun w => (Ok tt, set_cap_held false (add_event EvCapRelease w)).

(** [os.makedirs(save_dir, exist_ok=True)]. *)
Definition makedirs (save_dir : string) : M St unit :=
  fun w =>
    match env_makedirs_error (env w) save_dir with
    | Some e => (Raised e, w)
    | None => (Ok tt, add_event (EvMakedirs save_dir) w)
    end.

(** [cv2.imwrite(save_path, img)]: it raises, or returns whether it wrote
    the file. *)
Definition imwrite (save_path : string) (img : image) : M St bool :=
  fun w =>
    match env_imwrite_error (env w) with
    | Some e => (Raised e, w)
    | None =>
        if env_imwrite_ok (env w)
        then (Ok true, set_files (<[save_path := img]> (files w)) w)
        else (Ok false, w)
    end.

(** [settings and key in settings and settings[key]], for each kind of value. *)
Definition setting {A} (settings : option camera_settings)
    (key : camera_settings -> option A) (truthy : A -> bool) : option A :=
  match settings with
  | Some d => match key d with
              | Some v => if truthy v then Some v else None
              | None => None
              end
  | None => None
  end.

Definition nonempty (s : string) : bool := negb (String.eqb s "").
Definition nonzero (z : Z) : bool := negb (Z.eqb z 0).
Definition nonzeroQ (q : Q) : bool := negb (Z.eqb (Qnum q) 0).

(** The [ValueError] of [c1, c2, c3, c4 = list(...)] on [n] characters. *)
Definition unpack_error (n : nat) : pyexn :=
  PyExc "ValueError"
    (if (n <? 4)%nat
     then "not enough values to unpack (expected 4, got " ++ pretty n ++ ")"
     else "too many values to unpack (expected 4)").

(** The settings block of [save_photo]: the basic settings common to all
    cameras, then the EMEET profile or the default one, then the log line
    that reads the values back. *)
Definition apply_settings (settings : option camera_settings) : M St unit :=
  match setting settings fourcc nonempty with
  | Some code =>
      match list_ascii_of_string code with
      | [c1; c2; c3; c4] =>
          cap_set CAP_PROP_FOURCC (inject_Z (VideoWriter_fourcc c1 c2 c3 c4))
      | l => raise (unpack_error (length l))
      end
  | None =>
      cap_set CAP_PROP_FOURCC (inject_Z (VideoWriter_fourcc "M" "J" "P" "G"))
  end ;;
  match setting settings width nonzero with
  | Some v => cap_set CAP_PROP_FRAME_WIDTH (inject_Z v)
  | None => ret tt
  end ;;
  match setting settings height nonzero with
  | Some v => cap_set CAP_PROP_FRAME_HEIGHT (inject_Z v)
  | None => ret tt
  end ;;
  match setting settings fps nonzeroQ with
  | Some v => cap_set CAP_PROP_FPS v
  | None => ret tt
  end ;;
  (if bool_decide (settings ≫= camera_model = Some "EMEET") then
     log INFO "Applying EMEET-specific settings" ;;
     cap_set CAP_PROP_AUTO_EXPOSURE (Qmake 1 4) ;;
     cap_set CAP_PROP_AUTO_WB (inject_Z 1) ;;
     let focus_value := default 255 (settings ≫= focus) in
     cap_set CAP_PROP_AUTOFOCUS (inject_Z 0) ;;
     cap_set CAP_PROP_FOCUS (inject_Z focus_value) ;;
     cap_set CAP_PROP_BRIGHTNESS (inject_Z (-10)) ;;
     cap_set CAP_PROP_CONTRAST (inject_Z 35) ;;
     cap_set CAP_PROP_SATURATION (inject_Z 110) ;;
     cap_set CAP_PROP_ZOOM (inject_Z 50)
   else
     log INFO "Using default camera settings" ;;
     cap_set CAP_PROP_BRIGHTNESS (inject_Z 128) ;;
     cap_set CAP_PROP_CONTRAST (inject_Z 32) ;;
     cap_set CAP_PROP_SATURATION (inject_Z 32) ;;
     cap_set CAP_PROP_AUTO_EXPOSURE (inject_Z 3)) ;;
  let* d := ask env_device in                       (* cap.get(...) *)
  log INFO ("Settings: " ++ decode_fourcc (dev_fourcc d) ++ ", "
            ++ pretty (dev_width d) ++ "x" ++ pretty (dev_height d) ++ ", "
            ++ pretty (dev_fps d) ++ "fps").

(** [putText(img, current_datetime, ...)] when [with_datetime] is set. *)
Definition annotate (with_datetime : bool) (img : image) : M St image :=
  if with_datetime then
    let* current_datetime := strftime "%Y/%m/%d %H:%M:%S" in
    let* error := ask env_putText_error in
    match error with
    | Some e => raise e
    | None =>
        ret {| img_pixels := img_pixels img; img_text := Some current_datetime |}
    end
  else ret img.

Definition save_photo (device_id : Z) (save_path : string)
    (settings : option camera_settings) (with_datetime : bool) : M St bool :=
  VideoCapture device_id ;;
  apply_settings settings ;;
  let* is_opened := cap_isOpened in
  if negb is_opened then
    log ERROR "Failed to open video capture." ;;
    ret false
  else
    sleep 2 ;;
    let* frame := cap_read in
    match frame with
    | None =>
        log ERROR "Failed to read video capture." ;;
        ret false
    | Some img =>
        let* img := annotate with_datetime img in
        let save_dir := dirname save_path in
        when (nonempty save_dir) (makedirs save_dir) ;;
        let* result := imwrite save_path img in
        cap_release ;;
        emit EvDestroyAllWindows ;;
        log INFO ("Photo saved: " ++ save_path) ;;
        ret result
    end.

(** The exception that ends [save_photo] between the frame read and
    [cap.release()], if any: of [cv2.putText], [os.makedirs] and
    [cv2.imwrite], the first that raises. *)
Definition write_error (e : environment) (save_path : string) (with_datetime : bool)
  : option pyexn :=
  match (if with_datetime then env_putText_error e else None) with
  | Some x => Some x
  | None =>
      match (if nonempty (dirname save_path)
             then env_makedirs_error e (dirname save_path) else None) with
      | Some x => Some x
      | None => env_imwrite_error e
      end
  end.

End SavePhoto.
End CameraModule.

(** ** main.py: the scheduler *)

Module Scheduler.
Import GooglePhotos CameraModule.

(** The [aws_sns] section; a [None] field is a key the section does not
    carry. *)
Record sns_config : Type := {
  sns_use : bool;
  sns_region : option string;
  sns_topic_arn : option string;
  sns_subject : option string;
  sns_message_body : option string
}.

(** The configuration dictionary, by the keys the scheduler reads.
    [aws_sns = None]: the file has no [notifications: aws_sns:] section. *)
Record config : Type := {
  camera_use : bool;
  photo_dir : string;
  settings : option camera_settings;
  google_photos_use : bool;
  album_title_cfg : string;
  aws_sns : option sns_config
}.

Definition nl : string := String (ascii_of_nat 10) EmptyString.

Section Jobs.
Context {St Tok : Type} `{!Service St Tok}.
Variable cfg : config.

(** [is_use_flag] on its argument list [args]: walks the configuration
    along [args] and reads ["use"]; a key that is not there is a
    [KeyError]. *)
Definition is_use_flag (args : list string) : M St bool :=
  if bool_decide (args = []) then
    raise (PyExc "AssertionError" "args must be set to 1 or more.")
  else if bool_decide (args = ["camera"]) then ret (camera_use cfg)
  else if bool_decide (args = ["google_photos"]) then ret (google_photos_use cfg)
  else if bool_decide (args = ["notifications"; "aws_sns"]) then
    match aws_sns cfg with
    | Some c => ret (sns_use c)
    | None => raise (KeyError "notifications")
    end
  else raise (KeyError (List.last args "")).

Definition _get_album_id (fuel : nat) : M St (option string) :=
  let* use := is_use_flag ["google_photos"] in
  if negb use then ret None
  else
    let album_title := album_title_cfg cfg in
    let* album := get_album fuel album_title in
    match album with
    | Some a => let* album_id := id_of a in ret (Some album_id)
    | None =>
        let* album_id := create_album album_title in
        ret (Some album_id)
    end.

(** [self._config["notifications"]["aws_sns"][key]]. *)
Definition sns_key (key : string) (value : option string) : M St string :=
  match value with
  | Some v => ret v
  | None => raise (KeyError key)
  end.

(** The body of the [try] block of [_send_auth_error_notification].
    [EvPublish] marks the call of [sns.publish], whatever it answers. *)
Definition publish_auth_error (c : sns_config) : M St unit :=
  let* boto3 := ask env_boto3 in
  match boto3 with
  | None =>
      log ERROR "boto3 not installed. Cannot send SNS notification." ;;
      log ERROR "Authentication error detected. Exiting program." ;;
      sys_exit 1
  | Some sns =>
      let* region := sns_key "region" (sns_region c) in
      match sns_client_error sns with                (* boto3.client('sns', ...) *)
      | Some (cls, msg) => raise (PyExc cls msg)
      | None =>
          let* hostname := ask env_hostname in
          let* current_time := strftime "%Y-%m-%d %H:%M:%S" in
          let* message_body := sns_key "message_body" (sns_message_body c) in
          let message :=
            (nl ++ message_body ++ nl ++ nl
             ++ "Details:" ++ nl
             ++ "- Time: " ++ current_time ++ nl
             ++ "- Device: " ++ hostname ++ nl
             ++ "- Error: Google Photos API authentication expired" ++ nl
             ++ "- Action Required: Renew OAuth token" ++ nl
             ++ "            ")%string in
          let* topic_arn := sns_key "topic_arn" (sns_topic_arn c) in
          let* subject := sns_key "subject" (sns_subject c) in
          emit (EvPublish topic_arn subject message) ;;
          match sns_publish_result sns with
          | inl (cls, msg) => raise (PyExc cls msg)
          | inr None => raise (KeyError "MessageId")
          | inr (Some message_id) =>
              log INFO ("Auth error notification sent. MessageId: " ++ message_id)
          end
      end
  end.

Definition _send_auth_error_notification : M St unit :=
  let* use := is_use_flag ["notifications"; "aws_sns"] in
  if negb use then
    log ERROR "Authentication error detected. Exiting program." ;;
    sys_exit 1
  else
    match aws_sns cfg with
    | None => raise (KeyError "notifications")
    | Some c =>
        try_except (publish_auth_error c)
          (fun _ e => log ERROR ("Failed to send auth error notification: " ++ e)) ;;
        log ERROR "Authentication error detected. Exiting program." ;;
        sys_exit 1
    end.

(** The test of [camera_job] on [str(e)]. *)
Definition job_is_auth_error (error_str : string) : bool :=
  str_in "invalid_grant" error_str || str_in "expired" error_str.

(** The path of the photo of this run. *)
Definition photo_path (current_datetime : string) : string :=
  (photo_dir cfg ++ "/camera_" ++ current_datetime ++ ".jpg")%string.

(** The [try] block of [camera_job] up to the removal: resolve the album,
    then upload. *)
Definition upload_step (fuel : nat) (photo_image_path : string) : M St bool :=
  let* album_id := _get_album_id fuel in
  upload_image album_id photo_image_path.

(** [fuel] bounds the pages of the album listing, as in
    [get_album_list_loop]. *)
Definition camera_job (fuel : nat) : M St unit :=
  let* use := is_use_flag ["camera"] in
  if negb use then ret tt
  else
    let* current_datetime := strftime "%Y%m%d_%H%M" in
    let photo_image_path := photo_path current_datetime in
    let* result := save_photo DEVICE_ID photo_image_path (settings cfg) true in
    if negb result then ret tt
    else
      let* use := is_use_flag ["google_photos"] in
      if negb use then ret tt
      else
        try_except
          (upload_step fuel photo_image_path ;;
           os_remove photo_image_path)
          (fun _ error_str =>
             if job_is_auth_error error_str then
               _send_auth_error_notification ;;
               sys_exit 1
             else
               os_remove photo_image_path) ;;
        log INFO ("Succeeded removed a photo. remove_path: " ++ photo_image_path).

(** One turn of the [while True] loop of [main] around a due job:
    [KeyboardInterrupt] is logged and re-raised, an [Exception] is logged
    and swallowed, and [SystemExit] leaves the loop, ending the process
    with its code. *)
Definition main_iteration (run_pending : M St unit) : M St unit :=
  fun w =>
    match (run_pending ;; sleep 1) w with
    | (Raised KeyboardInterrupt, w') =>
        (log INFO "Received interrupt signal. Shutting down..." ;;
         raise KeyboardInterrupt) w'
    | (Raised (PyExc _ msg), w') => log ERROR msg w'
    | r => r
    end.

End Jobs.
End Scheduler.

(** ** An in-memory photo library

    A service that keeps its albums in a list, pages them by offset, and
    fails on request: the stand-in used for concrete runs. *)

Module MemLibrary.

Record state : Type := {
  albums : list album;                 (* in listing order *)
  fresh_ids : list string;             (* the ids it hands out next *)
  media : list (option string * string);
                                       (* media items: album id, upload token *)
  faults : list (option pyexn);        (* per request, the failure injected *)
  credential_error : option pyexn;     (* what loading the credential raises *)
  upload_status : Z;                   (* status code of the byte upload *)
  batch_has_results : bool             (* batchCreate answers with results *)
}.

Definition with_albums (l : list album) (ids : list string) (s : state) : state :=
  {| albums := l; fresh_ids := ids; media := media s; faults := faults s;
     credential_error := credential_error s; upload_status := upload_status s;
     batch_has_results := batch_has_results s |}.
Definition with_media (m : list (option string * string)) (s : state) : state :=
  {| albums := albums s; fresh_ids := fresh_ids s; media := m; faults := faults s;
     credential_error := credential_error s; upload_status := upload_status s;
     batch_has_results := batch_has_results s |}.
Definition with_faults (f : list (option pyexn)) (s : state) : state :=
  {| albums := albums s; fresh_ids := fresh_ids s; media := media s; faults := f;
     credential_error := credential_error s; upload_status := upload_status s;
     batch_has_results := batch_has_results s |}.

(** Every request first consumes one entry of [faults]. *)
Definition request {A} (serve : state -> result A * state) (s : state)
  : result A * state :=
  match faults s with
  | Some e :: rest => (Raised e, with_faults rest s)
  | None :: rest => serve (with_faults rest s)
  | [] => serve s
  end.

Definition get_service (s : state) : result string * state :=
  match credential_error s with
  | Some e => (Raised e, s)
  | None => (Ok "access-token", s)
  end.

Definition albums_list (page_size : nat) (page_token : option nat)
  : state -> result (list_response nat) * state :=
  request (fun s =>
    let offset := default 0%nat page_token in
    let page := take page_size (drop offset (albums s)) in
    (Ok {| lr_albums := if bool_decide (page = []) then None else Some page;
           lr_nextPageToken :=
             if (offset + page_size <? length (albums s))%nat
             then Some (offset + page_size)%nat else None |}, s)).

Definition albums_create (title : string) : state -> result create_response * state :=
  request (fun s =>
    match fresh_ids s with
    | id :: ids =>
        (Ok {| cr_id := Some id; cr_title := Some title |},
         with_albums (albums s ++ [{| album_id := Some id; album_title := Some title |}]) ids s)
    | [] => (Raised (PyExc "HttpError" "429 Quota exceeded"), s)
    end).

Definition uploads_post (token file_name : string) (data : image)
  : state -> result http_response * state :=
  request (fun s =>
    (Ok {| status_code := upload_status s; content := "upload-token" |}, s)).

Definition batch_create (album_id : option string) (upload_token : string)
  : state -> result batch_response * state :=
  request (fun s =>
    (Ok {| br_newMediaItemResults :=
             if batch_has_results s
             then Some [{| mir_status := Some "Success" |}] else None |},
     with_media (media s ++ [(album_id, upload_token)]) s)).

#[export] Instance service : Service state nat := {
  svc_get_service := get_service;
  svc_albums_list := albums_list;
  svc_albums_create := albums_create;
  svc_uploads_post := uploads_post;
  svc_batch_create := batch_create
}.

(** A healthy library holding [l]. *)
Definition holding (l : list album) (ids : list string) : state :=
  {| albums := l; fresh_ids := ids; media := []; faults := [];
     credential_error := None; upload_status := 200; batch_has_results := true |}.

(** A quiet machine: the camera opens and delivers a frame, writes succeed,
    no SNS client is installed. *)
Definition quiet_env : environment :=
  {| env_device := {| dev_opens := true;
                      dev_frame := Some {| img_pixels := 0%N; img_text := None |};
                      dev_fourcc := 1196444237; dev_width := 640;
                      dev_height := 480; dev_fps := 30 |};
     env_putText_error := None;
     env_makedirs_error := fun _ => None;
     env_imwrite_error := None;
     env_imwrite_ok := true;
     env_clock := fun fmt => if String.eqb fmt "%Y%m%d_%H%M" then "20240101_0900"
                             else "2024/01/01 09:00:00";
     env_hostname := "raspberrypi";
     env_boto3 := None |}.

Definition boot (s : state) (e : environment) : world state :=
  {| remote := s; files := ∅; cap_held := false; trace := []; env := e |}.

End MemLibrary.

(** ** Vocabulary of the statements *)

(** The world right after one invocation of a remote callback that left
    the service in [s']. *)
Definition called {St} (op : api_op) (s' : St) (w : world St) : world St :=
  set_remote s' (add_event (EvCall op) w).

Definition is_call (e : event) : bool :=
  match e with EvCall _ => true | _ => false end.

Definition is_call_of (op : api_op) (e : event) : bool :=
  match e, op with
  | EvCall AlbumsList, AlbumsList
  | EvCall AlbumsCreate, AlbumsCreate
  | EvCall UploadsPost, UploadsPost
  | EvCall MediaItemsBatchCreate, MediaItemsBatchCreate => true
  | _, _ => false
  end.

(** Number of callback invocations among [evs]. *)
Definition attempts (evs : list event) : nat := length (List.filter is_call evs).

(** Number of invocations of [op] among [evs]. *)
Definition calls_of (op : api_op) (evs : list event) : nat :=
  length (List.filter (is_call_of op) evs).

(** The durations slept, in order. *)
Definition sleeps (evs : list event) : list Z :=
  omap (fun e => match e with EvSleep s => Some s | _ => None end) evs.

(** ** Vocabulary of the client statements *)

Module ClientSpec.
Import GooglePhotos.
Section Pages.
Context {St Tok : Type} `{!Service St Tok}.

(** One page request as [get_album_list] issues it: the service handle,
    then the listing call under the retry wrapper. *)
Definition fetch_page (page_token : option Tok) : M St (option (list_response Tok)) :=
  let* _ := _get_service in
  _execute_api AlbumsList "execute" (svc_albums_list 50 page_token).

(** The albums a response carries. *)
Definition items_of (r : list_response Tok) : list album := default [] (lr_albums r).

(** [cursor_walk w tok rs w']: from world [w], requesting the page at
    [tok] and then following the next-page tokens, the service answers with
    the responses [rs], the last of which is the first to lack an [albums]
    field or a next-page token; [w'] is the world after the last answer. *)
Inductive cursor_walk : world St -> option Tok -> list (list_response Tok)
                        -> world St -> Prop :=
| walk_last w tok r w' :
    fetch_page tok w = (Ok (Some r), w') ->
    lr_albums r = None \/ lr_nextPageToken r = None ->
    cursor_walk w tok [r] w'
| walk_next w tok r albums t w1 rs w' :
    fetch_page tok w = (Ok (Some r), w1) ->
    lr_albums r = Some albums ->
    lr_nextPageToken r = Some t ->
    cursor_walk w1 (Some t) rs w' ->
    cursor_walk w tok (r :: rs) w'.

(** The stopping rule as the specification words it: the listing ends at a
    response only when that response omits both the [albums] field and the
    next-page token.  ([get_album_list_loop] with fuel 1 returns a list
    exactly when it ends at its first response.) *)
Definition stops_only_when_both_omitted : Prop :=
  forall (w : world St) tok acc r w1 l,
    fetch_page tok w = (Ok (Some r), w1) ->
    get_album_list_loop 1 acc tok w = (Ok l, w1) ->
    lr_albums r = None /\ lr_nextPageToken r = None.

(** Phase 1 of [upload_image] answered with [r]: the file is there, the
    handle is obtained, and the byte upload returns under the wrapper. *)
Definition phase1 (image_path : string) (w : world St) (r : http_response)
    (w' : world St) : Prop :=
  exists data token wa,
    files w !! image_path = Some data
    /\ _get_service w = (Ok token, wa)
    /\ _execute_api UploadsPost "post"
         (svc_uploads_post token (basename image_path) data) wa
       = (Ok (Some r), w').

(** Phase 2 answered with [r2]. *)
Definition phase2 (album_id : option string) (upload_token : string)
    (w : world St) (r2 : batch_response) (w' : world St) : Prop :=
  exists token wa,
    _get_service w = (Ok token, wa)
    /\ _execute_api MediaItemsBatchCreate "execute"
         (svc_batch_create album_id upload_token) wa
       = (Ok (Some r2), w').

End Pages.
Arguments stops_only_when_both_omitted St Tok {_}.
End ClientSpec.

(** ** Vocabulary of album resolution *)

Module AlbumSpec.
Import GooglePhotos Scheduler.

(** The album [a] carries the title [t]. *)
Definition has_title (t : string) (a : album) : bool :=
  match album_title a with
  | Some t' => String.eqb t t'
  | None => false
  end.

(** The albums of [l] that carry the title [t]. *)
Definition titled (t : string) (l : list album) : list album :=
  List.filter (has_title t) l.

(** Every album of [l] has a title (the service left none out). *)
Definition all_titled (l : list album) : Prop :=
  Forall (fun a => album_title a <> None) l.

Section Library.
Context {St Tok : Type} `{!Service St Tok}.

(** [library s]: the albums the service holds in state [s]. *)
Variable library : St -> list album.

(** Authorising and listing leave the albums as they are. *)
Definition reads_only : Prop :=
  (forall s, library (svc_get_service s).2 = library s)
  /\ (forall n tok s, library (svc_albums_list n tok s).2 = library s).

(** A creation request that is answered has added one album, of the
    requested title and with the id of the answer; a creation request that
    fails has added nothing. *)
Definition creates_atomically : Prop :=
  forall title s,
    match svc_albums_create title s with
    | (Ok r, s') =>
        exists a, library s' ≡ₚ a :: library s
                  /\ album_title a = Some title /\ album_id a = cr_id r
    | (_, s') => library s' = library s
    end.

(** [m] leaves the albums of the service as they are, whatever it
    returns. *)
Definition keeps {A} (m : M St A) : Prop :=
  forall w, library (remote (m w).2) = library (remote w).

(** The listing made from [w] shows the albums the service holds. *)
Definition observes (fuel : nat) (w : world St) : Prop :=
  (get_album_list fuel w).1 = Ok (library (remote w)).

(** The claim on two resolutions as the specification words it: the title
    is absent at first, both calls return, each listing shows what the
    service holds (the second call observes the result of the first), and
    exactly one album has been created when the second call is over. *)
Definition resolves_once : Prop :=
  forall cfg fuel (w w2 w3 : world St) id id',
    google_photos_use cfg = true ->
    titled (album_title_cfg cfg) (library (remote w)) = [] ->
    observes fuel w ->
    _get_album_id cfg fuel w = (Ok (Some id), w2) ->
    observes fuel w2 ->
    _get_album_id cfg fuel w2 = (Ok (Some id'), w3) ->
    exists a, library (remote w3) ≡ₚ a :: library (remote w)
              /\ album_title a = Some (album_title_cfg cfg).

End Library.
End AlbumSpec.

(** A server that stores the album of a creation request and then loses
    its answer: the first [drops] creation requests time out after the
    album is stored. *)
Module Lossy.

Record state : Type := { albums : list album; drops : nat }.

Definition albums_list (page_size : nat) (page_token : option unit) (s : state)
  : result (list_response unit) * state :=
  (Ok {| lr_albums := match albums s with [] => None | l => Some l end;
         lr_nextPageToken := None |}, s).

Definition albums_create (title : string) (s : state)
  : result create_response * state :=
  let id := ("id-" ++ pretty (length (albums s)))%string in
  let stored := albums s ++ [{| album_id := Some id; album_title := Some title |}] in
  match drops s with
  | S n =>
      (Raised (PyExc "TimeoutError" "The read operation timed out"),
       {| albums := stored; drops := n |})
  | O =>
      (Ok {| cr_id := Some id; cr_title := Some title |},
       {| albums := stored; drops := 0 |})
  end.

#[export] Instance service : Service state unit := {
  svc_get_service := fun s => (Ok "access-token", s);
  svc_albums_list := albums_list;
  svc_albums_create := albums_create;
  svc_uploads_post := fun _ _ _ s =>
    (Ok {| status_code := 200; content := "upload-token" |}, s);
  svc_batch_create := fun _ _ s =>
    (Ok {| br_newMediaItemResults := Some [{| mir_status := Some "Success" |}] |}, s)
}.

Definition boot (s : state) : world state :=
  {| remote := s; files := ∅; cap_held := false; trace := [];
     env := MemLibrary.quiet_env |}.

End Lossy.

(** ** Footprints *)

(** [local_frame P m]: whatever it returns, [m] leaves the image files,
    the capture handle and the environment as they were, and only appends
    events satisfying [P] to the trace.  (The service may change, and with
    it the token file.) *)
Definition local_frame {St A} (P : event -> Prop) (m : M St A) : Prop :=
  forall w, exists evs,
    files (m w).2 = files w
    /\ cap_held (m w).2 = cap_held w
    /\ env (m w).2 = env w
    /\ trace (m w).2 = trace w ++ evs
    /\ Forall P evs.

(** Events of the camera block that precede the frame read. *)
Definition is_setup_event (e : event) : Prop :=
  match e with EvCapSet _ _ | EvLog _ _ => True | _ => False end.

(** Events of the upload client restricted to the remote operations in
    [ops]: calls of those, sleeps and log lines. *)
Definition is_event_of (ops : api_op -> bool) (e : event) : Prop :=
  match e with
  | EvCall op => ops op = true
  | EvSleep _ | EvLog _ _ => True
  | _ => False
  end.

(** Events of the upload client. *)
Definition is_client_event : event -> Prop := is_event_of (fun _ => true).

(** Events of a listing: no other remote operation is called. *)
Definition is_listing_event : event -> Prop :=
  is_event_of (fun op => match op with AlbumsList => true | _ => false end).

(** Events of the escalation: log lines and the published alert. *)
Definition is_notice_event (e : event) : Prop :=
  match e with EvLog _ _ | EvPublish _ _ _ => True | _ => False end.

(** ** Vocabulary of the camera statements *)

(** The world once [cv2.VideoCapture(device_id)] has built the capture
    object. *)
Definition captured {St} (device_id : Z) (w : world St) : world St :=
  set_cap_held (dev_opens (env_device (env w))) (add_event (EvCapture device_id) w).

Definition is_release (e : event) : bool :=
  match e with EvCapRelease => true | _ => false end.

(** [cap.release()] occurs among [evs]. *)
Definition released (evs : list event) : bool := existsb is_release evs.

(** ** Concrete runs

    Worlds built on the in-memory library, for the statements that are
    settled by running the code. *)

Module Scenarios.
Import GooglePhotos CameraModule Scheduler MemLibrary.

(** A network hiccup: no marker in its message. *)
Definition transient : pyexn := PyExc "TimeoutError" "The read operation timed out".

(** A refused credential, as the token endpoint reports it. *)
Definition invalid_grant : pyexn :=
  PyExc "RefreshError" "invalid_grant: Token has been expired or revoked.".

(** A withdrawn grant reported without the words of the other markers. *)
Definition revoked : pyexn := PyExc "HttpError" "Token has been revoked.".

Definition flaky (n : nat) (l : list album) (ids : list string) : state :=
  with_faults (replicate n (Some transient)) (holding l ids).

Definition garden : album :=
  {| album_id := Some "id-0"; album_title := Some "Garden" |}.

(** A library of [n] numbered albums. *)
Definition album_n (n : nat) : album :=
  {| album_id := Some ("id-" ++ pretty n)%string;
     album_title := Some ("Album " ++ pretty n)%string |}.
Definition shelf (n : nat) : list album := map album_n (seq 0 n).

(** A camera that opens but delivers no frame. *)
Definition blind_env : environment :=
  {| env_device := {| dev_opens := true; dev_frame := None;
                      dev_fourcc := 1196444237; dev_width := 640;
                      dev_height := 480; dev_fps := 30 |};
     env_putText_error := None;
     env_makedirs_error := fun _ => None;
     env_imwrite_error := None;
     env_imwrite_ok := true;
     env_clock := env_clock quiet_env;
     env_hostname := "raspberrypi";
     env_boto3 := None |}.

(** No camera plugged in: the device does not open. *)
Definition absent_env : environment :=
  {| env_device := {| dev_opens := false; dev_frame := None;
                      dev_fourcc := 0; dev_width := 0;
                      dev_height := 0; dev_fps := 0 |};
     env_putText_error := None;
     env_makedirs_error := fun _ => None;
     env_imwrite_error := None;
     env_imwrite_ok := true;
     env_clock := env_clock quiet_env;
     env_hostname := "raspberrypi";
     env_boto3 := None |}.

(** The photo directory cannot be created. *)
Definition locked_env : environment :=
  {| env_device := env_device quiet_env;
     env_putText_error := None;
     env_makedirs_error :=
       fun _ => Some (PyExc "PermissionError" "[Errno 13] Permission denied: 'photos'");
     env_imwrite_error := None;
     env_imwrite_ok := true;
     env_clock := env_clock quiet_env;
     env_hostname := "raspberrypi";
     env_boto3 := None |}.

(** Camera and upload enabled, alerts through SNS switched on. *)
Definition cfg_alerts : config :=
  {| camera_use := true; photo_dir := "photos"; settings := None;
     google_photos_use := true; album_title_cfg := "Garden";
     aws_sns := Some {| sns_use := true; sns_region := Some "ap-northeast-1";
                        sns_topic_arn := Some "arn:aws:sns:ap-northeast-1:1:alerts";
                        sns_subject := Some "Photo uploader: authentication expired";
                        sns_message_body := Some "Please renew the token." |} |}.

(** The channel is switched on, but the section names no topic. *)
Definition cfg_no_topic : config :=
  {| camera_use := true; photo_dir := "photos"; settings := None;
     google_photos_use := true; album_title_cfg := "Garden";
     aws_sns := Some {| sns_use := true; sns_region := Some "ap-northeast-1";
                        sns_topic_arn := None;
                        sns_subject := Some "Photo uploader: authentication expired";
                        sns_message_body := Some "Please renew the token." |} |}.

(** The same with the alert channel switched off. *)
Definition cfg_silent : config :=
  {| camera_use := true; photo_dir := "photos"; settings := None;
     google_photos_use := true; album_title_cfg := "Garden";
     aws_sns := Some {| sns_use := false; sns_region := Some "";
                        sns_topic_arn := Some ""; sns_subject := Some "";
                        sns_message_body := Some "" |} |}.

(** A configuration file without any [notifications] section. *)
Definition cfg_bare : config :=
  {| camera_use := true; photo_dir := "photos"; settings := None;
     google_photos_use := true; album_title_cfg := "Garden";
     aws_sns := None |}.

(** A machine with a working SNS client. *)
Definition alert_env : environment :=
  {| env_device := env_device quiet_env;
     env_putText_error := None;
     env_makedirs_error := fun _ => None;
     env_imwrite_error := None;
     env_imwrite_ok := true;
     env_clock := env_clock quiet_env;
     env_hostname := "raspberrypi";
     env_boto3 := Some {| sns_client_error := None;
                          sns_publish_result := inr (Some "message-1") |} |}.

(** The photo of the 09:00 run. *)
Definition photo : string := "photos/camera_20240101_0900.jpg".

Definition is_publish (e : event) : bool :=
  match e with EvPublish _ _ _ => true | _ => false end.

(** The escalation gets as far as calling [sns.publish]: the channel is
    switched on, [boto3] is installed, the client can be created, and the
    section carries [region], [message_body], [topic_arn] and [subject]. *)
Definition reaches_publish (c : sns_config) (e : environment) : bool :=
  sns_use c
  && match env_boto3 e with
     | Some sns => match sns_client_error sns with
                   | None => true
                   | Some _ => false
                   end
     | None => false
     end
  && bool_decide (is_Some (sns_region c))
  && bool_decide (is_Some (sns_message_body c))
  && bool_decide (is_Some (sns_topic_arn c))
  && bool_decide (is_Some (sns_subject c)).

Definition is_remove (e : event) : bool :=
  match e with EvRemove _ => true | _ => false end.

End Scenarios.

(** ** main.py: [_create_scheduler_job] *)

Module Triggers.

(** The [scheduler] section of the configuration.  [None] is an absent
    key; [at_time] is a single string or a list of strings. *)
Record scheduler_config : Type := {
  interval_minutes : option Z;
  day_of_week : option (list string);
  at_time : option (string + list string)
}.

(** A job as the [schedule] library holds it once [.do(callback_job)] has
    run: [every(n).minutes], or [every().<day>] with or without
    [.at(time)]. *)
Inductive registration : Type :=
| EveryMinutes (n : Z)
| Weekly (day : string) (time : option string).

Section Register.
(** The [schedule] library: the exception of [getattr(schedule.every(),
    day)] when the job has no such unit, and the exception of [.at(time)]
    on that unit when it rejects the time. *)
Variable unit_error : string -> option pyexn.
Variable at_error : string -> string -> option pyexn.

(** [[at_time] if isinstance(at_time, str) else at_time]. *)
Definition at_time_list (at_time : string + list string) : list string :=
  match at_time with
  | inl s => [s]
  | inr l => l
  end.

(** [for at_time in at_time_list:
       getattr(schedule.every(), day_of_week).at(at_time).do(callback_job)] *)
Fixpoint register_times (day : string) (times : list string)
    (jobs : list registration) : result unit * list registration :=
  match times with
  | [] => (Ok tt, jobs)
  | t :: rest =>
      match unit_error day with
      | Some e => (Raised e, jobs)
      | None =>
          match at_error day t with
          | Some e => (Raised e, jobs)
          | None => register_times day rest (jobs ++ [Weekly day (Some t)])
          end
      end
  end.

(** One turn of [for day_of_week in scheduler_config["day_of_week"]]. *)
Definition register_day (cfg : scheduler_config) (day : string)
    (jobs : list registration) : result unit * list registration :=
  match at_time cfg with                       (* "at_time" in scheduler_config *)
  | Some t => register_times day (at_time_list t) jobs
  | None =>
      match unit_error day with
      | Some e => (Raised e, jobs)
      | None => (Ok tt, jobs ++ [Weekly day None])
      end
  end.

Fixpoint register_days (cfg : scheduler_config) (days : list string)
    (jobs : list registration) : result unit * list registration :=
  match days with
  | [] => (Ok tt, jobs)
  | day :: rest =>
      match register_day cfg day jobs with
      | (Ok _, jobs') => register_days cfg rest jobs'
      | r => r
      end
  end.

(** [_create_scheduler_job(callback_job, scheduler_config)] on the
    library's job list. *)
Definition _create_scheduler_job (cfg : scheduler_config)
    (jobs : list registration) : result unit * list registration :=
  match interval_minutes cfg with
  | Some n => (Ok tt, jobs ++ [EveryMinutes n])
  | None =>
      match day_of_week cfg with
      | Some days => register_days cfg days jobs
      | None => (Ok tt, jobs)
      end
  end.

(** The jobs a weekly configuration asks for: every day with every time,
    days first. *)
Definition weekly_grid (days times : list string) : list registration :=
  flat_map (fun d => map (fun t => Weekly d (Some t)) times) days.

End Register.
End Triggers.

(** ** google_photos.py: [_get_service] *)

Module Auth.

(** A credential object as the client reads it. *)
Record credentials : Type := {
  cred_token : string;
  cred_valid : bool;                    (* credentials.valid *)
  cred_expired : bool;                  (* credentials.expired *)
  cred_refresh_token : option string    (* None or the refresh token *)
}.

Inductive auth_event : Type :=
| EvRefresh                             (* credentials.refresh(Request()) *)
| EvFlow                                (* the interactive authorisation *)
| EvWriteToken
| EvSetTimeout (seconds : Z)
| EvBuild.

Section GetService.
(** [Stored] is the content of the token file. *)
Context {Stored : Type}.

(** The libraries: parsing the token file, refreshing, authorising
    interactively, serialising, building the service. *)
Record auth_lib : Type := {
  from_authorized_user_file : Stored -> pyexn + credentials;
  refresh : credentials -> pyexn + credentials;
  run_flow : pyexn + credentials;
  to_json : credentials -> Stored;
  build : credentials -> option pyexn
}.

Record auth_state : Type := {
  token_file : option Stored;           (* None: os.path.exists is False *)
  auth_trace : list auth_event
}.

Definition note (e : auth_event) (s : auth_state) : auth_state :=
  {| token_file := token_file s; auth_trace := auth_trace s ++ [e] |}.

Definition write_token (f : Stored) (s : auth_state) : auth_state :=
  {| token_file := Some f; auth_trace := auth_trace s ++ [EvWriteToken] |}.

(** Truth value of [credentials.refresh_token]. *)
Definition has_refresh_token (c : credentials) : bool :=
  match cred_refresh_token c with
  | Some t => negb (String.eqb t "")
  | None => false
  end.

(** [socket.setdefaulttimeout(300)], then [build(...)]; the service is
    identified with the credential it is built on. *)
Definition build_service (lib : auth_lib) (c : credentials) (s : auth_state)
  : result credentials * auth_state :=
  let s := note EvBuild (note (EvSetTimeout 300) s) in
  match build lib c with
  | Some e => (Raised e, s)
  | None => (Ok c, s)
  end.

(** [with open(token_path, "w") as token: token.write(credentials.to_json())],
    then the rest of the function. *)
Definition persist_and_build (lib : auth_lib) (c : credentials) (s : auth_state)
  : result credentials * auth_state :=
  build_service lib c (write_token (to_json lib c) s).

Definition _get_service (lib : auth_lib) (s : auth_state)
  : result credentials * auth_state :=
  match match token_file s with
        | Some f => match from_authorized_user_file lib f with
                    | inl e => inl e
                    | inr c => inr (Some c)
                    end
        | None => inr None
        end with
  | inl e => (Raised e, s)
  | inr credentials =>
      match credentials with
      | Some c =>
          if cred_valid c then build_service lib c s
          else if cred_expired c && has_refresh_token c then
            match refresh lib c with
            | inl e => (Raised e, note EvRefresh s)
            | inr c' => persist_and_build lib c' (note EvRefresh s)
            end
          else
            match run_flow lib with
            | inl e => (Raised e, note EvFlow s)
            | inr c' => persist_and_build lib c' (note EvFlow s)
            end
      | None =>
          match run_flow lib with
          | inl e => (Raised e, note EvFlow s)
          | inr c' => persist_and_build lib c' (note EvFlow s)
          end
      end
  end.

Definition count_event (p : auth_event -> bool) (evs : list auth_event) : nat :=
  length (List.filter p evs).
Definition is_refresh (e : auth_event) : bool :=
  match e with EvRefresh => true | _ => false end.
Definition is_flow (e : auth_event) : bool :=
  match e with EvFlow => true | _ => false end.
Definition is_write (e : auth_event) : bool :=
  match e with EvWriteToken => true | _ => false end.

End GetService.
Arguments auth_lib Stored : clear implicits.
Arguments auth_state Stored : clear implicits.
End Auth.

(** ** main.py: [is_use_flag] on the configuration dictionary *)

Module ConfigTree.

(** A loaded YAML document. *)
#[warnings="-register-all"]
Inductive yaml : Type :=
| YNull
| YBool (b : bool)
| YInt (z : Z)
| YStr (s : string)
| YSeq (items : list yaml)
| YMap (entries : list (string * yaml)).

(** Dictionary lookup; the entries of a dictionary have distinct keys. *)
Fixpoint assoc (key : string) (entries : list (string * yaml)) : option yaml :=
  match entries with
  | [] => None
  | (k, v) :: rest => if String.eqb key k then Some v else assoc key rest
  end.

Definition TypeError (msg : string) : pyexn := PyExc "TypeError" msg.

(** [v[key]] for a string [key]. *)
Definition getitem (v : yaml) (key : string) : pyexn + yaml :=
  match v with
  | YMap entries =>
      match assoc key entries with
      | Some x => inr x
      | None => inl (GooglePhotos.KeyError key)
      end
  | YNull => inl (TypeError "'NoneType' object is not subscriptable")
  | YBool _ => inl (TypeError "'bool' object is not subscriptable")
  | YInt _ => inl (TypeError "'int' object is not subscriptable")
  | YStr _ => inl (TypeError "string indices must be integers, not 'str'")
  | YSeq _ => inl (TypeError "list indices must be integers or slices, not str")
  end.

(** [for arg in args: tmp_config = tmp_config[arg]]. *)
Fixpoint walk (tmp_config : yaml) (args : list string) : pyexn + yaml :=
  match args with
  | [] => inr tmp_config
  | arg :: rest =>
      match getitem tmp_config arg with
      | inl e => inl e
      | inr v => walk v rest
      end
  end.

Definition is_use_flag (config : yaml) (args : list string) : pyexn + yaml :=
  match args with
  | [] => inl (PyExc "AssertionError" "args must be set to 1 or more.")
  | _ =>
      match walk config args with
      | inl e => inl e
      | inr v => getitem v "use"
      end
  end.

(** The entry of an optional string key. *)
Definition entry (key : string) (value : option string) : list (string * yaml) :=
  match value with
  | Some v => [(key, YStr v)]
  | None => []
  end.

(** The dictionary behind a [Scheduler.config], as far as the flags go:
    the [settings] and [scheduler] entries, which no flag lookup visits,
    are left out. *)
Definition of_config (cfg : Scheduler.config) : yaml :=
  YMap
    ([ ("camera", YMap [ ("use", YBool (Scheduler.camera_use cfg));
                         ("photo_dir", YStr (Scheduler.photo_dir cfg)) ]);
       ("google_photos", YMap [ ("use", YBool (Scheduler.google_photos_use cfg));
                                ("album_title", YStr (Scheduler.album_title_cfg cfg)) ]) ]
     ++ match Scheduler.aws_sns cfg with
        | Some c =>
            [ ("notifications",
               YMap [ ("aws_sns",
                       YMap ([ ("use", YBool (Scheduler.sns_use c)) ]
                             ++ entry "region" (Scheduler.sns_region c)
                             ++ entry "topic_arn" (Scheduler.sns_topic_arn c)
                             ++ entry "subject" (Scheduler.sns_subject c)
                             ++ entry "message_body" (Scheduler.sns_message_body c))) ]) ]
        | None => []
        end).

End ConfigTree.

(** ** [setup_logger], as each of the three modules defines it *)

Module Logging.

Inductive handler : Type :=
| RotatingFileHandler (path : string) (maxBytes backupCount : Z) (format : string)
| StreamHandler (format : string).

(** The [logging] registry and the directories it needs.  A logger that
    [getLogger] has not seen yet has no handlers. *)
Record logging_state : Type := {
  handlers : gmap string (list handler);
  levels : gmap string level;
  dirs : gset string
}.

Definition log_format : string :=
  "%(asctime)s - %(name)s - %(levelname)s - %(message)s".

(** [setup_logger(name)], with the file name the defining module writes
    to ([main.log], [camera.log], [google_photos.log]). *)
Definition setup_logger (log_file : string) (name : string) (s : logging_state)
  : logging_state :=
  match default [] (handlers s !! name) with
  | _ :: _ => s                                  (* if logger.handlers: return *)
  | [] =>
      {| handlers :=
           <[name := [RotatingFileHandler ("logs/" ++ log_file)
                        (10 * 1024 * 1024) 5 log_format;
                      StreamHandler log_format]]> (handlers s);
         levels := <[name := INFO]> (levels s);
         dirs := {["logs"]} ∪ dirs s |}
  end.

End Logging.

(** ** setup_auth.py: [main]

    The calls to [print] write to the console only and are left out. *)

Module SetupAuth.
Import GooglePhotos CameraModule Scheduler.

(** The command line: [--test-upload], [--test-camera]. *)
Record arguments : Type := { test_upload : bool; test_camera : bool }.

Section Main.
Context {St Tok : Type} `{!Service St Tok}.

(** The body of the first [try]: the authentication test, then the target
    album. *)
Definition resolve_album (cfg : config) (fuel : nat) : M St string :=
  let* album_list := get_album_list fuel in
  let album_title := album_title_cfg cfg in
  let* album := get_album fuel album_title in
  match album with
  | Some a => id_of a
  | None => create_album album_title
  end.

(** The body of the camera [try]; [CameraModule()] logs its start. *)
Definition camera_test (args : arguments) (cfg : config) (album_id : string)
  : M St unit :=
  log INFO "camera module is starting..." ;;
  let test_image_path := (photo_dir cfg ++ "/setup_test.jpg")%string in
  let* result := save_photo DEVICE_ID test_image_path (settings cfg) true in
  if result then
    if test_upload args then
      let* upload_result := upload_image (Some album_id) test_image_path in
      if upload_result then os_remove test_image_path else ret tt
    else ret tt
  else ret tt.

(** [config_file]: the loaded configuration, [None] when the file is not
    there; [image_files]: what the two globs of the photo directory
    return.  The script is modelled for a configuration file that parses
    and carries the keys the script reads, and for a photo directory that
    [os.makedirs] can create: the statements outside the two [try] blocks
    that could raise otherwise are taken to succeed. *)
Definition main (args : arguments) (config_file : option config)
    (client_secrets_exists : bool) (image_files : list string) (fuel : nat)
  : M St unit :=
  match config_file with
  | None => sys_exit 1
  | Some cfg =>
      emit (EvMakedirs (photo_dir cfg)) ;;
      if negb client_secrets_exists then sys_exit 1
      else
        let* album_id :=
          try_except (resolve_album cfg fuel) (fun _ _ => sys_exit 1) in
        if test_camera args && camera_use cfg then
          try_except (camera_test args cfg album_id) (fun _ _ => ret tt)
        else if test_upload args then
          match image_files with
          | test_image :: _ =>
              let* upload_result := upload_image (Some album_id) test_image in
              ret tt
          | [] => ret tt
          end
        else ret tt
  end.

End Main.
End SetupAuth.

(** ** google_photos.py: [debug]

    [paths] is what the glob of the photo directory yields. *)

Module Debug.
Import GooglePhotos.
Section Debug.
Context {St Tok : Type} `{!Service St Tok}.

(** [for image_path in ...: upload_image(album_id, str(image_path))] *)
Fixpoint upload_all (album_id : string) (paths : list string) : M St unit :=
  match paths with
  | [] => ret tt
  | image_path :: rest =>
      let* _ := upload_image (Some album_id) image_path in
      upload_all album_id rest
  end.

Definition debug (album_title : string) (paths : list string) (fuel : nat)
  : M St unit :=
  let* album := get_album fuel album_title in
  let* album_id :=
    match album with
    | Some a => id_of a
    | None => create_album album_title
    end in
  upload_all album_id paths.

End Debug.
End Debug.

(** ** Vocabulary of the further statements *)

(** The image files, the capture handle and the environment are the same
    in [w'] as in [w]. *)
Definition untouched {St} (w w' : world St) : Prop :=
  files w' = files w /\ cap_held w' = cap_held w /\ env w' = env w.

(** [only_op op op']: [op'] is the operation [op]. *)
Definition only_op (op : api_op) (op' : api_op) : bool :=
  match op, op' with
  | AlbumsList, AlbumsList | AlbumsCreate, AlbumsCreate
  | UploadsPost, UploadsPost | MediaItemsBatchCreate, MediaItemsBatchCreate => true
  | _, _ => false
  end.

(** The events of one upload: no album request, at most three byte
    uploads and at most three [batchCreate] calls. *)
Definition one_upload (evs : list event) : Prop :=
  calls_of AlbumsList evs = 0%nat /\ calls_of AlbumsCreate evs = 0%nat
  /\ (calls_of UploadsPost evs <= 3)%nat
  /\ (calls_of MediaItemsBatchCreate evs <= 3)%nat.

(** Number of [cap.release()] calls among [evs]. *)
Definition release_count (evs : list event) : nat :=
  length (List.filter is_release evs).

(** ** Further scenarios *)

(** A server whose answers may leave fields out. *)
Module Terse.

Record state : Type := {
  create_answer : create_response;
  batch_answer : batch_response
}.

#[export] Instance service : Service state unit := {
  svc_get_service := fun s => (Ok "access-token", s);
  svc_albums_list := fun _ _ s =>
    (Ok {| lr_albums := None; lr_nextPageToken := None |}, s);
  svc_albums_create := fun _ s => (Ok (create_answer s), s);
  svc_uploads_post := fun _ _ _ s =>
    (Ok {| status_code := 200; content := "upload-token" |}, s);
  svc_batch_create := fun _ _ s => (Ok (batch_answer s), s)
}.

(** It answers a creation without [id] and a batch creation with an empty
    result list. *)
Definition hollow : state :=
  {| create_answer := {| cr_id := None; cr_title := Some "Garden" |};
     batch_answer := {| br_newMediaItemResults := Some [] |} |}.

(** A disk that holds one photo. *)
Definition with_photo (path : string) (s : state) : world state :=
  {| remote := s;
     files := {[ path := {| img_pixels := 0%N; img_text := None |} ]};
     cap_held := false; trace := []; env := MemLibrary.quiet_env |}.

End Terse.

(** Schedules, and a stand-in for the [schedule] library: it knows the
    seven week days and takes times of five characters. *)
Module Schedules.
Import Triggers.

Definition weekdays : list string :=
  ["monday"; "tuesday"; "wednesday"; "thursday"; "friday"; "saturday"; "sunday"].

Definition unit_error (day : string) : option pyexn :=
  if existsb (String.eqb day) weekdays then None
  else Some (PyExc "AttributeError" ("'Job' object has no attribute '" ++ day ++ "'")).

Definition at_error (day time : string) : option pyexn :=
  if Nat.eqb (String.length time) 5 then None
  else Some (PyExc "ScheduleValueError" "Invalid time format").

Definition twice_a_day : scheduler_config :=
  {| interval_minutes := None;
     day_of_week := Some ["monday"; "friday"];
     at_time := Some (inr ["09:00"; "18:00"]) |}.

Definition no_times : scheduler_config :=
  {| interval_minutes := None;
     day_of_week := Some ["monday"; "fryday"];
     at_time := Some (inr []) |}.

Definition misspelt : scheduler_config :=
  {| interval_minutes := None;
     day_of_week := Some ["monday"; "fryday"; "sunday"];
     at_time := None |}.

End Schedules.

(** A token file whose credential has expired, and an authorisation server
    that refuses to refresh it. *)
Module Tokens.
Import Auth.

Definition stale : credentials :=
  {| cred_token := "ya29.old"; cred_valid := false; cred_expired := true;
     cred_refresh_token := Some "1//refresh" |}.

Definition refused : auth_lib string :=
  {| from_authorized_user_file := fun _ => inr stale;
     refresh := fun _ => inl Scenarios.invalid_grant;
     run_flow := inl (PyExc "OSError" "no browser");
     to_json := cred_token;
     build := fun _ => None |}.

Definition on_disk : auth_state string :=
  {| token_file := Some "token.json"; auth_trace := [] |}.

End Tokens.


(** * Properties *)

(** ** [decode_fourcc] *)

Section Fourcc.
Import Camera.

Lemma ord_range c : 0 <= ord c < 256.
Proof. unfold ord. pose proof (N_ascii_bounded c). lia. Qed.

Lemma chr_ord c : chr (ord c) = c.
Proof. unfold chr, ord. rewrite N2Z.id. apply ascii_N_embedding. Qed.

Lemma ord_chr n : 0 <= n < 256 -> ord (chr n) = n.
Proof. intros Hn. unfold chr, ord. rewrite N_ascii_embedding by lia. lia. Qed.

(** Shift-and-mask is the [i]-th base-256 digit. *)
Lemma byte_of v (i : nat) :
  Z.land (Z.shiftr v (8 * Z.of_nat i)) 255 = (v / 256 ^ Z.of_nat i) mod 256.
Proof.
  change 255 with (Z.ones 8). rewrite Z.land_ones by lia.
  rewrite Z.shiftr_div_pow2 by lia.
  rewrite Z.pow_mul_r by lia. reflexivity.
Qed.

Lemma decode_fourcc_unfold v :
  decode_fourcc v =
  String (chr ((v / 256 ^ 0) mod 256))
    (String (chr ((v / 256 ^ 1) mod 256))
       (String (chr ((v / 256 ^ 2) mod 256))
          (String (chr ((v / 256 ^ 3) mod 256)) EmptyString))).
Proof.
  unfold decode_fourcc. cbn [seq map string_of_list_ascii].
  rewrite !byte_of. reflexivity.
Qed.

Lemma VideoWriter_fourcc_value c1 c2 c3 c4 :
  VideoWriter_fourcc c1 c2 c3 c4 =
  ord c1 + 256 * ord c2 + 65536 * ord c3 + 16777216 * ord c4.
Proof.
  unfold VideoWriter_fourcc. rewrite !Z.shiftl_mul_pow2 by lia.
  change 255 with (Z.ones 8). rewrite !Z.land_ones by lia.
  pose proof (ord_range c1). pose proof (ord_range c2).
  pose proof (ord_range c3). pose proof (ord_range c4).
  rewrite !Z.mod_small by lia. lia.
Qed.

Lemma decode_fourcc_pack c1 c2 c3 c4 :
  decode_fourcc (VideoWriter_fourcc c1 c2 c3 c4) =
  String c1 (String c2 (String c3 (String c4 EmptyString))).
Proof.
  rewrite decode_fourcc_unfold, VideoWriter_fourcc_value.
  pose proof (ord_range c1). pose proof (ord_range c2).
  pose proof (ord_range c3). pose proof (ord_range c4).
  set (p := ord c1 + 256 * ord c2 + 65536 * ord c3 + 16777216 * ord c4).
  assert (E1 : (p / 256 ^ 0) mod 256 = ord c1)
    by (subst p; change (256 ^ 0) with 1; Z.div_mod_to_equations; lia).
  assert (E2 : (p / 256 ^ 1) mod 256 = ord c2)
    by (subst p; change (256 ^ 1) with 256; Z.div_mod_to_equations; lia).
  assert (E3 : (p / 256 ^ 2) mod 256 = ord c3)
    by (subst p; change (256 ^ 2) with 65536; Z.div_mod_to_equations; lia).
  assert (E4 : (p / 256 ^ 3) mod 256 = ord c4)
    by (subst p; change (256 ^ 3) with 16777216; Z.div_mod_to_equations; lia).
  rewrite E1, E2, E3, E4, !chr_ord. reflexivity.
Qed.

(** C10.  For every 32-bit integer [v] (signed or unsigned),
    [decode_fourcc v] is a string of exactly 4 characters whose [i]-th
    character, [i = 0..3], has the [i]-th least-significant byte of [v] as
    its code; consequently decoding the little-endian packing of a
    4-character string [s] gives [s] back. *)
Theorem decode_fourcc_bytes_roundtrip (v : Z) (s : string) :
  - 2 ^ 31 <= v < 2 ^ 32 ->
  String.length s = 4%nat ->
  String.length (decode_fourcc v) = 4%nat
  /\ (forall i : nat, (i < 4)%nat ->
        ord <$> String.get i (decode_fourcc v)
        = Some ((v / 256 ^ Z.of_nat i) mod 256))
  /\ (exists p, fourcc_of_string s = Some p /\ 0 <= p < 2 ^ 32
                /\ decode_fourcc p = s).
Proof.
  intros _ Hs. rewrite decode_fourcc_unfold. split; [reflexivity | split].
  - intros i Hi.
    assert (Hb : forall k, 0 <= (v / 256 ^ k) mod 256 < 256)
      by (intros k; apply Z.mod_pos_bound; lia).
    destruct i as [|[|[|[|i]]]]; [| | | | lia];
      cbn [String.get fmap option_fmap option_map]; rewrite ord_chr by apply Hb;
      reflexivity.
  - destruct s as [|c1 [|c2 [|c3 [|c4 [|c5 s]]]]]; try discriminate Hs.
    exists (VideoWriter_fourcc c1 c2 c3 c4). split; [reflexivity | split].
    + rewrite VideoWriter_fourcc_value.
      pose proof (ord_range c1). pose proof (ord_range c2).
      pose proof (ord_range c3). pose proof (ord_range c4). lia.
    + apply decode_fourcc_pack.
Qed.

Lemma decode_fourcc_bytes_roundtrip_witness :
  String.length (decode_fourcc 1196444237) = 4%nat
  /\ (forall i : nat, (i < 4)%nat ->
        ord <$> String.get i (decode_fourcc 1196444237)
        = Some ((1196444237 / 256 ^ Z.of_nat i) mod 256))
  /\ (exists p, fourcc_of_string "MJPG" = Some p /\ 0 <= p < 2 ^ 32
                /\ decode_fourcc p = "MJPG").
Proof.
  apply (decode_fourcc_bytes_roundtrip 1196444237 "MJPG"); [lia | reflexivity].
Defined.

End Fourcc.

(** ** The monad and the trace *)

Lemma attempts_app evs1 evs2 : attempts (evs1 ++ evs2) = (attempts evs1 + attempts evs2)%nat.
Proof. unfold attempts. rewrite List.filter_app, length_app. reflexivity. Qed.

Lemma calls_of_app op evs1 evs2 :
  calls_of op (evs1 ++ evs2) = (calls_of op evs1 + calls_of op evs2)%nat.
Proof. unfold calls_of. rewrite List.filter_app, length_app. reflexivity. Qed.

Lemma sleeps_app evs1 evs2 : sleeps (evs1 ++ evs2) = sleeps evs1 ++ sleeps evs2.
Proof. unfold sleeps. apply omap_app. Qed.

(** Worlds are compared field by field; the projections of an updated
    world rewrite without unfolding the update. *)
Lemma world_ext {St} (w1 w2 : world St) :
  remote w1 = remote w2 -> files w1 = files w2 -> cap_held w1 = cap_held w2 ->
  trace w1 = trace w2 -> env w1 = env w2 -> w1 = w2.
Proof. destruct w1, w2; cbn; intros; subst; reflexivity. Qed.

Lemma remote_add_event {St} e (w : world St) : remote (add_event e w) = remote w.
Proof. reflexivity. Qed.
Lemma files_add_event {St} e (w : world St) : files (add_event e w) = files w.
Proof. reflexivity. Qed.
Lemma cap_held_add_event {St} e (w : world St) : cap_held (add_event e w) = cap_held w.
Proof. reflexivity. Qed.
Lemma trace_add_event {St} e (w : world St) : trace (add_event e w) = trace w ++ [e].
Proof. reflexivity. Qed.
Lemma env_add_event {St} e (w : world St) : env (add_event e w) = env w.
Proof. reflexivity. Qed.
Lemma remote_set_remote {St} s (w : world St) : remote (set_remote s w) = s.
Proof. reflexivity. Qed.
Lemma files_set_remote {St} s (w : world St) : files (set_remote s w) = files w.
Proof. reflexivity. Qed.
Lemma cap_held_set_remote {St} s (w : world St) : cap_held (set_remote s w) = cap_held w.
Proof. reflexivity. Qed.
Lemma trace_set_remote {St} s (w : world St) : trace (set_remote s w) = trace w.
Proof. reflexivity. Qed.
Lemma env_set_remote {St} s (w : world St) : env (set_remote s w) = env w.
Proof. reflexivity. Qed.
Lemma remote_set_files {St} f (w : world St) : remote (set_files f w) = remote w.
Proof. reflexivity. Qed.
Lemma files_set_files {St} f (w : world St) : files (set_files f w) = f.
Proof. reflexivity. Qed.
Lemma cap_held_set_files {St} f (w : world St) : cap_held (set_files f w) = cap_held w.
Proof. reflexivity. Qed.
Lemma trace_set_files {St} f (w : world St) : trace (set_files f w) = trace w.
Proof. reflexivity. Qed.
Lemma env_set_files {St} f (w : world St) : env (set_files f w) = env w.
Proof. reflexivity. Qed.
Lemma remote_set_cap_held {St} b (w : world St) : remote (set_cap_held b w) = remote w.
Proof. reflexivity. Qed.
Lemma files_set_cap_held {St} b (w : world St) : files (set_cap_held b w) = files w.
Proof. reflexivity. Qed.
Lemma cap_held_set_cap_held {St} b (w : world St) : cap_held (set_cap_held b w) = b.
Proof. reflexivity. Qed.
Lemma trace_set_cap_held {St} b (w : world St) : trace (set_cap_held b w) = trace w.
Proof. reflexivity. Qed.
Lemma env_set_cap_held {St} b (w : world St) : env (set_cap_held b w) = env w.
Proof. reflexivity. Qed.
Lemma remote_called {St} op (s : St) (w : world St) : remote (called op s w) = s.
Proof. reflexivity. Qed.
Lemma files_called {St} op (s : St) (w : world St) : files (called op s w) = files w.
Proof. reflexivity. Qed.
Lemma cap_held_called {St} op (s : St) (w : world St) : cap_held (called op s w) = cap_held w.
Proof. reflexivity. Qed.
Lemma trace_called {St} op (s : St) (w : world St) : trace (called op s w) = trace w ++ [EvCall op].
Proof. reflexivity. Qed.
Lemma env_called {St} op (s : St) (w : world St) : env (called op s w) = env w.
Proof. reflexivity. Qed.

Create Rewrite HintDb world.
#[export] Hint Rewrite
  @remote_add_event @files_add_event @cap_held_add_event @trace_add_event @env_add_event @remote_set_remote @files_set_remote @cap_held_set_remote @trace_set_remote @env_set_remote @remote_set_files @files_set_files @cap_held_set_files @trace_set_files @env_set_files @remote_set_cap_held @files_set_cap_held @cap_held_set_cap_held @trace_set_cap_held @env_set_cap_held @remote_called @files_called @cap_held_called @trace_called @env_called
  : world.

(** Closes [(r, w1) = (r, w2)] and [w1 = w2] between worlds built from
    the same updates. *)
Ltac world_eq :=
  try (apply (f_equal2 pair); [reflexivity |]);
  apply world_ext; autorewrite with world;
  rewrite <- ?app_assoc; try reflexivity.

(** ** [_execute_api] *)

Section Retry.
Import GooglePhotos.
Context {St A : Type}.
Variables (op : api_op) (name : string) (callback : St -> result A * St).

Lemma execute_api_for_nil w :
  execute_api_for [] op name callback w
  = (Ok None, add_event (EvLog ERROR (name ++ " retry out.")) w).
Proof. reflexivity. Qed.

(** A normal return ends the loop with that value. *)
Lemma execute_api_for_ok i rest w a s' :
  callback (remote w) = (Ok a, s') ->
  execute_api_for (i :: rest) op name callback w = (Ok (Some a), called op s' w).
Proof.
  intros H. cbn [execute_api_for]. unfold try_except, bind, remote_call.
  rewrite H. reflexivity.
Qed.

(** An exception carrying a marker is logged and raised again. *)
Lemma execute_api_for_auth i rest w cls msg s' :
  callback (remote w) = (Raised (PyExc cls msg), s') ->
  is_auth_error msg = true ->
  execute_api_for (i :: rest) op name callback w
  = (Raised (PyExc cls msg),
     add_event (EvLog ERROR ("Authentication error detected: " ++ msg))
       (called op s' w)).
Proof.
  intros H Hm. cbn [execute_api_for]. unfold try_except, bind, remote_call.
  rewrite H, Hm. reflexivity.
Qed.

(** Any other [Exception] is logged; the loop sleeps when an index is
    left below [MAX_API_RETRY - 1] and goes on. *)
Lemma execute_api_for_retry i rest w cls msg s' :
  callback (remote w) = (Raised (PyExc cls msg), s') ->
  is_auth_error msg = false ->
  execute_api_for (i :: rest) op name callback w
  = execute_api_for rest op name callback
      (let w1 := add_event (EvLog WARNING msg) (called op s' w) in
       if (i <? MAX_API_RETRY - 1)%nat then add_event (EvSleep 3) w1 else w1).
Proof.
  intros H Hm. cbn [execute_api_for]. unfold try_except at 1.
  unfold bind at 1, remote_call. rewrite H. cbn. rewrite Hm.
  unfold bind, log, emit, when, sleep, emit, ret.
  destruct (i <=? 1)%nat; reflexivity.
Qed.

(** What [except Exception] does not catch leaves the wrapper as it came. *)
Lemma execute_api_for_uncaught i rest w r s' :
  callback (remote w) = (r, s') ->
  match r with Ok _ | Raised (PyExc _ _) => False | _ => True end ->
  exists r', execute_api_for (i :: rest) op name callback w = (r', called op s' w)
             /\ match r' with Ok _ | Raised (PyExc _ _) => False | _ => True end.
Proof.
  intros H Hr. cbn [execute_api_for]. unfold try_except, bind, remote_call.
  rewrite H. destruct r as [a|[cls msg|code|]|]; try contradiction;
    eexists; (split; [reflexivity | exact I]).
Qed.

(** The footprint of the wrapper: it appends to the trace, calls the
    callback at most once per index, sleeps 3 seconds at a time, and
    touches neither the disk nor the camera. *)
Lemma execute_api_for_effects indices w :
  exists evs,
    trace (execute_api_for indices op name callback w).2 = trace w ++ evs
    /\ (attempts evs <= length indices)%nat
    /\ Forall (eq 3) (sleeps evs)
    /\ files (execute_api_for indices op name callback w).2 = files w
    /\ cap_held (execute_api_for indices op name callback w).2 = cap_held w
    /\ env (execute_api_for indices op name callback w).2 = env w.
Proof.
  revert w. induction indices as [|i rest IH]; intros w.
  - rewrite execute_api_for_nil. eexists [_]. cbn. repeat split; auto.
  - destruct (callback (remote w)) as [r s'] eqn:Hc.
    destruct r as [a|[cls msg|code|]|].
    + erewrite execute_api_for_ok by eassumption.
      eexists [_]. cbn. repeat split; auto. unfold attempts; cbn; lia.
    + destruct (is_auth_error msg) eqn:Hm.
      * erewrite execute_api_for_auth by eassumption.
        eexists [_; _]. cbn. rewrite <- app_assoc. repeat split; auto.
        unfold attempts; cbn; lia.
      * erewrite execute_api_for_retry by eassumption.
        match goal with |- context [execute_api_for rest op name callback ?w1] =>
          destruct (IH w1) as (evs & Ht & Ha & Hs & Hf & Hh & He) end.
        rewrite Ht, Hf, Hh, He.
        destruct (i <? MAX_API_RETRY - 1)%nat; cbn.
        -- exists ([EvCall op; EvLog WARNING msg; EvSleep 3] ++ evs).
           rewrite <- !app_assoc. cbn. repeat split; auto;
             try (unfold attempts in *; cbn; lia);
             try (unfold sleeps in *; cbn; constructor; auto).
        -- exists ([EvCall op; EvLog WARNING msg] ++ evs).
           rewrite <- !app_assoc. cbn. repeat split; auto.
           unfold attempts in *; cbn; lia.
    + destruct (execute_api_for_uncaught i rest w _ _ Hc I) as (r' & -> & _).
      eexists [_]. cbn. repeat split; auto. unfold attempts; cbn; lia.
    + destruct (execute_api_for_uncaught i rest w _ _ Hc I) as (r' & -> & _).
      eexists [_]. cbn. repeat split; auto. unfold attempts; cbn; lia.
    + destruct (execute_api_for_uncaught i rest w _ _ Hc I) as (r' & -> & _).
      eexists [_]. cbn. repeat split; auto. unfold attempts; cbn; lia.
Qed.

End Retry.

Section RetryClaims.
Import GooglePhotos.
Context {St A : Type}.
Variables (op : api_op) (name : string) (callback : St -> result A * St).

(** C2.  Whichever attempt the wrapper is at (the first, second or third:
    [k] attempts already failed), when the callback raises an exception
    whose message contains "invalid_grant", "expired" or "revoked", the
    wrapper raises that same exception: the only events it adds are that one
    call and the error log, so no further attempt is made and no backoff
    sleep happens.  With [k = 0] this is [_execute_api] itself. *)
Theorem auth_error_reraised_at_once (k : nat) (w : world St) cls msg s' :
  (k < MAX_API_RETRY)%nat ->
  callback (remote w) = (Raised (PyExc cls msg), s') ->
  str_in "invalid_grant" msg || str_in "expired" msg || str_in "revoked" msg = true ->
  exists w' evs,
    execute_api_for (drop k (seq 0 MAX_API_RETRY)) op name callback w
    = (Raised (PyExc cls msg), w')
    /\ (k = 0%nat -> _execute_api op name callback w = (Raised (PyExc cls msg), w'))
    /\ remote w' = s'
    /\ trace w' = trace w ++ evs
    /\ evs = [EvCall op; EvLog ERROR ("Authentication error detected: " ++ msg)]
    /\ attempts evs = 1%nat
    /\ sleeps evs = [].
Proof.
  intros Hk Hc Hm.
  assert (Hi : exists i rest, drop k (seq 0 MAX_API_RETRY) = i :: rest).
  { destruct k as [|[|[|k]]]; cbn; eauto. unfold MAX_API_RETRY in Hk. lia. }
  destruct Hi as (i & rest & Hi).
  eexists _, _. rewrite Hi.
  erewrite execute_api_for_auth by eassumption.
  repeat split.
  - intros ->. unfold _execute_api.
    change (seq 0 MAX_API_RETRY) with (drop 0 (seq 0 MAX_API_RETRY)). rewrite Hi.
    erewrite execute_api_for_auth by eassumption. reflexivity.
  - cbn. rewrite <- app_assoc. reflexivity.
Qed.

(** C5.  The retry wrapper: (1) whatever the callback does, it is invoked
    at most 3 times and every sleep lasts 3 seconds; (2) at any attempt, a
    normal return is the wrapper's result and nothing follows it; (3) at any
    attempt, a retryable failure is logged and, when an attempt is left,
    followed by a 3-second sleep and the next attempt; (4) three retryable
    failures give [None], not an exception; (5) two retryable failures
    followed by a success give that success. *)
Theorem execute_api_retry_policy :
  (forall w, exists evs,
      trace (_execute_api op name callback w).2 = trace w ++ evs
      /\ (attempts evs <= 3)%nat
      /\ Forall (eq 3) (sleeps evs))
  /\ (forall k w a s',
        (k < 3)%nat ->
        callback (remote w) = (Ok a, s') ->
        execute_api_for (drop k (seq 0 MAX_API_RETRY)) op name callback w
        = (Ok (Some a), called op s' w))
  /\ (forall k w cls msg s',
        (k < 3)%nat ->
        callback (remote w) = (Raised (PyExc cls msg), s') ->
        is_auth_error msg = false ->
        execute_api_for (drop k (seq 0 MAX_API_RETRY)) op name callback w
        = execute_api_for (drop (S k) (seq 0 MAX_API_RETRY)) op name callback
            (let w1 := add_event (EvLog WARNING msg) (called op s' w) in
             if (S k <? 3)%nat then add_event (EvSleep 3) w1 else w1))
  /\ (forall w c1 m1 s1 c2 m2 s2 c3 m3 s3,
        callback (remote w) = (Raised (PyExc c1 m1), s1) -> is_auth_error m1 = false ->
        callback s1 = (Raised (PyExc c2 m2), s2) -> is_auth_error m2 = false ->
        callback s2 = (Raised (PyExc c3 m3), s3) -> is_auth_error m3 = false ->
        _execute_api op name callback w
        = (Ok None,
           {| remote := s3; files := files w; cap_held := cap_held w;
              trace := trace w ++ [EvCall op; EvLog WARNING m1; EvSleep 3;
                                   EvCall op; EvLog WARNING m2; EvSleep 3;
                                   EvCall op; EvLog WARNING m3;
                                   EvLog ERROR (name ++ " retry out.")];
              env := env w |}))
  /\ (forall w c1 m1 s1 c2 m2 s2 a s3,
        callback (remote w) = (Raised (PyExc c1 m1), s1) -> is_auth_error m1 = false ->
        callback s1 = (Raised (PyExc c2 m2), s2) -> is_auth_error m2 = false ->
        callback s2 = (Ok a, s3) ->
        _execute_api op name callback w
        = (Ok (Some a),
           {| remote := s3; files := files w; cap_held := cap_held w;
              trace := trace w ++ [EvCall op; EvLog WARNING m1; EvSleep 3;
                                   EvCall op; EvLog WARNING m2; EvSleep 3;
                                   EvCall op];
              env := env w |})).
Proof.
  split; [|split; [|split; [|split]]].
  - intros w. destruct (execute_api_for_effects op name callback (seq 0 MAX_API_RETRY) w)
      as (evs & Ht & Ha & Hs & _).
    exists evs. unfold _execute_api. auto.
  - intros k w a s' Hk Hc.
    destruct k as [|[|[|k]]]; [| | | lia]; cbn [drop seq MAX_API_RETRY];
      apply execute_api_for_ok; assumption.
  - intros k w cls msg s' Hk Hc Hm.
    destruct k as [|[|[|k]]]; [| | | lia]; cbn [drop seq MAX_API_RETRY];
      erewrite execute_api_for_retry by eassumption; reflexivity.
  - intros w c1 m1 s1 c2 m2 s2 c3 m3 s3 H1 A1 H2 A2 H3 A3.
    unfold _execute_api. cbn [seq MAX_API_RETRY].
    erewrite execute_api_for_retry by eassumption. cbn [Nat.ltb Nat.leb Nat.sub MAX_API_RETRY].
    erewrite execute_api_for_retry by (cbn; eassumption). cbn [Nat.ltb Nat.leb Nat.sub MAX_API_RETRY].
    erewrite execute_api_for_retry by (cbn; eassumption). cbn [Nat.ltb Nat.leb Nat.sub MAX_API_RETRY].
    rewrite execute_api_for_nil. world_eq.
  - intros w c1 m1 s1 c2 m2 s2 a s3 H1 A1 H2 A2 H3.
    unfold _execute_api. cbn [seq MAX_API_RETRY].
    erewrite execute_api_for_retry by eassumption. cbn [Nat.ltb Nat.leb Nat.sub MAX_API_RETRY].
    erewrite execute_api_for_retry by (cbn; eassumption). cbn [Nat.ltb Nat.leb Nat.sub MAX_API_RETRY].
    erewrite execute_api_for_ok by (cbn; eassumption). world_eq.
Qed.

End RetryClaims.

Section RetryRuns.
Import GooglePhotos MemLibrary Scenarios.

Lemma auth_error_reraised_at_once_witness :
  exists w' evs,
    execute_api_for (drop 0 (seq 0 MAX_API_RETRY)) AlbumsList "execute"
      (albums_list 50 None)
      (boot (with_faults [Some invalid_grant] (holding [garden] [])) quiet_env)
    = (Raised invalid_grant, w')
    /\ (0%nat = 0%nat ->
        _execute_api AlbumsList "execute" (albums_list 50 None)
          (boot (with_faults [Some invalid_grant] (holding [garden] [])) quiet_env)
        = (Raised invalid_grant, w'))
    /\ remote w' = holding [garden] []
    /\ trace w' = [] ++ evs
    /\ evs = [EvCall AlbumsList;
              EvLog ERROR ("Authentication error detected: "
                           ++ "invalid_grant: Token has been expired or revoked.")]
    /\ attempts evs = 1%nat
    /\ sleeps evs = [].
Proof.
  apply (auth_error_reraised_at_once AlbumsList "execute" (albums_list 50 None) 0
           (boot (with_faults [Some invalid_grant] (holding [garden] [])) quiet_env)
           "RefreshError" "invalid_grant: Token has been expired or revoked."
           (holding [garden] []));
    [unfold MAX_API_RETRY; lia | reflexivity | reflexivity].
Defined.

Lemma execute_api_retry_policy_witness :
  _execute_api AlbumsList "execute" (albums_list 50 None)
    (boot (flaky 2 [garden] []) quiet_env)
  = (Ok (Some {| lr_albums := Some [garden]; lr_nextPageToken := None |}),
     {| remote := holding [garden] []; files := ∅; cap_held := false;
        trace := [] ++ [EvCall AlbumsList;
                        EvLog WARNING "The read operation timed out"; EvSleep 3;
                        EvCall AlbumsList;
                        EvLog WARNING "The read operation timed out"; EvSleep 3;
                        EvCall AlbumsList];
        env := quiet_env |}).
Proof.
  apply (proj2 (proj2 (proj2 (proj2
           (execute_api_retry_policy AlbumsList "execute" (albums_list 50 None)))))
           (boot (flaky 2 [garden] []) quiet_env)
           "TimeoutError" "The read operation timed out" (flaky 1 [garden] [])
           "TimeoutError" "The read operation timed out" (flaky 0 [garden] []));
    reflexivity.
Defined.

End RetryRuns.

(** ** Sequencing *)

Section Bind.
Context {St A B : Type}.
Implicit Types (m : M St A) (k : A -> M St B).

Lemma bind_ok m k w a w' : m w = (Ok a, w') -> bind m k w = k a w'.
Proof. intros H. unfold bind. rewrite H. reflexivity. Qed.

Lemma bind_raised m k w e w' : m w = (Raised e, w') -> bind m k w = (Raised e, w').
Proof. intros H. unfold bind. rewrite H. reflexivity. Qed.

Lemma bind_out_of_fuel m k w w' : m w = (OutOfFuel, w') -> bind m k w = (OutOfFuel, w').
Proof. intros H. unfold bind. rewrite H. reflexivity. Qed.

(** A sequence returns only if its first part does. *)
Lemma bind_ok_inv m k w b w' :
  bind m k w = (Ok b, w') -> exists a w1, m w = (Ok a, w1) /\ k a w1 = (Ok b, w').
Proof.
  unfold bind. destruct (m w) as [[a|e|] w1]; intros H; try discriminate H. eauto.
Qed.

Lemma bind_assoc {C} m k (h : B -> M St C) w :
  bind (bind m k) h w = bind m (fun a => bind (k a) h) w.
Proof. unfold bind. destruct (m w) as [[a|e|] w1]; reflexivity. Qed.

End Bind.

(** ** [get_album_list] *)

Section Listing.
Import GooglePhotos ClientSpec.
Context {St Tok : Type} `{!Service St Tok}.

(** One turn of the loop, given what the page request answered. *)
Lemma get_album_list_loop_step fuel acc tok (w : world St) r w1 :
  fetch_page tok w = (Ok (Some r), w1) ->
  get_album_list_loop (S fuel) acc tok w
  = match lr_albums r with
    | None => (Ok acc, w1)
    | Some albums =>
        match lr_nextPageToken r with
        | None => (Ok (acc ++ albums), w1)
        | Some t => get_album_list_loop fuel (acc ++ albums) (Some t) w1
        end
    end.
Proof.
  intros H. cbn [get_album_list_loop].
  rewrite <- (bind_assoc _get_service (fun _ => _execute_api AlbumsList "execute" _)).
  fold (fetch_page tok). erewrite bind_ok by exact H. cbv beta iota zeta.
  destruct (lr_albums r); [destruct (lr_nextPageToken r)|]; reflexivity.
Qed.

(** When the wrapper runs out of attempts, the membership test on [None]
    raises. *)
Lemma get_album_list_loop_exhausted fuel acc tok (w : world St) w1 :
  fetch_page tok w = (Ok None, w1) ->
  get_album_list_loop (S fuel) acc tok w = (Raised NoneType_not_iterable, w1).
Proof.
  intros H. cbn [get_album_list_loop].
  rewrite <- (bind_assoc _get_service (fun _ => _execute_api AlbumsList "execute" _)).
  fold (fetch_page tok). erewrite bind_ok by exact H. reflexivity.
Qed.

(** The loop returns what it had accumulated followed by the albums of
    the pages walked. *)
Lemma get_album_list_loop_walk (w : world St) tok rs w' :
  cursor_walk w tok rs w' ->
  forall fuel acc, (length rs <= fuel)%nat ->
    get_album_list_loop fuel acc tok w = (Ok (acc ++ concat (map items_of rs)), w').
Proof.
  induction 1 as [w tok r w' Hf Hlast | w tok r albums t w1 rs w' Hf Ha Ht _ IH];
    intros fuel acc Hfuel; (destruct fuel as [|fuel]; [cbn in Hfuel; lia|]);
    erewrite get_album_list_loop_step by exact Hf.
  - cbn [map concat]. rewrite app_nil_r. unfold items_of.
    destruct (lr_albums r) as [albums|] eqn:Ha; cbn.
    + destruct Hlast as [Hn | ->]; [discriminate Hn | reflexivity].
    + rewrite app_nil_r. reflexivity.
  - rewrite Ha, Ht. rewrite IH by (cbn in Hfuel; lia).
    cbn [map concat]. unfold items_of at 2. rewrite Ha. cbn. rewrite app_assoc.
    reflexivity.
Qed.


End Listing.

Section ListingRuns.
Import GooglePhotos ClientSpec MemLibrary Scenarios.



End ListingRuns.

(** ** [create_album] and [upload_image] *)

Section Upload.
Import GooglePhotos ClientSpec.
Context {St Tok : Type} `{!Service St Tok}.

Lemma get_service_world (w : world St) r w' :
  _get_service w = (r, w') -> exists s', w' = set_remote s' w.
Proof.
  unfold _get_service. destruct (svc_get_service (remote w)) as [r0 s'].
  intros [= _ <-]. eauto.
Qed.

Lemma get_service_files (w : world St) r w' :
  _get_service w = (r, w') -> files w' = files w.
Proof. intros H. apply get_service_world in H as [s' ->]. reflexivity. Qed.

Lemma log_then_ret {A} lvl msg (a : A) (w : world St) :
  (log lvl msg ;; ret a)%py w = (Ok a, add_event (EvLog lvl msg) w).
Proof. reflexivity. Qed.

Ltac phases :=
  repeat match goal with
         | H : phase1 _ _ _ _ |- _ => destruct H as (? & ? & ? & ? & ? & ?)
         | H : phase2 _ _ _ _ _ |- _ => destruct H as (? & ? & ? & ?)
         | H : _ /\ _ |- _ => destruct H
         | H : exists _, _ |- _ => destruct H
         end.

(** The code of [upload_image] after the file test, as a function of the
    file's bytes. *)
Lemma upload_image_unfold album_id image_path (w : world St) :
  upload_image album_id image_path w
  = match files w !! image_path with
    | None => (Ok false, add_event (EvLog ERROR "Image not exists.") w)
    | Some data =>
        match _get_service w with
        | (Ok token, wa) =>
            match _execute_api UploadsPost "post"
                    (svc_uploads_post token (basename image_path) data) wa with
            | (Ok (Some r), wb) =>
                if Z.eqb (status_code r) 200 then
                  match _get_service wb with
                  | (Ok _, wc) =>
                      match _execute_api MediaItemsBatchCreate "execute"
                              (svc_batch_create album_id (content r)) wc with
                      | (Ok (Some r2), wd) =>
                          match br_newMediaItemResults r2 with
                          | None =>
                              (Ok false,
                               add_event
                                 (EvLog WARNING
                                    "Failed to upload image due to newMediaItemResults key not exists.")
                                 wd)
                          | Some [] =>
                              (Raised (PyExc "IndexError" "list index out of range"), wd)
                          | Some (item :: _) =>
                              match mir_status item with
                              | None => (Raised (KeyError "status"), wd)
                              | Some status =>
                                  (Ok true,
                                   add_event
                                     (EvLog INFO
                                        ("Succeeded upload of image to photo library. status: "
                                         ++ status)) wd)
                              end
                          end
                      | (Ok None, wd) => (Raised NoneType_not_iterable, wd)
                      | (Raised e, wd) => (Raised e, wd)
                      | (OutOfFuel, wd) => (OutOfFuel, wd)
                      end
                  | (Raised e, wc) => (Raised e, wc)
                  | (OutOfFuel, wc) => (OutOfFuel, wc)
                  end
                else
                  (Ok false,
                   add_event
                     (EvLog WARNING
                        "Failed to upload image due to response status_code is not ok.")
                     wb)
            | (Ok None, wb) =>
                (Raised (PyExc "AttributeError"
                           "'NoneType' object has no attribute 'status_code'"), wb)
            | (Raised e, wb) => (Raised e, wb)
            | (OutOfFuel, wb) => (OutOfFuel, wb)
            end
        | (Raised e, wa) => (Raised e, wa)
        | (OutOfFuel, wa) => (OutOfFuel, wa)
        end
    end.
Proof.
  unfold upload_image. unfold bind at 1. unfold os_path_isfile.
  destruct (files w !! image_path) as [data|] eqn:Hfile; cbn [negb]; [|reflexivity].
  unfold bind at 1.
  destruct (_get_service w) as [[token|e|] wa] eqn:Hs; [|reflexivity..].
  unfold bind at 1. unfold open_rb. rewrite (get_service_files _ _ _ Hs), Hfile.
  unfold bind at 1.
  destruct (_execute_api UploadsPost "post" _ wa) as [[[r|]|e|] wb]; [|reflexivity..].
  destruct (Z.eqb (status_code r) 200); cbn [negb]; [|reflexivity].
  unfold bind at 1.
  destruct (_get_service wb) as [[token2|e|] wc]; [|reflexivity..].
  unfold bind at 1.
  destruct (_execute_api MediaItemsBatchCreate "execute" _ wc) as [[[r2|]|e|] wd];
    [|reflexivity..].
  destruct (br_newMediaItemResults r2) as [[|item rest]|]; [reflexivity| |reflexivity].
  destruct (mir_status item); reflexivity.
Qed.

Ltac forward :=
  unfold phase1, phase2; eauto 40.

Ltac leaf :=
  split; (split; [ intros Heq; try discriminate Heq;
                   injection Heq as <-; forward
                 | intros Hd; decompose [or] Hd; phases; congruence ]).

(** C9.  [upload_image] returns [False] (without raising) in exactly three
    cases: the local file does not exist, and then nothing but the error log
    happens (no request is made); the byte upload answers with a status
    code other than 200; or the batch creation answers without a
    [newMediaItemResults] field.  It returns [True] exactly when both phases
    answer, the first with status 200 and the second with a first result
    carrying a status. *)
Theorem upload_image_outcomes album_id image_path (w w' : world St) :
  (upload_image album_id image_path w = (Ok false, w') <->
     (files w !! image_path = None
      /\ w' = add_event (EvLog ERROR "Image not exists.") w)
     \/ (exists r w1,
           phase1 image_path w r w1 /\ status_code r <> 200
           /\ w' = add_event
                     (EvLog WARNING
                        "Failed to upload image due to response status_code is not ok.")
                     w1)
     \/ (exists r w1 r2 w2,
           phase1 image_path w r w1 /\ status_code r = 200
           /\ phase2 album_id (content r) w1 r2 w2
           /\ br_newMediaItemResults r2 = None
           /\ w' = add_event
                     (EvLog WARNING
                        "Failed to upload image due to newMediaItemResults key not exists.")
                     w2))
  /\ (upload_image album_id image_path w = (Ok true, w') <->
      exists r w1 r2 w2 item rest status,
        phase1 image_path w r w1 /\ status_code r = 200
        /\ phase2 album_id (content r) w1 r2 w2
        /\ br_newMediaItemResults r2 = Some (item :: rest)
        /\ mir_status item = Some status
        /\ w' = add_event
                  (EvLog INFO ("Succeeded upload of image to photo library. status: "
                               ++ status))
                  w2).
Proof.
  rewrite upload_image_unfold.
  destruct (files w !! image_path) as [data|] eqn:Hfile; [|leaf].
  destruct (_get_service w) as [[token|e|] wa] eqn:Hs; [|leaf..].
  destruct (_execute_api UploadsPost "post" _ wa) as [[[r|]|e|] wb] eqn:H1; [|leaf..].
  destruct (Z.eqb (status_code r) 200) eqn:Hst;
    [apply Z.eqb_eq in Hst | apply Z.eqb_neq in Hst; leaf].
  destruct (_get_service wb) as [[token2|e|] wc] eqn:Hs2; [|leaf..].
  destruct (_execute_api MediaItemsBatchCreate "execute" _ wc) as [[[r2|]|e|] wd] eqn:H2;
    [|leaf..].
  destruct (br_newMediaItemResults r2) as [[|item rest]|] eqn:Hres; [leaf| |leaf].
  destruct (mir_status item) eqn:Hstatus; leaf.

Qed.

(** When the wrapper runs out of attempts on the byte upload,
    [upload_image] raises on [response.status_code]. *)
Lemma upload_image_exhausted album_id image_path (w : world St) data token wa wb :
  files w !! image_path = Some data ->
  _get_service w = (Ok token, wa) ->
  _execute_api UploadsPost "post"
    (svc_uploads_post token (basename image_path) data) wa = (Ok None, wb) ->
  upload_image album_id image_path w
  = (Raised (PyExc "AttributeError"
               "'NoneType' object has no attribute 'status_code'"), wb).
Proof.
  intros Hf Hs Hp. rewrite upload_image_unfold, Hf, Hs, Hp. reflexivity.
Qed.

(** When the wrapper runs out of attempts, [create_album] raises on the
    membership test. *)
Lemma create_album_exhausted title (w : world St) token wa wb :
  _get_service w = (Ok token, wa) ->
  _execute_api AlbumsCreate "execute" (svc_albums_create title) wa = (Ok None, wb) ->
  create_album title w = (Raised NoneType_not_iterable, wb).
Proof.
  intros Hs Hc. unfold create_album.
  erewrite bind_ok by exact Hs. erewrite bind_ok by exact Hc. reflexivity.
Qed.

End Upload.

Section ClientRuns.
Import GooglePhotos ClientSpec MemLibrary Scenarios.

Lemma upload_image_outcomes_witness :
  upload_image (Some "id-0") "photos/missing.jpg"
    (boot (holding [garden] []) quiet_env)
  = (Ok false,
     add_event (EvLog ERROR "Image not exists.")
       (boot (holding [garden] []) quiet_env)).
Proof.
  apply (proj2 (proj1 (upload_image_outcomes (Some "id-0") "photos/missing.jpg"
                         (boot (holding [garden] []) quiet_env) _))).
  left. split; reflexivity.
Defined.

(** C4, at a failing input: a library whose next three requests time out.
    The wrapper returns [None] as designed, and each client operation then
    raises instead of reporting a failed result: [get_album_list] and
    [create_album] a [TypeError] from the membership test on [None],
    [upload_image] an [AttributeError] from [response.status_code] (and a
    [TypeError] when it is the second phase that runs out). *)
Theorem retry_exhaustion_raises_in_client :
  let w := boot (flaky 3 [garden] ["id-1"]) quiet_env in
  let photo := {| img_pixels := 7%N; img_text := None |} in
  let on_disk (w : world state) := set_files {[ "photos/a.jpg" := photo ]} w in
  (_execute_api AlbumsList "execute" (albums_list 50 None) w).1 = Ok None
  /\ (get_album_list 8 w).1
     = Raised (PyExc "TypeError" "argument of type 'NoneType' is not iterable")
  /\ (create_album "Holiday" w).1
     = Raised (PyExc "TypeError" "argument of type 'NoneType' is not iterable")
  /\ (upload_image (Some "id-0") "photos/a.jpg" (on_disk w)).1
     = Raised (PyExc "AttributeError"
                 "'NoneType' object has no attribute 'status_code'")
  /\ (upload_image (Some "id-0") "photos/a.jpg"
        (on_disk (boot (with_faults (None :: replicate 3 (Some transient))
                          (holding [garden] [])) quiet_env))).1
     = Raised (PyExc "TypeError" "argument of type 'NoneType' is not iterable").
Proof. vm_compute. repeat split; reflexivity. Qed.

End ClientRuns.

(** ** Footprints of the building blocks *)

Section Frames.
Context {St : Type}.
Variable P : event -> Prop.

Lemma local_frame_ret {A} (a : A) : local_frame P (ret a : M St A).
Proof. intros w. exists []. cbn. rewrite app_nil_r. repeat split; auto. Qed.

Lemma local_frame_raise {A} e : local_frame P (raise e : M St A).
Proof. intros w. exists []. cbn. rewrite app_nil_r. repeat split; auto. Qed.

Lemma local_frame_out_of_fuel {A} : local_frame P (out_of_fuel : M St A).
Proof. intros w. exists []. cbn. rewrite app_nil_r. repeat split; auto. Qed.

Lemma local_frame_emit e : P e -> local_frame P (emit e : M St unit).
Proof. intros He w. exists [e]. cbn. repeat split; auto. Qed.

Lemma local_frame_bind {A B} (m : M St A) (k : A -> M St B) :
  local_frame P m -> (forall a, local_frame P (k a)) -> local_frame P (bind m k).
Proof.
  intros Hm Hk w. destruct (Hm w) as (evs1 & Hf & Hc & He & Ht & HP).
  unfold bind. destruct (m w) as [[a|e|] w1]; cbn in *.
  - destruct (Hk a w1) as (evs2 & Hf2 & Hc2 & He2 & Ht2 & HP2).
    exists (evs1 ++ evs2). rewrite Hf2, Hc2, He2, Ht2, Hf, Hc, He, Ht, app_assoc.
    repeat split; auto. apply Forall_app; auto.
  - exists evs1. repeat split; auto.
  - exists evs1. repeat split; auto.
Qed.

Lemma local_frame_try_except {A} (body : M St A) handler :
  local_frame P body -> (forall cls msg, local_frame P (handler cls msg)) ->
  local_frame P (try_except body handler).
Proof.
  intros Hm Hk w. destruct (Hm w) as (evs1 & Hf & Hc & He & Ht & HP).
  unfold try_except. destruct (body w) as [[a|[cls msg|code|]|] w1]; cbn in *;
    try (exists evs1; repeat split; auto; fail).
  destruct (Hk cls msg w1) as (evs2 & Hf2 & Hc2 & He2 & Ht2 & HP2).
  exists (evs1 ++ evs2). rewrite Hf2, Hc2, He2, Ht2, Hf, Hc, He, Ht, app_assoc.
  repeat split; auto. apply Forall_app; auto.
Qed.

Lemma local_frame_when b (m : M St unit) : local_frame P m -> local_frame P (when b m).
Proof. destruct b; [auto | intros _; apply local_frame_ret]. Qed.

Lemma local_frame_remote_call {A} op (cb : St -> result A * St) :
  P (EvCall op) -> local_frame P (remote_call op cb).
Proof.
  intros He w. exists [EvCall op]. unfold remote_call.
  destruct (cb (remote w)) as [r s']. cbn. repeat split; auto.
Qed.

Lemma local_frame_ask {A} (f : environment -> A) : local_frame P (ask f : M St A).
Proof. intros w. exists []. cbn. rewrite app_nil_r. repeat split; auto. Qed.

Lemma local_frame_os_path_isfile path : local_frame P (os_path_isfile path : M St bool).
Proof. intros w. exists []. cbn. rewrite app_nil_r. repeat split; auto. Qed.

Lemma local_frame_open_rb path : local_frame P (open_rb path : M St image).
Proof.
  intros w. exists []. unfold open_rb. destruct (files w !! path); cbn;
    rewrite app_nil_r; repeat split; auto.
Qed.

End Frames.

Lemma local_frame_weaken {St A} (P Q : event -> Prop) (m : M St A) :
  (forall e, P e -> Q e) -> local_frame P m -> local_frame Q m.
Proof.
  intros HPQ Hm w. destruct (Hm w) as (evs & Hf & Hc & He & Ht & HP).
  exists evs. repeat split; auto. eapply Forall_impl; eauto.
Qed.

(** Applies the footprint lemma matching the head of the computation,
    splitting on the scrutinee of a [match] or [if]; [tac] closes the
    calls to functions already treated. *)
Ltac frame_step tac :=
  lazymatch goal with
  | |- local_frame _ (ret _) => apply local_frame_ret
  | |- local_frame _ (raise _) => apply local_frame_raise
  | |- local_frame _ (sys_exit _) => apply local_frame_raise
  | |- local_frame _ out_of_fuel => apply local_frame_out_of_fuel
  | |- local_frame _ (ask _) => apply local_frame_ask
  | |- local_frame _ (strftime _) => apply local_frame_ask
  | |- local_frame _ (os_path_isfile _) => apply local_frame_os_path_isfile
  | |- local_frame _ (open_rb _) => apply local_frame_open_rb
  | |- local_frame _ (emit _) => apply local_frame_emit; first [exact I | solve [auto]]
  | |- local_frame _ (log _ _) => apply local_frame_emit; first [exact I | solve [auto]]
  | |- local_frame _ (sleep _) => apply local_frame_emit; first [exact I | solve [auto]]
  | |- local_frame _ (remote_call _ _) =>
      apply local_frame_remote_call; first [exact I | solve [auto]]
  | |- local_frame _ (when _ _) => apply local_frame_when
  | |- local_frame _ (bind _ _) => apply local_frame_bind; [| intros ?]
  | |- local_frame _ (try_except _ _) => apply local_frame_try_except; [| intros ? ?]
  | |- local_frame _ (match ?x with _ => _ end) => destruct x
  | |- local_frame _ _ => tac
  end.

Ltac frame_with tac := repeat (frame_step tac).

Section ClientFrames.
Import GooglePhotos.
Context {St Tok : Type} `{!Service St Tok}.
Variable P : event -> Prop.
Hypothesis P_log : forall lvl msg, P (EvLog lvl msg).
Hypothesis P_sleep : forall seconds, P (EvSleep seconds).

Lemma local_frame_get_service : local_frame P (_get_service : M St string).
Proof.
  intros w. exists []. unfold _get_service.
  destruct (svc_get_service (remote w)) as [r s']. cbn. rewrite app_nil_r.
  repeat split; auto.
Qed.

Lemma local_frame_id_of a : local_frame P (id_of a : M St string).
Proof. unfold id_of. frame_with fail. Qed.

Lemma local_frame_execute_api_for {A} indices op name (cb : St -> result A * St) :
  P (EvCall op) -> local_frame P (execute_api_for indices op name cb).
Proof.
  intros Hop.
  induction indices as [|i rest IH]; cbn [execute_api_for]; frame_with assumption.
Qed.

Lemma local_frame_execute_api {A} op name (cb : St -> result A * St) :
  P (EvCall op) -> local_frame P (_execute_api op name cb).
Proof. apply local_frame_execute_api_for. Qed.

Ltac client_frames :=
  first [ apply local_frame_get_service
        | apply local_frame_execute_api; assumption
        | match goal with IH : forall _ _, local_frame _ _ |- _ => apply IH end ].

Lemma local_frame_get_album_list_loop fuel acc tok :
  P (EvCall AlbumsList) -> local_frame P (get_album_list_loop fuel acc tok).
Proof.
  intros Hop. revert acc tok. induction fuel as [|fuel IH]; intros acc tok;
    cbn [get_album_list_loop]; frame_with client_frames.
Qed.

Lemma local_frame_get_album fuel title :
  P (EvCall AlbumsList) -> local_frame P (get_album fuel title).
Proof.
  intros Hop. unfold get_album, get_album_list.
  frame_with ltac:(apply local_frame_get_album_list_loop; assumption).
Qed.

Lemma local_frame_create_album title :
  P (EvCall AlbumsCreate) -> local_frame P (create_album title).
Proof. intros Hop. unfold create_album. frame_with client_frames. Qed.

Lemma local_frame_upload_image album_id image_path :
  P (EvCall UploadsPost) -> P (EvCall MediaItemsBatchCreate) ->
  local_frame P (upload_image album_id image_path).
Proof. intros Hop1 Hop2. unfold upload_image. frame_with client_frames. Qed.

End ClientFrames.

(** ** [save_photo] *)

Section Capture.
Import CameraModule.
Context {St : Type}.

Lemma local_frame_apply_settings settings :
  local_frame is_setup_event (apply_settings settings : M St unit).
Proof.
  unfold apply_settings, cap_set. frame_with fail.
Qed.

Lemma save_photo_unfold device_id save_path settings with_datetime (w : world St) :
  save_photo device_id save_path settings with_datetime w
  = match apply_settings settings (captured device_id w) with
    | (Ok _, wa) =>
        if cap_held wa then
          let wr := add_event EvCapRead (add_event (EvSleep 2) wa) in
          match dev_frame (env_device (env wa)) with
          | None =>
              (Ok false, add_event (EvLog ERROR "Failed to read video capture.") wr)
          | Some img =>
              match (if with_datetime then env_putText_error (env wa) else None) with
              | Some e => (Raised e, wr)
              | None =>
                  let img :=
                    if with_datetime
                    then {| img_pixels := img_pixels img;
                            img_text := Some (env_clock (env wa) "%Y/%m/%d %H:%M:%S") |}
                    else img in
                  match (if nonempty (dirname save_path)
                         then env_makedirs_error (env wa) (dirname save_path)
                         else None) with
                  | Some e => (Raised e, wr)
                  | None =>
                      let wm := if nonempty (dirname save_path)
                                then add_event (EvMakedirs (dirname save_path)) wr
                                else wr in
                      match env_imwrite_error (env wa) with
                      | Some e => (Raised e, wm)
                      | None =>
                          let ww := if env_imwrite_ok (env wa)
                                    then set_files (<[save_path := img]> (files wm)) wm
                                    else wm in
                          (Ok (env_imwrite_ok (env wa)),
                           add_event (EvLog INFO ("Photo saved: " ++ save_path))
                             (add_event EvDestroyAllWindows
                                (set_cap_held false (add_event EvCapRelease ww))))
                      end
                  end
              end
          end
        else (Ok false, add_event (EvLog ERROR "Failed to open video capture.") wa)
    | (Raised e, wa) => (Raised e, wa)
    | (OutOfFuel, wa) => (OutOfFuel, wa)
    end.
Proof.
  unfold save_photo. unfold bind at 1. unfold VideoCapture at 1. fold (captured device_id w).
  unfold bind at 1.
  destruct (apply_settings settings (captured device_id w)) as [[[]|e|] wa];
    [|reflexivity..].
  unfold bind at 1. unfold cap_isOpened at 1.
  destruct (cap_held wa); cbn [negb]; [|reflexivity].
  unfold bind at 1. unfold sleep at 1, emit at 1.
  unfold bind at 1. unfold cap_read at 1.
  change (env (add_event (EvSleep 2) wa)) with (env wa).
  destruct (dev_frame (env_device (env wa))) as [img|]; [|reflexivity].
  set (wr := add_event EvCapRead (add_event (EvSleep 2) wa)).
  assert (Hwr : env wr = env wa) by reflexivity.
  assert (Hwrite : forall img0 (wm : world St), env wm = env wa ->
            (let* result := imwrite save_path img0 in
             cap_release ;; emit EvDestroyAllWindows ;;
             log INFO ("Photo saved: " ++ save_path) ;; ret result) wm
            = match env_imwrite_error (env wa) with
              | Some e => (Raised e, wm)
              | None =>
                  (Ok (env_imwrite_ok (env wa)),
                   add_event (EvLog INFO ("Photo saved: " ++ save_path))
                     (add_event EvDestroyAllWindows
                        (set_cap_held false
                           (add_event EvCapRelease
                              (if env_imwrite_ok (env wa)
                               then set_files (<[save_path := img0]> (files wm)) wm
                               else wm)))))
              end).
  { intros img0 wm Hwm. unfold bind at 1. unfold imwrite. rewrite Hwm.
    destruct (env_imwrite_error (env wa)); [reflexivity|].
    destruct (env_imwrite_ok (env wa)); reflexivity. }
  assert (Hdir : forall img0,
            (when (nonempty (dirname save_path)) (makedirs (dirname save_path)) ;;
             let* result := imwrite save_path img0 in
             cap_release ;; emit EvDestroyAllWindows ;;
             log INFO ("Photo saved: " ++ save_path) ;; ret result) wr
            = match (if nonempty (dirname save_path)
                     then env_makedirs_error (env wa) (dirname save_path)
                     else None) with
              | Some e => (Raised e, wr)
              | None =>
                  let wm := if nonempty (dirname save_path)
                            then add_event (EvMakedirs (dirname save_path)) wr
                            else wr in
                  match env_imwrite_error (env wa) with
                  | Some e => (Raised e, wm)
                  | None =>
                      (Ok (env_imwrite_ok (env wa)),
                       add_event (EvLog INFO ("Photo saved: " ++ save_path))
                         (add_event EvDestroyAllWindows
                            (set_cap_held false
                               (add_event EvCapRelease
                                  (if env_imwrite_ok (env wa)
                                   then set_files (<[save_path := img0]> (files wm)) wm
                                   else wm)))))
                  end
              end).
  { intros img0. unfold bind at 1. unfold when.
    destruct (nonempty (dirname save_path)).
    - unfold makedirs. rewrite Hwr.
      destruct (env_makedirs_error (env wa) (dirname save_path)); [reflexivity|].
      cbv zeta. apply Hwrite. reflexivity.
    - unfold ret at 1. cbv zeta. apply Hwrite. exact Hwr. }
  unfold bind at 1. unfold annotate.
  destruct with_datetime.
  - unfold bind at 1, strftime, ask. unfold bind at 1. rewrite Hwr.
    destruct (env_putText_error (env wa)); [reflexivity|].
    unfold ret at 1. apply Hdir.
  - unfold ret at 1. apply Hdir.
Qed.

Lemma released_app evs1 evs2 : released (evs1 ++ evs2) = released evs1 || released evs2.
Proof. apply existsb_app. Qed.

Lemma setup_not_released evs : Forall is_setup_event evs -> released evs = false.
Proof.
  induction 1 as [|e evs He _ IH]; [reflexivity|].
  change (released (e :: evs)) with (is_release e || released evs).
  rewrite IH. destruct e; try contradiction; reflexivity.
Qed.

(** [cap.release()] is called exactly when a frame was read and written
    without an exception: on the two early returns (device not opened, no
    frame), when the settings block raises, and when [cv2.putText],
    [os.makedirs] or [cv2.imwrite] raises, the call is skipped. *)
Lemma save_photo_releases_iff_frame_read device_id save_path settings with_datetime
    (w : world St) :
  exists evs,
    trace (save_photo device_id save_path settings with_datetime w).2 = trace w ++ evs
    /\ (released evs = true <->
        (apply_settings settings (captured device_id w)).1 = Ok tt
        /\ dev_opens (env_device (env w)) = true
        /\ is_Some (dev_frame (env_device (env w)))
        /\ write_error (env w) save_path with_datetime = None).
Proof.
  rewrite save_photo_unfold. unfold write_error.
  destruct (local_frame_apply_settings settings (captured device_id w))
    as (evs & _ & Hc & He & Ht & Hs).
  destruct (apply_settings settings (captured device_id w)) as [[[]|e|] wa];
    cbn [fst snd] in *.
  - autorewrite with world in *. unfold captured in Hc, He, Ht. autorewrite with world in *.
    rewrite Hc, He.
    destruct (dev_opens (env_device (env w))).
    + destruct (dev_frame (env_device (env w))) as [img|].
      * cbv zeta.
        destruct (if with_datetime then env_putText_error (env w) else None) as [e1|].
        { exists ([EvCapture device_id] ++ evs ++ [EvSleep 2; EvCapRead]). split.
          - cbn [snd]. autorewrite with world. rewrite Ht, <- ?app_assoc. reflexivity.
          - rewrite !released_app, (setup_not_released evs Hs). cbn.
            split; [discriminate | intros (_ & _ & _ & Hx); discriminate Hx]. }
        destruct (nonempty (dirname save_path)).
        -- destruct (env_makedirs_error (env w) (dirname save_path)) as [e2|].
           { exists ([EvCapture device_id] ++ evs ++ [EvSleep 2; EvCapRead]). split.
             - cbn [snd]. autorewrite with world. rewrite Ht, <- ?app_assoc. reflexivity.
             - rewrite !released_app, (setup_not_released evs Hs). cbn.
               split; [discriminate | intros (_ & _ & _ & Hx); discriminate Hx]. }
           destruct (env_imwrite_error (env w)) as [e3|].
           { exists ([EvCapture device_id] ++ evs
                     ++ [EvSleep 2; EvCapRead; EvMakedirs (dirname save_path)]). split.
             - cbn [snd]. autorewrite with world. rewrite Ht, <- ?app_assoc. reflexivity.
             - rewrite !released_app, (setup_not_released evs Hs). cbn.
               split; [discriminate | intros (_ & _ & _ & Hx); discriminate Hx]. }
           exists ([EvCapture device_id] ++ evs
                   ++ [EvSleep 2; EvCapRead; EvMakedirs (dirname save_path);
                       EvCapRelease; EvDestroyAllWindows;
                       EvLog INFO ("Photo saved: " ++ save_path)]). split.
           ++ destruct (env_imwrite_ok (env w)); cbn [snd]; autorewrite with world;
                rewrite Ht, <- ?app_assoc; reflexivity.
           ++ rewrite !released_app, (setup_not_released evs Hs). cbn.
              split; eauto.
        -- destruct (env_imwrite_error (env w)) as [e3|].
           { exists ([EvCapture device_id] ++ evs ++ [EvSleep 2; EvCapRead]). split.
             - cbn [snd]. autorewrite with world. rewrite Ht, <- ?app_assoc. reflexivity.
             - rewrite !released_app, (setup_not_released evs Hs). cbn.
               split; [discriminate | intros (_ & _ & _ & Hx); discriminate Hx]. }
           exists ([EvCapture device_id] ++ evs
                   ++ [EvSleep 2; EvCapRead;
                       EvCapRelease; EvDestroyAllWindows;
                       EvLog INFO ("Photo saved: " ++ save_path)]). split.
           ++ destruct (env_imwrite_ok (env w)); cbn [snd]; autorewrite with world;
                rewrite Ht, <- ?app_assoc; reflexivity.
           ++ rewrite !released_app, (setup_not_released evs Hs). cbn.
              split; eauto.
      * exists ([EvCapture device_id] ++ evs
                ++ [EvSleep 2; EvCapRead;
                    EvLog ERROR "Failed to read video capture."]).
        split.
        -- cbn [snd]. autorewrite with world. rewrite Ht, <- ?app_assoc. reflexivity.
        -- rewrite !released_app, (setup_not_released evs Hs). cbn.
           split; [discriminate | intros (_ & _ & [x Hx] & _); discriminate Hx].
    + exists ([EvCapture device_id] ++ evs
              ++ [EvLog ERROR "Failed to open video capture."]).
      split.
      * cbn [snd]. autorewrite with world. rewrite Ht, <- ?app_assoc. reflexivity.
      * rewrite !released_app, (setup_not_released evs Hs). cbn.
        split; [discriminate | intros (_ & Hx & _); discriminate Hx].
  - exists ([EvCapture device_id] ++ evs). split.
    + rewrite Ht. unfold captured. autorewrite with world.
      rewrite <- ?app_assoc. reflexivity.
    + rewrite !released_app, (setup_not_released evs Hs). cbn.
      split; [discriminate | intros (Hx & _); discriminate Hx].
  - exists ([EvCapture device_id] ++ evs). split.
    + rewrite Ht. unfold captured. autorewrite with world.
      rewrite <- ?app_assoc. reflexivity.
    + rewrite !released_app, (setup_not_released evs Hs). cbn.
      split; [discriminate | intros (Hx & _); discriminate Hx].
Qed.

(** A successful capture leaves the photo on the disk. *)
Lemma save_photo_true_file device_id save_path settings with_datetime
    (w w1 : world St) :
  save_photo device_id save_path settings with_datetime w = (Ok true, w1) ->
  is_Some (files w1 !! save_path).
Proof.
  rewrite save_photo_unfold.
  destruct (apply_settings settings (captured device_id w)) as [[[]|e|] wa];
    try discriminate.
  destruct (cap_held wa); [|discriminate].
  destruct (dev_frame (env_device (env wa))) as [img|]; [|discriminate].
  destruct (if with_datetime then env_putText_error (env wa) else None);
    [discriminate|].
  destruct (if nonempty (dirname save_path)
            then env_makedirs_error (env wa) (dirname save_path) else None);
    [discriminate|].
  cbv zeta. destruct (env_imwrite_error (env wa)); [discriminate|].
  destruct (env_imwrite_ok (env wa)); [|discriminate].
  intros [= <-]. autorewrite with world. rewrite lookup_insert_eq. eauto.
Qed.

End Capture.

Section CaptureRuns.
Import CameraModule MemLibrary Scenarios.

(** C3, at two failing inputs.  A camera that opens but yields no frame:
    [save_photo] returns [False], the handle is still held and no
    [cap.release()] was called.  A camera that does not open: [save_photo]
    returns [False] and again never calls [cap.release()].  On the path
    that reads a frame the call is made and the handle is free. *)
Theorem save_photo_early_returns_skip_release :
  let run e := save_photo DEVICE_ID "photos/a.jpg" None true
                 (boot (holding [] []) e) in
  ((run blind_env).1 = Ok false
   /\ cap_held (run blind_env).2 = true
   /\ released (trace (run blind_env).2) = false)
  /\ ((run absent_env).1 = Ok false
      /\ released (trace (run absent_env).2) = false)
  /\ ((run quiet_env).1 = Ok true
      /\ cap_held (run quiet_env).2 = false
      /\ released (trace (run quiet_env).2) = true).
Proof. vm_compute. repeat split; reflexivity. Qed.

End CaptureRuns.

(** ** [camera_job] *)

Section Jobs.
Import GooglePhotos ClientSpec CameraModule Scheduler.
Context {St Tok : Type} `{!Service St Tok}.
Variable cfg : config.

Lemma local_frame_is_use_flag P args : local_frame P (is_use_flag cfg args : M St bool).
Proof. unfold is_use_flag. frame_with fail. Qed.

Lemma local_frame_get_album_id P fuel :
  (forall lvl msg, P (EvLog lvl msg)) -> (forall s, P (EvSleep s)) ->
  P (EvCall AlbumsList) -> P (EvCall AlbumsCreate) ->
  local_frame P (_get_album_id cfg fuel).
Proof.
  intros Hlog Hsleep Hl Hc. unfold _get_album_id.
  frame_with ltac:(first [ apply local_frame_is_use_flag
                         | apply local_frame_id_of
                         | apply local_frame_get_album; assumption
                         | apply local_frame_create_album; assumption ]).
Qed.

Lemma local_frame_upload_step fuel path :
  local_frame is_client_event (upload_step cfg fuel path).
Proof.
  unfold upload_step.
  frame_with ltac:(first [ apply local_frame_get_album_id; intros; first [exact I | reflexivity]
                         | apply local_frame_upload_image; intros; first [exact I | reflexivity] ]).
Qed.

Lemma local_frame_publish_auth_error c :
  local_frame is_notice_event (publish_auth_error c : M St unit).
Proof. unfold publish_auth_error, sns_key. frame_with fail. Qed.

Lemma local_frame_send_auth_error_notification :
  local_frame is_notice_event (_send_auth_error_notification cfg : M St unit).
Proof.
  unfold _send_auth_error_notification.
  frame_with ltac:(first [ apply local_frame_is_use_flag
                         | apply local_frame_publish_auth_error ]).
Qed.

Lemma is_use_flag_camera (w : world St) :
  is_use_flag cfg ["camera"] w = (Ok (camera_use cfg), w).
Proof. reflexivity. Qed.

Lemma is_use_flag_google_photos (w : world St) :
  is_use_flag cfg ["google_photos"] w = (Ok (google_photos_use cfg), w).
Proof. reflexivity. Qed.

Lemma is_use_flag_aws_sns (w : world St) :
  is_use_flag cfg ["notifications"; "aws_sns"] w
  = match aws_sns cfg with
    | Some c => (Ok (sns_use c), w)
    | None => (Raised (KeyError "notifications"), w)
    end.
Proof. unfold is_use_flag. cbn. destruct (aws_sns cfg); reflexivity. Qed.

(** The job's test knows two of the three markers of the retry wrapper. *)
Lemma job_is_auth_error_weaker msg :
  is_auth_error msg = false -> job_is_auth_error msg = false.
Proof.
  unfold is_auth_error, job_is_auth_error. intros H.
  apply orb_false_iff in H as [H _]. exact H.
Qed.

Lemma os_remove_present path (w : world St) :
  is_Some (files w !! path) ->
  os_remove path w
  = (Ok tt, add_event (EvRemove path) (set_files (delete path (files w)) w)).
Proof. intros [img Hf]. unfold os_remove. rewrite Hf. reflexivity. Qed.

(** [camera_job] once the capture has succeeded, with upload enabled. *)
Lemma camera_job_after_capture fuel (w w1 : world St) :
  camera_use cfg = true -> google_photos_use cfg = true ->
  save_photo DEVICE_ID (photo_path cfg (env_clock (env w) "%Y%m%d_%H%M"))
    (settings cfg) true w = (Ok true, w1) ->
  camera_job cfg fuel w
  = (let photo_image_path := photo_path cfg (env_clock (env w) "%Y%m%d_%H%M") in
     try_except
       (upload_step cfg fuel photo_image_path ;; os_remove photo_image_path)
       (fun _ error_str =>
          if job_is_auth_error error_str then
            _send_auth_error_notification cfg ;; sys_exit 1
          else os_remove photo_image_path) ;;
     log INFO ("Succeeded removed a photo. remove_path: " ++ photo_image_path)) w1.
Proof.
  intros Hc Hg Hs. unfold camera_job.
  erewrite bind_ok by apply is_use_flag_camera. rewrite Hc. cbn [negb].
  erewrite bind_ok by reflexivity.
  erewrite bind_ok by exact Hs. cbn [negb].
  erewrite bind_ok by apply is_use_flag_google_photos. rewrite Hg. reflexivity.
Qed.

(** The removal branch of [camera_job]: taken when the upload step
    returns, and when it raises an [Exception] that the job's own test does
    not take for an authentication failure. *)
Lemma camera_job_removes fuel (w w1 w2 : world St) (r : result bool) :
  camera_use cfg = true -> google_photos_use cfg = true ->
  save_photo DEVICE_ID (photo_path cfg (env_clock (env w) "%Y%m%d_%H%M"))
    (settings cfg) true w = (Ok true, w1) ->
  upload_step cfg fuel (photo_path cfg (env_clock (env w) "%Y%m%d_%H%M")) w1 = (r, w2) ->
  match r with
  | Ok _ => True
  | Raised (PyExc _ msg) => job_is_auth_error msg = false
  | _ => False
  end ->
  let path := photo_path cfg (env_clock (env w) "%Y%m%d_%H%M") in
  camera_job cfg fuel w
  = (Ok tt,
     add_event (EvLog INFO ("Succeeded removed a photo. remove_path: " ++ path))
       (add_event (EvRemove path) (set_files (delete path (files w1)) w2))).
Proof.
  intros Hc Hg Hs Hu Hr path.
  pose proof (save_photo_true_file _ _ _ _ _ _ Hs) as Hfile. fold path in Hfile, Hs, Hu.
  destruct (local_frame_upload_step fuel path w1) as (evs & Hf & _).
  rewrite Hu in Hf. cbn [snd] in Hf.
  assert (Hrm : os_remove path w2
                = (Ok tt, add_event (EvRemove path)
                            (set_files (delete path (files w1)) w2))).
  { rewrite <- Hf. apply os_remove_present. rewrite Hf. exact Hfile. }
  rewrite (camera_job_after_capture fuel w w1 Hc Hg Hs). fold path. cbv zeta.
  unfold bind at 1. unfold try_except. unfold bind at 1. rewrite Hu.
  destruct r as [b|[cls msg|code|]|]; try contradiction.
  - rewrite Hrm. reflexivity.
  - rewrite Hr, Hrm. reflexivity.
Qed.

(** A message that carries "revoked" alone is an authentication error for
    the retry wrapper and not for the job, which then removes the photo. *)
Lemma camera_job_removes_on_revoked fuel (w w1 w2 : world St) cls msg :
  camera_use cfg = true -> google_photos_use cfg = true ->
  save_photo DEVICE_ID (photo_path cfg (env_clock (env w) "%Y%m%d_%H%M"))
    (settings cfg) true w = (Ok true, w1) ->
  upload_step cfg fuel (photo_path cfg (env_clock (env w) "%Y%m%d_%H%M")) w1
  = (Raised (PyExc cls msg), w2) ->
  str_in "revoked" msg = true ->
  str_in "invalid_grant" msg = false -> str_in "expired" msg = false ->
  is_auth_error msg = true
  /\ (camera_job cfg fuel w).1 = Ok tt
  /\ files (camera_job cfg fuel w).2
       !! photo_path cfg (env_clock (env w) "%Y%m%d_%H%M") = None.
Proof.
  intros Hc Hg Hs Hu Hr Hi He.
  assert (Hjob : job_is_auth_error msg = false)
    by (unfold job_is_auth_error; rewrite Hi, He; reflexivity).
  rewrite (camera_job_removes fuel w w1 w2 _ Hc Hg Hs Hu Hjob).
  repeat split.
  - unfold is_auth_error. rewrite Hr. apply orb_true_r.
  - cbn [snd]. autorewrite with world. apply lookup_delete_eq.
Qed.

(** C8.  In a job run where the capture succeeds and upload is enabled, if
    the upload step (album resolution, then upload) returns -- whether it
    reports success or failure -- or raises an exception whose message
    carries none of the three markers, then the job ends normally and the
    photo, which was on the disk after the capture, has been removed and is
    absent. *)
Theorem photo_deleted_unless_auth_failure fuel (w w1 w2 : world St) (r : result bool) :
  camera_use cfg = true -> google_photos_use cfg = true ->
  save_photo DEVICE_ID (photo_path cfg (env_clock (env w) "%Y%m%d_%H%M"))
    (settings cfg) true w = (Ok true, w1) ->
  upload_step cfg fuel (photo_path cfg (env_clock (env w) "%Y%m%d_%H%M")) w1 = (r, w2) ->
  match r with
  | Ok _ => True
  | Raised (PyExc _ msg) => is_auth_error msg = false
  | _ => False
  end ->
  let path := photo_path cfg (env_clock (env w) "%Y%m%d_%H%M") in
  is_Some (files w1 !! path)
  /\ exists w',
      camera_job cfg fuel w = (Ok tt, w')
      /\ files w' = delete path (files w1)
      /\ files w' !! path = None
      /\ In (EvRemove path) (trace w').
Proof.
  intros Hc Hg Hs Hu Hr path.
  split; [exact (save_photo_true_file _ _ _ _ _ _ Hs)|].
  eexists. split; [|split; [|split]].
  - apply (camera_job_removes fuel w w1 w2 r Hc Hg Hs Hu).
    destruct r as [b|[cls msg|code|]|]; auto using job_is_auth_error_weaker.
  - autorewrite with world. reflexivity.
  - autorewrite with world. apply lookup_delete_eq.
  - autorewrite with world. fold path.
    apply in_or_app. left. apply in_or_app. right. left. reflexivity.
Qed.

(** The [try] block returns, raises an [Exception], or exits with 1. *)
Lemma publish_auth_error_outcome c (w : world St) :
  match (publish_auth_error c w).1 with
  | Ok _ | Raised (PyExc _ _) => True
  | Raised (SystemExit code) => code = 1
  | _ => False
  end.
Proof.
  unfold publish_auth_error, sns_key, strftime, ask, bind, log, emit, raise, ret,
    sys_exit.
  destruct (env_boto3 (env w)) as [sns|]; [|reflexivity].
  destruct (sns_region c); [|exact I].
  destruct (sns_client_error sns) as [[cls msg]|]; [exact I|].
  destruct (sns_message_body c); [|exact I].
  destruct (sns_topic_arn c); [|exact I].
  destruct (sns_subject c); [|exact I].
  destruct (sns_publish_result sns) as [[cls msg]|[message_id|]]; exact I.
Qed.

(** The escalation always ends in [sys.exit(1)] when the configuration has
    an [aws_sns] section, whether or not the alert goes out. *)
Lemma send_auth_error_notification_exits c (w : world St) :
  aws_sns cfg = Some c ->
  (_send_auth_error_notification cfg w).1 = Raised (SystemExit 1).
Proof.
  intros Hc. unfold _send_auth_error_notification.
  erewrite bind_ok by (rewrite is_use_flag_aws_sns, Hc; reflexivity).
  rewrite Hc. destruct (sns_use c); cbn [negb]; [|reflexivity].
  unfold bind at 1. unfold try_except.
  pose proof (publish_auth_error_outcome c w) as Hout.
  destruct (publish_auth_error c w) as [[[]|[cls msg|code|]|] w1]; cbn [fst] in Hout;
    try contradiction; try reflexivity.
  subst code. reflexivity.
Qed.

(** With the channel switched on, a working client and the four keys of
    the section in place, [sns.publish] is called on the configured
    topic. *)
Lemma send_auth_error_notification_publishes c sns (w : world St)
    region topic_arn subject message_body :
  aws_sns cfg = Some c -> sns_use c = true ->
  env_boto3 (env w) = Some sns -> sns_client_error sns = None ->
  sns_region c = Some region -> sns_topic_arn c = Some topic_arn ->
  sns_subject c = Some subject -> sns_message_body c = Some message_body ->
  exists message evs,
    trace (_send_auth_error_notification cfg w).2
    = trace w ++ EvPublish topic_arn subject message :: evs.
Proof.
  intros Hc Hu Hb He Hr Ht Hs Hm. unfold _send_auth_error_notification.
  erewrite bind_ok by (rewrite is_use_flag_aws_sns, Hc; reflexivity).
  rewrite Hc, Hu. cbn [negb].
  unfold bind at 1. unfold try_except. unfold publish_auth_error.
  unfold bind at 1. unfold ask at 1. rewrite Hb, Hr, Ht, Hs, Hm. unfold sns_key.
  unfold bind at 1. unfold ret at 1. rewrite He.
  destruct (sns_publish_result sns) as [[cls msg]|[message_id|]];
    eexists _, _; cbn; rewrite <- ?app_assoc; reflexivity.
Qed.

(** The escalation branch of [camera_job]: when the upload step raises an
    [Exception] whose message contains "invalid_grant" or "expired", the
    job leaves the photo where it is and ends in [sys.exit(1)], which the
    main loop lets through. *)
Lemma camera_job_escalates fuel c (w w1 w2 : world St) cls msg :
  camera_use cfg = true -> google_photos_use cfg = true ->
  aws_sns cfg = Some c ->
  save_photo DEVICE_ID (photo_path cfg (env_clock (env w) "%Y%m%d_%H%M"))
    (settings cfg) true w = (Ok true, w1) ->
  upload_step cfg fuel (photo_path cfg (env_clock (env w) "%Y%m%d_%H%M")) w1
  = (Raised (PyExc cls msg), w2) ->
  job_is_auth_error msg = true ->
  let path := photo_path cfg (env_clock (env w) "%Y%m%d_%H%M") in
  (camera_job cfg fuel w).1 = Raised (SystemExit 1)
  /\ (main_iteration (camera_job cfg fuel) w).1 = Raised (SystemExit 1)
  /\ files (camera_job cfg fuel w).2 = files w1
  /\ is_Some (files (camera_job cfg fuel w).2 !! path)
  /\ camera_job cfg fuel w = _send_auth_error_notification cfg w2.
Proof.
  intros Hc Hg Hn Hs Hu Hm path.
  assert (Hjob : camera_job cfg fuel w = _send_auth_error_notification cfg w2).
  { rewrite (camera_job_after_capture fuel w w1 Hc Hg Hs). fold path. cbv zeta.
    unfold bind at 1. unfold try_except. unfold bind at 1.
    fold path in Hu. rewrite Hu, Hm.
    pose proof (send_auth_error_notification_exits c w2 Hn) as Hx.
    unfold bind at 1.
    destruct (_send_auth_error_notification cfg w2) as [r w3]. cbn [fst] in Hx.
    rewrite Hx. reflexivity. }
  pose proof (send_auth_error_notification_exits c w2 Hn) as Hx.
  destruct (local_frame_send_auth_error_notification w2) as (evs & Hf & _).
  destruct (local_frame_upload_step fuel path w1) as (evs' & Hf' & _).
  fold path in Hu. rewrite Hu in Hf'. cbn [snd] in Hf'.
  repeat split.
  - rewrite Hjob. exact Hx.
  - unfold main_iteration, bind. rewrite Hjob.
    destruct (_send_auth_error_notification cfg w2) as [r w3]. cbn [fst] in Hx.
    rewrite Hx. reflexivity.
  - rewrite Hjob, Hf, Hf'. reflexivity.
  - rewrite Hjob, Hf, Hf'. exact (save_photo_true_file _ _ _ _ _ _ Hs).
  - exact Hjob.
Qed.

End Jobs.

Section JobRuns.
Import GooglePhotos ClientSpec CameraModule Scheduler MemLibrary Scenarios.

Lemma photo_deleted_unless_auth_failure_witness :
  let w := boot (flaky 3 [garden] []) quiet_env in
  let w1 := (save_photo DEVICE_ID photo None true w).2 in
  is_Some (files w1 !! photo)
  /\ exists w',
      camera_job cfg_silent 8 w = (Ok tt, w')
      /\ files w' = delete photo (files w1)
      /\ files w' !! photo = None
      /\ In (EvRemove photo) (trace w').
Proof.
  cbv zeta.
  apply (photo_deleted_unless_auth_failure cfg_silent 8
           (boot (flaky 3 [garden] []) quiet_env)
           (save_photo DEVICE_ID photo None true
              (boot (flaky 3 [garden] []) quiet_env)).2
           (upload_step cfg_silent 8 photo
              (save_photo DEVICE_ID photo None true
                 (boot (flaky 3 [garden] []) quiet_env)).2).2
           (Raised NoneType_not_iterable));
    [ reflexivity | reflexivity | vm_compute; reflexivity | vm_compute; reflexivity
    | vm_compute; reflexivity ].
Defined.

(** C1, at failing inputs.  The first request of the upload step fails
    with "Token has been revoked.": the retry wrapper takes it for an
    authentication error and raises it again at once, but [camera_job]
    tests only for "invalid_grant" and "expired", so it deletes the photo,
    publishes nothing and returns normally; the process goes on.  With the
    message of a refused refresh (which carries "invalid_grant") the same
    run keeps the photo, publishes the alert and ends in [sys.exit(1)], and
    with the channel switched off it exits the same way.  With a
    configuration that has no [notifications] section the escalation
    itself raises [KeyError], which the main loop logs and swallows: no
    exit. *)
Theorem camera_job_revoked_grant_not_escalated :
  let on fault cfg :=
    camera_job cfg 8 (boot (with_faults [Some fault] (holding [garden] [])) alert_env) in
  (is_auth_error "Token has been revoked." = true
   /\ job_is_auth_error "Token has been revoked." = false
   /\ (on revoked cfg_alerts).1 = Ok tt
   /\ files (on revoked cfg_alerts).2 !! photo = None
   /\ existsb is_remove (trace (on revoked cfg_alerts).2) = true
   /\ existsb is_publish (trace (on revoked cfg_alerts).2) = false
   /\ (main_iteration (camera_job cfg_alerts 8)
         (boot (with_faults [Some revoked] (holding [garden] [])) alert_env)).1 = Ok tt)
  /\ ((on invalid_grant cfg_alerts).1 = Raised (SystemExit 1)
      /\ is_Some (files (on invalid_grant cfg_alerts).2 !! photo)
      /\ existsb is_publish (trace (on invalid_grant cfg_alerts).2) = true
      /\ (on invalid_grant cfg_silent).1 = Raised (SystemExit 1)
      /\ is_Some (files (on invalid_grant cfg_silent).2 !! photo))
  /\ ((on invalid_grant cfg_bare).1 = Raised (PyExc "KeyError" "'notifications'")
      /\ (main_iteration (camera_job cfg_bare 8)
            (boot (with_faults [Some invalid_grant] (holding [garden] [])) alert_env)).1
         = Ok tt).
Proof. vm_compute. repeat split; eauto. Qed.

End JobRuns.

(** ** [_get_album_id] *)

Lemma calls_of_none ops op evs :
  ops op = false -> Forall (is_event_of ops) evs -> calls_of op evs = 0%nat.
Proof.
  intros Hop. induction 1 as [|e evs He _ IH]; [reflexivity|].
  unfold calls_of in *. cbn [List.filter].
  destruct e as [| |op'| | | | | | | |]; cbn in He; try contradiction;
    try exact IH.
  destruct op', op; cbn; try exact IH; congruence.
Qed.

(** The search of [get_album]. *)
Section FirstTitled.
Import GooglePhotos AlbumSpec.

Lemma has_title_true t a : has_title t a = true <-> album_title a = Some t.
Proof.
  unfold has_title. destruct (album_title a) as [t'|].
  - rewrite String.eqb_eq. split; congruence.
  - split; discriminate.
Qed.

Lemma first_titled_found title before a after :
  Forall (fun b => exists t, album_title b = Some t /\ t <> title) before ->
  album_title a = Some title ->
  first_titled title (before ++ a :: after) = inr (Some a).
Proof.
  intros Hb Ha. induction Hb as [|b before (t & Hb & Ht) _ IH]; cbn.
  - rewrite Ha, String.eqb_refl. reflexivity.
  - rewrite Hb. destruct (String.eqb_spec title t); [congruence | exact IH].
Qed.

Lemma first_titled_absent title l :
  Forall (fun b => exists t, album_title b = Some t /\ t <> title) l ->
  first_titled title l = inr None.
Proof.
  induction 1 as [|b l (t & Hb & Ht) _ IH]; cbn; [reflexivity|].
  rewrite Hb. destruct (String.eqb_spec title t); [congruence | exact IH].
Qed.

(** What each outcome of the search says of the list. *)
Lemma first_titled_inv title l :
  match first_titled title l with
  | inr None => titled title l = [] /\ all_titled l
  | inr (Some a) =>
      exists before after,
        l = before ++ a :: after /\ album_title a = Some title
        /\ titled title before = [] /\ all_titled before
  | inl e =>
      e = KeyError "title"
      /\ exists before a after,
          l = before ++ a :: after /\ album_title a = None
          /\ titled title before = []
  end.
Proof.
  induction l as [|b l IH]; cbn [first_titled].
  - split; [reflexivity | constructor].
  - destruct (album_title b) as [t|] eqn:Hb.
    + destruct (String.eqb_spec title t) as [<-|Hne].
      * exists [], l. repeat split; auto. constructor.
      * assert (Hskip : has_title title b = false).
        { unfold has_title. rewrite Hb. apply String.eqb_neq. exact Hne. }
        destruct (first_titled title l) as [e|[a|]].
        -- destruct IH as (-> & before & a & after & -> & Ha & Hbefore).
           split; [reflexivity|]. exists (b :: before), a, after.
           repeat split; auto. unfold titled in *. cbn. rewrite Hskip. exact Hbefore.
        -- destruct IH as (before & after & -> & Ha & Hbefore & Hall).
           exists (b :: before), after. repeat split; auto.
           ++ unfold titled in *. cbn. rewrite Hskip. exact Hbefore.
           ++ constructor; [congruence | exact Hall].
        -- destruct IH as (Hnone & Hall). split.
           ++ unfold titled in *. cbn. rewrite Hskip. exact Hnone.
           ++ constructor; [congruence | exact Hall].
    + split; [reflexivity|]. exists [], b, l. repeat split; auto.
Qed.

(** In a list whose albums all have a title, the search returns the first
    album that carries the title. *)
Lemma first_titled_head title l a rest :
  all_titled l -> titled title l = a :: rest ->
  first_titled title l = inr (Some a).
Proof.
  induction 1 as [|b l Hb _ IH]; [discriminate|].
  unfold titled. cbn [List.filter first_titled].
  destruct (album_title b) as [t|] eqn:Ht; [|congruence].
  unfold has_title at 1. rewrite Ht.
  destruct (String.eqb title t); [intros [= -> _]; reflexivity | exact IH].
Qed.

Lemma titled_nil_forall title l :
  titled title l = [] -> all_titled l ->
  Forall (fun b => exists t, album_title b = Some t /\ t <> title) l.
Proof.
  intros Hn Hall. induction Hall as [|b l Hb _ IH]; [constructor|].
  unfold titled in Hn. cbn in Hn.
  destruct (has_title title b) eqn:Hh; [discriminate|].
  constructor; [|exact (IH Hn)].
  unfold has_title in Hh. destruct (album_title b) as [t|]; [|congruence].
  exists t. split; [reflexivity|]. apply String.eqb_neq in Hh. congruence.
Qed.

Lemma titled_Permutation title l l' : l ≡ₚ l' -> titled title l ≡ₚ titled title l'.
Proof.
  unfold titled. induction 1 as [|x l l' _ IH|x y l|l1 l2 l3 _ IH1 _ IH2]; cbn.
  - reflexivity.
  - destruct (has_title title x); [constructor|]; exact IH.
  - destruct (has_title title x), (has_title title y);
      first [apply perm_swap | reflexivity].
  - etransitivity; eassumption.
Qed.

Lemma all_titled_Permutation l l' : l ≡ₚ l' -> all_titled l -> all_titled l'.
Proof. unfold all_titled. intros Hp. rewrite Hp. auto. Qed.

End FirstTitled.

Section Resolution.
Import GooglePhotos ClientSpec CameraModule Scheduler AlbumSpec.
Context {St Tok : Type} `{!Service St Tok}.
Variable cfg : config.

(** [_get_album_id], given what the listing returned. *)
Lemma get_album_id_unfold fuel (w w1 : world St) l :
  google_photos_use cfg = true ->
  get_album_list fuel w = (Ok l, w1) ->
  _get_album_id cfg fuel w
  = match first_titled (album_title_cfg cfg) l with
    | inl e => (Raised e, w1)
    | inr (Some a) => (let* id := id_of a in ret (Some id)) w1
    | inr None =>
        (let* id := create_album (album_title_cfg cfg) in ret (Some id)) w1
    end.
Proof.
  intros Hg Hl. unfold _get_album_id.
  erewrite bind_ok by apply is_use_flag_google_photos. rewrite Hg. cbn [negb].
  unfold get_album. rewrite bind_assoc. erewrite bind_ok by exact Hl.
  destruct (first_titled _ l) as [e|[a|]]; reflexivity.
Qed.

Lemma listing_makes_no_create fuel (w w1 : world St) r :
  get_album_list fuel w = (r, w1) ->
  calls_of AlbumsCreate (trace w1) = calls_of AlbumsCreate (trace w).
Proof.
  intros Hl.
  destruct (local_frame_get_album_list_loop is_listing_event
              ltac:(intros; exact I) ltac:(intros; exact I) fuel [] None
              ltac:(reflexivity) w) as (evs & _ & _ & _ & Ht & Hevs).
  fold (get_album_list fuel) in Ht. rewrite Hl in Ht. cbn [snd] in Ht.
  rewrite Ht, calls_of_app.
  rewrite (calls_of_none _ AlbumsCreate evs eq_refl Hevs). lia.
Qed.

Lemma id_of_world a (w : world St) : (id_of a w).2 = w.
Proof. unfold id_of. destruct (album_id a); reflexivity. Qed.

End Resolution.

(** ** What the client does to the albums of the service *)

Section Keeps.
Import GooglePhotos AlbumSpec.
Context {St Tok : Type} `{!Service St Tok}.
Variable library : St -> list album.

Lemma keeps_ret {A} (a : A) : keeps library (ret a : M St A).
Proof. intros w. reflexivity. Qed.

Lemma keeps_raise {A} e : keeps library (raise e : M St A).
Proof. intros w. reflexivity. Qed.

Lemma keeps_out_of_fuel {A} : keeps library (out_of_fuel : M St A).
Proof. intros w. reflexivity. Qed.

Lemma keeps_emit e : keeps library (emit e : M St unit).
Proof. intros w. reflexivity. Qed.

Lemma keeps_bind {A B} (m : M St A) (k : A -> M St B) :
  keeps library m -> (forall a, keeps library (k a)) -> keeps library (bind m k).
Proof.
  intros Hm Hk w. specialize (Hm w). unfold bind.
  destruct (m w) as [[a|e|] w1]; cbn [snd] in *; auto.
  rewrite (Hk a w1). exact Hm.
Qed.

Lemma keeps_try_except {A} (body : M St A) handler :
  keeps library body -> (forall cls msg, keeps library (handler cls msg)) ->
  keeps library (try_except body handler).
Proof.
  intros Hm Hk w. specialize (Hm w). unfold try_except.
  destruct (body w) as [[a|[cls msg|code|]|] w1]; cbn [snd] in *; auto.
  rewrite (Hk cls msg w1). exact Hm.
Qed.

Lemma keeps_when b (m : M St unit) : keeps library m -> keeps library (when b m).
Proof. destruct b; [auto | intros _; apply keeps_ret]. Qed.

Lemma keeps_remote_call {A} op (cb : St -> result A * St) :
  (forall s, library (cb s).2 = library s) -> keeps library (remote_call op cb).
Proof.
  intros Hcb w. unfold remote_call. specialize (Hcb (remote w)).
  destruct (cb (remote w)) as [r s']. cbn [snd] in *. autorewrite with world. exact Hcb.
Qed.

Lemma keeps_get_service : reads_only library -> keeps library (_get_service : M St string).
Proof.
  intros [Hs _] w. unfold _get_service. specialize (Hs (remote w)).
  destruct (svc_get_service (remote w)) as [r s']. cbn [snd] in *.
  autorewrite with world. exact Hs.
Qed.

Lemma keeps_execute_api_for {A} indices op name (cb : St -> result A * St) :
  (forall s, library (cb s).2 = library s) ->
  keeps library (execute_api_for indices op name cb).
Proof.
  intros Hcb. induction indices as [|i rest IH]; cbn [execute_api_for].
  - apply keeps_bind; [apply keeps_emit | intros; apply keeps_ret].
  - apply keeps_try_except.
    + apply keeps_bind; [apply keeps_remote_call, Hcb | intros; apply keeps_ret].
    + intros cls msg. destruct (is_auth_error msg).
      * apply keeps_bind; [apply keeps_emit | intros; apply keeps_raise].
      * apply keeps_bind; [apply keeps_emit | intros _].
        apply keeps_bind; [apply keeps_when, keeps_emit | intros _; exact IH].
Qed.

Lemma keeps_get_album_list_loop fuel acc tok :
  reads_only library -> keeps library (get_album_list_loop fuel acc tok).
Proof.
  intros Hr. revert acc tok. induction fuel as [|fuel IH]; intros acc tok;
    cbn [get_album_list_loop]; [apply keeps_out_of_fuel|].
  apply keeps_bind; [apply keeps_get_service, Hr | intros _].
  apply keeps_bind.
  - apply keeps_execute_api_for. intros s. apply (proj2 Hr).
  - intros [r|]; [|apply keeps_raise].
    destruct (lr_albums r); [|apply keeps_ret].
    destruct (lr_nextPageToken r); [apply IH | apply keeps_ret].
Qed.

(** The creation request under the wrapper: an answer means one album
    more, of the requested title and with the id of the answer; anything
    else means no album more. *)
Lemma execute_api_for_creates indices name title :
  creates_atomically library ->
  forall w,
    match execute_api_for indices AlbumsCreate name (svc_albums_create title) w with
    | (Ok (Some r), w') =>
        exists a, library (remote w') ≡ₚ a :: library (remote w)
                  /\ album_title a = Some title /\ album_id a = cr_id r
    | (_, w') => library (remote w') = library (remote w)
    end.
Proof.
  intros Hc. induction indices as [|i rest IH]; intros w.
  - rewrite execute_api_for_nil. autorewrite with world. reflexivity.
  - pose proof (Hc title (remote w)) as Hs.
    destruct (svc_albums_create title (remote w)) as [r s'] eqn:Hcb.
    destruct r as [a|[cls msg|code|]|].
    + erewrite execute_api_for_ok by exact Hcb. autorewrite with world. exact Hs.
    + destruct (is_auth_error msg) eqn:Hm.
      * erewrite execute_api_for_auth by eassumption. autorewrite with world. exact Hs.
      * erewrite execute_api_for_retry by eassumption.
        match goal with |- context [execute_api_for rest _ _ _ ?w1] =>
          specialize (IH w1);
          assert (Hw1 : library (remote w1) = library (remote w))
            by (cbv zeta; destruct (i <? MAX_API_RETRY - 1)%nat;
                autorewrite with world; exact Hs)
        end.
        rewrite Hw1 in IH. exact IH.
    + destruct (execute_api_for_uncaught AlbumsCreate name (svc_albums_create title)
                  i rest w _ _ Hcb I) as (r' & -> & Hr').
      destruct r' as [|[]|]; try contradiction; autorewrite with world; exact Hs.
    + destruct (execute_api_for_uncaught AlbumsCreate name (svc_albums_create title)
                  i rest w _ _ Hcb I) as (r' & -> & Hr').
      destruct r' as [|[]|]; try contradiction; autorewrite with world; exact Hs.
    + destruct (execute_api_for_uncaught AlbumsCreate name (svc_albums_create title)
                  i rest w _ _ Hcb I) as (r' & -> & Hr').
      destruct r' as [|[]|]; try contradiction; autorewrite with world; exact Hs.
Qed.

(** [create_album] adds at most one album, of the requested title; when
    it returns an id, it has added the album of that id. *)
Lemma create_album_effect title (w w' : world St) r :
  reads_only library -> creates_atomically library ->
  create_album title w = (r, w') ->
  (library (remote w') = library (remote w) /\ forall id, r <> Ok id)
  \/ (exists a, library (remote w') ≡ₚ a :: library (remote w)
                /\ album_title a = Some title
                /\ forall id, r = Ok id -> album_id a = Some id).
Proof.
  intros Hr Hc. unfold create_album. unfold bind at 1.
  pose proof (keeps_get_service Hr w) as Hs.
  destruct (_get_service w) as [[token|e|] wa]; cbn [snd] in Hs;
    [| intros [= <- <-]; left; split; [exact Hs | discriminate] ..].
  unfold bind at 1.
  pose proof (execute_api_for_creates (seq 0 MAX_API_RETRY) "execute" title Hc wa) as Hx.
  fold (_execute_api AlbumsCreate "execute" (svc_albums_create title)) in Hx.
  destruct (_execute_api AlbumsCreate "execute" (svc_albums_create title) wa)
    as [[[r0|]|e|] wb]; rewrite Hs in Hx;
    [| intros [= <- <-]; left; split; [exact Hx | discriminate] ..].
  destruct Hx as (a & Hp & Ht & Hid).
  unfold bind, log, emit, raise, ret.
  destruct (cr_id r0) as [id|]; [destruct (cr_title r0) as [t|]|];
    intros [= <- <-]; right; exists a; autorewrite with world;
    (split; [exact Hp | split; [exact Ht|]]); intros id'; try discriminate.
  intros [= <-]. exact Hid.
Qed.

End Keeps.

Section ResolutionClaim.
Import GooglePhotos ClientSpec CameraModule Scheduler AlbumSpec.
Context {St Tok : Type} `{!Service St Tok}.
Variable cfg : config.

(** A resolution that calls the creation endpoint found no album of the
    title in its listing. *)
Lemma creation_call_means_absent fuel (w w1 : world St) l :
  google_photos_use cfg = true ->
  get_album_list fuel w = (Ok l, w1) ->
  calls_of AlbumsCreate (trace (_get_album_id cfg fuel w).2)
  <> calls_of AlbumsCreate (trace w) ->
  titled (album_title_cfg cfg) l = [] /\ all_titled l.
Proof.
  intros Hg Hl. rewrite (get_album_id_unfold cfg fuel w w1 l Hg Hl).
  pose proof (listing_makes_no_create fuel w w1 _ Hl) as Hlist.
  pose proof (first_titled_inv (album_title_cfg cfg) l) as Hinv.
  destruct (first_titled (album_title_cfg cfg) l) as [e|[a|]].
  - cbn [snd]. congruence.
  - unfold bind. pose proof (id_of_world a w1) as Hid.
    destruct (id_of a w1) as [r w']. cbn [snd] in Hid. subst w'.
    destruct r; cbn [snd]; intros Hne; exfalso; apply Hne; exact Hlist.
  - intros _. exact Hinv.
Qed.

(** C7.  Album resolution lists the albums.  (1) When the listing has an
    album of exactly the requested title, every album before it has
    another title and the album has an id, the resolution returns that id
    and calls the creation endpoint not at all.  (2) When every listed
    album has another title, the resolution is the creation of an album of
    that title; and a resolution that calls the creation endpoint had no
    album of the title in its listing.  (3) For a service whose albums
    change only through answered creation requests (authorising and
    listing leave them as they are, an answered creation request adds the
    one album it answers with, a failed one adds nothing): from a state
    whose albums all have a title, none of them the requested one, and
    which the listing shows, one resolution adds at most one album,
    whatever it returns; and when it returns an id it has added exactly
    the album of that id and title, and a second resolution that observes
    this result returns the same id, calls the creation endpoint not at
    all and leaves the albums as they are: exactly one album is created
    over the two calls. *)
Theorem album_resolution fuel (w w1 : world St) (l : list album) :
  google_photos_use cfg = true ->
  get_album_list fuel w = (Ok l, w1) ->
  let title := album_title_cfg cfg in
  (forall a before after id,
      l = before ++ a :: after ->
      Forall (fun b => exists t, album_title b = Some t /\ t <> title) before ->
      album_title a = Some title -> album_id a = Some id ->
      _get_album_id cfg fuel w = (Ok (Some id), w1)
      /\ calls_of AlbumsCreate (trace w1) = calls_of AlbumsCreate (trace w))
  /\ (Forall (fun b => exists t, album_title b = Some t /\ t <> title) l ->
      _get_album_id cfg fuel w = (let* id := create_album title in ret (Some id)) w1)
  /\ (calls_of AlbumsCreate (trace (_get_album_id cfg fuel w).2)
      <> calls_of AlbumsCreate (trace w) ->
      titled title l = [])
  /\ (forall library : St -> list album,
        reads_only library -> creates_atomically library ->
        l = library (remote w) -> all_titled l -> titled title l = [] ->
        let first := _get_album_id cfg fuel w in
        (library (remote first.2) = library (remote w)
         \/ exists a, library (remote first.2) ≡ₚ a :: library (remote w)
                      /\ album_title a = Some title)
        /\ forall id,
            first.1 = Ok (Some id) ->
            (exists a, library (remote first.2) ≡ₚ a :: library (remote w)
                       /\ album_title a = Some title /\ album_id a = Some id)
            /\ (observes library fuel first.2 ->
                let second := _get_album_id cfg fuel first.2 in
                second.1 = Ok (Some id)
                /\ calls_of AlbumsCreate (trace second.2)
                   = calls_of AlbumsCreate (trace first.2)
                /\ library (remote second.2) = library (remote first.2))).
Proof.
  intros Hg Hl title. split; [|split; [|split]].
  - intros a before after id -> Hbefore Ha Hid. split.
    + rewrite (get_album_id_unfold cfg fuel w w1 _ Hg Hl). fold title.
      rewrite (first_titled_found title before a after Hbefore Ha).
      unfold bind, id_of. rewrite Hid. reflexivity.
    + exact (listing_makes_no_create fuel w w1 _ Hl).
  - intros Hnone. rewrite (get_album_id_unfold cfg fuel w w1 _ Hg Hl). fold title.
    rewrite (first_titled_absent title l Hnone). reflexivity.
  - intros Hcall. exact (proj1 (creation_call_means_absent fuel w w1 l Hg Hl Hcall)).
  - intros library Hr Hc Hobs Hall Hnone first.
    assert (Hw1 : library (remote w1) = library (remote w)).
    { pose proof (keeps_get_album_list_loop library fuel [] None Hr w) as Hk.
      fold (get_album_list fuel) in Hk. rewrite Hl in Hk. exact Hk. }
    assert (Hfirst : first = (let* id := create_album title in ret (Some id)) w1).
    { unfold first. rewrite (get_album_id_unfold cfg fuel w w1 _ Hg Hl). fold title.
      rewrite (first_titled_absent title l (titled_nil_forall title l Hnone Hall)).
      reflexivity. }
    destruct (create_album title w1) as [r w2] eqn:Hcreate.
    pose proof (create_album_effect library title w1 w2 r Hr Hc Hcreate) as Heff.
    rewrite Hw1 in Heff.
    assert (Hf2 : first.2 = w2).
    { rewrite Hfirst. unfold bind. rewrite Hcreate. destruct r; reflexivity. }
    assert (Hf1 : forall id, first.1 = Ok (Some id) -> r = Ok id).
    { intros id. rewrite Hfirst. unfold bind. rewrite Hcreate.
      destruct r; cbn; congruence. }
    rewrite Hf2. split.
    + destruct Heff as [[Hsame _] | (a & Hp & Ha & _)]; [left; exact Hsame|].
      right. exists a. split; assumption.
    + intros id Hid. apply Hf1 in Hid. subst r.
      destruct Heff as [[_ Hno] | (a & Hp & Ha & Haid)]; [contradiction (Hno id eq_refl)|].
      specialize (Haid id eq_refl). split; [exists a; repeat split; assumption|].
      intros Hobs2 second. unfold observes in Hobs2.
      destruct (get_album_list fuel w2) as [r2 w3] eqn:Hl2. cbn [fst] in Hobs2. subst r2.
      assert (Hw3 : library (remote w3) = library (remote w2)).
      { pose proof (keeps_get_album_list_loop library fuel [] None Hr w2) as Hk.
        fold (get_album_list fuel) in Hk. rewrite Hl2 in Hk. exact Hk. }
      assert (Hsecond : second = (Ok (Some id), w3)).
      { unfold second. rewrite (get_album_id_unfold cfg fuel w2 w3 _ Hg Hl2). fold title.
        assert (Hhead : titled title (library (remote w2)) = [a]).
        { pose proof (titled_Permutation title _ _ Hp) as Ht.
          unfold titled in Ht at 2. cbn [List.filter] in Ht.
          rewrite (proj2 (has_title_true title a) Ha) in Ht.
          fold (titled title (library (remote w))) in Ht.
          rewrite <- Hobs, Hnone in Ht. apply Permutation_singleton_r in Ht. exact Ht. }
        rewrite (first_titled_head title _ a [] ); [| |exact Hhead].
        - unfold bind, id_of. rewrite Haid. reflexivity.
        - eapply all_titled_Permutation; [symmetry; exact Hp|].
          constructor; [congruence | rewrite <- Hobs; exact Hall]. }
      rewrite Hsecond. cbn [fst snd]. repeat split; auto.
      exact (listing_makes_no_create fuel w2 w3 _ Hl2).
Qed.

End ResolutionClaim.

Section ResolutionRuns.
Import GooglePhotos ClientSpec Scheduler MemLibrary Scenarios AlbumSpec.

(** The in-memory library changes its albums only through answered
    creation requests. *)
Lemma memory_reads_only : reads_only albums.
Proof.
  split.
  - intros s. cbn. unfold get_service. destruct (credential_error s); reflexivity.
  - intros n tok s. cbn. unfold albums_list, request.
    destruct (faults s) as [|[e|] rest]; reflexivity.
Qed.

Lemma memory_creates_atomically : creates_atomically albums.
Proof.
  intros title s. cbn. unfold albums_create, request.
  destruct (faults s) as [|[e|] rest]; cbn; try reflexivity.
  - destruct (fresh_ids s) as [|id ids]; [reflexivity|].
    exists {| album_id := Some id; album_title := Some title |}. cbn.
    split; [|split; reflexivity].
    rewrite Permutation_app_comm. reflexivity.
  - destruct (fresh_ids s) as [|id ids]; [reflexivity|].
    exists {| album_id := Some id; album_title := Some title |}. cbn.
    split; [|split; reflexivity].
    rewrite Permutation_app_comm. reflexivity.
Qed.

Lemma album_resolution_witness :
  let holiday := {| album_id := Some "id-3"; album_title := Some "Holiday" |} in
  let w := boot (flaky 2 [holiday] ["id-7"]) quiet_env in
  let first := _get_album_id cfg_silent 8 w in
  let second := _get_album_id cfg_silent 8 first.2 in
  first.1 = Ok (Some "id-7")
  /\ second.1 = Ok (Some "id-7")
  /\ calls_of AlbumsCreate (trace second.2) = calls_of AlbumsCreate (trace first.2)
  /\ albums (remote second.2)
     = [holiday; {| album_id := Some "id-7"; album_title := Some "Garden" |}].
Proof.
  cbv zeta.
  set (holiday := {| album_id := Some "id-3"; album_title := Some "Holiday" |}).
  set (w := boot (flaky 2 [holiday] ["id-7"]) quiet_env).
  assert (Hl : get_album_list 8 w = (Ok [holiday], (get_album_list 8 w).2))
    by (vm_compute; reflexivity).
  assert (Hall : all_titled [holiday]) by (repeat constructor; discriminate).
  assert (Hfirst : (_get_album_id cfg_silent 8 w).1 = Ok (Some "id-7"))
    by (vm_compute; reflexivity).
  assert (Hobs : observes albums 8 (_get_album_id cfg_silent 8 w).2)
    by (vm_compute; reflexivity).
  pose proof (proj2 (proj2 (proj2 (album_resolution cfg_silent 8 w _ [holiday]
                                     eq_refl Hl)))
                albums memory_reads_only memory_creates_atomically
                eq_refl Hall eq_refl) as H.
  cbv zeta in H. destruct H as [_ H].
  destruct (H "id-7" Hfirst) as [_ Hsecond].
  destruct (Hsecond Hobs) as (H2 & Hcalls & Hlib).
  split; [exact Hfirst | split; [exact H2 | split; [exact Hcalls|]]].
  rewrite Hlib. vm_compute. reflexivity.
Defined.

End ResolutionRuns.

Section ResolutionFails.
Import GooglePhotos Scheduler Scenarios AlbumSpec Lossy.

(** C7, as worded, fails.  The server stores the album of a creation
    request and loses its answer twice; the retry wrapper sends the
    request again each time.  The title is absent at first, both
    resolutions return and each listing shows what the server holds, yet
    three albums of the title exist after the two calls, and the second
    call returns another id than the first. *)
Lemma resolves_once_counterexample :
  let w := Lossy.boot {| Lossy.albums := []; Lossy.drops := 2 |} in
  let first := _get_album_id cfg_silent 8 w in
  let second := _get_album_id cfg_silent 8 first.2 in
  reads_only Lossy.albums
  /\ first.1 = Ok (Some "id-2") /\ second.1 = Ok (Some "id-0")
  /\ length (titled "Garden" (Lossy.albums (remote second.2))) = 3%nat
  /\ ~ resolves_once Lossy.albums.
Proof.
  cbv zeta. split; [split; reflexivity|].
  split; [vm_compute; reflexivity|]. split; [vm_compute; reflexivity|].
  split; [vm_compute; reflexivity|].
  intros Hclaim.
  destruct (Hclaim cfg_silent 8%nat
              (Lossy.boot {| Lossy.albums := []; Lossy.drops := 2 |})
              (_get_album_id cfg_silent 8
                 (Lossy.boot {| Lossy.albums := []; Lossy.drops := 2 |})).2
              (_get_album_id cfg_silent 8
                 (_get_album_id cfg_silent 8
                    (Lossy.boot {| Lossy.albums := []; Lossy.drops := 2 |})).2).2
              "id-2" "id-0") as (a & Hp & _);
    try (vm_compute; reflexivity).
  apply Permutation_length in Hp. vm_compute in Hp. discriminate Hp.
Qed.

End ResolutionFails.

(** * Further properties

    ** [decode_fourcc] on any integer *)

Section FourccMore.
Import Camera.

Lemma digits_recompose v :
  (v / 256 ^ 0) mod 256 + 256 * ((v / 256 ^ 1) mod 256)
  + 65536 * ((v / 256 ^ 2) mod 256) + 16777216 * ((v / 256 ^ 3) mod 256)
  = v mod 2 ^ 32.
Proof.
  change (256 ^ 0) with 1. change (256 ^ 1) with 256.
  change (256 ^ 2) with 65536. change (256 ^ 3) with 16777216.
  change (2 ^ 32) with 4294967296.
  Z.div_mod_to_equations. lia.
Qed.

(** X1.  [decode_fourcc] reads the low 32 bits of a code and nothing else:
    decoding the code modulo 2^32 gives the same string, and two codes
    decode to the same string exactly when they agree modulo 2^32.  When
    the four low bytes are ASCII (below 128), packing the decoded
    characters gives the code modulo 2^32 back, a value below 2^31. *)
Theorem repack_decoded_fourcc (v : Z) :
  decode_fourcc (v mod 2 ^ 32) = decode_fourcc v
  /\ (forall v', decode_fourcc v = decode_fourcc v' <-> v mod 2 ^ 32 = v' mod 2 ^ 32)
  /\ ((forall i : nat, (i < 4)%nat -> (v / 256 ^ Z.of_nat i) mod 256 < 128) ->
      fourcc_of_string (decode_fourcc v) = Some (v mod 2 ^ 32)
      /\ 0 <= v mod 2 ^ 32 < 2 ^ 31).
Proof.
  assert (Hdec : forall u u', u mod 2 ^ 32 = u' mod 2 ^ 32 ->
                              decode_fourcc u = decode_fourcc u').
  { intros u u' Hu. rewrite !decode_fourcc_unfold.
    assert (Hd : forall k, (0 <= k <= 3) ->
                   (u / 256 ^ k) mod 256 = (u' / 256 ^ k) mod 256).
    { intros k Hk.
      assert (Hk' : k = 0 \/ k = 1 \/ k = 2 \/ k = 3) by lia.
      change (2 ^ 32) with 4294967296 in Hu.
      destruct Hk' as [->|[->|[->| ->]]];
        [ change (256 ^ 0) with 1 | change (256 ^ 1) with 256
        | change (256 ^ 2) with 65536 | change (256 ^ 3) with 16777216 ];
        Z.div_mod_to_equations; lia. }
    rewrite (Hd 0), (Hd 1), (Hd 2), (Hd 3) by lia. reflexivity. }
  assert (Hinj : forall u u', decode_fourcc u = decode_fourcc u' ->
                              u mod 2 ^ 32 = u' mod 2 ^ 32).
  { intros u u'. rewrite !decode_fourcc_unfold. intros [= H0 H1 H2 H3].
    assert (Hb : forall x k, 0 <= (x / 256 ^ k) mod 256 < 256)
      by (intros x k; apply Z.mod_pos_bound; lia).
    apply (f_equal ord) in H0, H1, H2, H3.
    rewrite !ord_chr in H0, H1, H2, H3 by apply Hb.
    rewrite <- (digits_recompose u), <- (digits_recompose u'). congruence. }
  split; [|split].
  - apply Hdec. rewrite Z.mod_mod by lia. reflexivity.
  - intros v'. split; [apply Hinj | apply Hdec].
  - intros Hascii. split.
    + rewrite decode_fourcc_unfold. unfold fourcc_of_string.
      cbn [list_ascii_of_string]. rewrite VideoWriter_fourcc_value.
      rewrite !ord_chr by (apply Z.mod_pos_bound; lia).
      rewrite digits_recompose. reflexivity.
    + pose proof (Hascii 3%nat ltac:(lia)) as H3. cbn in H3.
      change (2 ^ 32) with 4294967296. change (2 ^ 31) with 2147483648.
      change (256 ^ 3) with 16777216 in H3.
      Z.div_mod_to_equations. lia.
Qed.
End FourccMore.

(** ** The retry wrapper: interrupts and the waiting budget *)

Section RetryMore.
Import GooglePhotos.
Context {St A : Type}.
Variables (op : api_op) (name : string) (callback : St -> result A * St).

(** X2.  What the callback raises that is not an [Exception]
    ([KeyboardInterrupt], [SystemExit]) leaves the retry wrapper at once, at
    whichever attempt: the call is the only event, nothing is logged, no
    sleep happens and no further attempt is made. *)
Theorem interrupt_not_retried (k : nat) (w : world St) e s' :
  (k < MAX_API_RETRY)%nat ->
  callback (remote w) = (Raised e, s') ->
  (forall cls msg, e <> PyExc cls msg) ->
  execute_api_for (drop k (seq 0 MAX_API_RETRY)) op name callback w
  = (Raised e,
     {| remote := s'; files := files w; cap_held := cap_held w;
        trace := trace w ++ [EvCall op]; env := env w |}).
Proof.
  intros Hk Hc He.
  assert (Hi : exists i rest, drop k (seq 0 MAX_API_RETRY) = i :: rest).
  { destruct k as [|[|[|k]]]; cbn; eauto. unfold MAX_API_RETRY in Hk. lia. }
  destruct Hi as (i & rest & ->).
  destruct (execute_api_for_uncaught op name callback i rest w (Raised e) s' Hc)
    as (r' & Hrun & _).
  { destruct e; try exact I. exfalso. eapply He. reflexivity. }
  cbn [execute_api_for] in *. unfold try_except, bind, remote_call in *.
  rewrite Hc in *. destruct e as [cls msg|code|];
    [exfalso; eapply He; reflexivity | |]; world_eq.
Qed.

(** Sleeps and calls of the last, the last two, and all three attempts. *)
Lemma budget_from_2 (w : world St) :
  exists evs,
    trace (execute_api_for [2%nat] op name callback w).2 = trace w ++ evs
    /\ attempts evs = 1%nat /\ sleeps evs = [].
Proof.
  destruct (callback (remote w)) as [r s'] eqn:Hc.
  destruct r as [a|[cls msg|code|]|].
  - erewrite execute_api_for_ok by eassumption. exists [EvCall op]. auto.
  - destruct (is_auth_error msg) eqn:Hm.
    + erewrite execute_api_for_auth by eassumption.
      eexists [_; _]. cbn. rewrite <- app_assoc. auto.
    + erewrite execute_api_for_retry by eassumption.
      rewrite execute_api_for_nil. eexists [_; _; _]. cbn.
      rewrite <- !app_assoc. auto.
  - destruct (execute_api_for_uncaught op name callback 2%nat [] w _ _ Hc I) as (r' & -> & _).
    exists [EvCall op]. auto.
  - destruct (execute_api_for_uncaught op name callback 2%nat [] w _ _ Hc I) as (r' & -> & _).
    exists [EvCall op]. auto.
  - destruct (execute_api_for_uncaught op name callback 2%nat [] w _ _ Hc I) as (r' & -> & _).
    exists [EvCall op]. auto.
Qed.

Lemma budget_step i rest (w : world St) :
  (i < MAX_API_RETRY - 1)%nat ->
  (forall w1, exists evs,
      trace (execute_api_for rest op name callback w1).2 = trace w1 ++ evs
      /\ (1 <= attempts evs)%nat /\ (attempts evs <= length rest)%nat
      /\ (length (sleeps evs) < attempts evs)%nat) ->
  exists evs,
    trace (execute_api_for (i :: rest) op name callback w).2 = trace w ++ evs
    /\ (1 <= attempts evs)%nat /\ (attempts evs <= S (length rest))%nat
    /\ (length (sleeps evs) < attempts evs)%nat.
Proof.
  intros Hi IH.
  destruct (callback (remote w)) as [r s'] eqn:Hc.
  destruct r as [a|[cls msg|code|]|].
  - erewrite execute_api_for_ok by eassumption. exists [EvCall op].
    cbn. repeat split; unfold attempts; cbn; lia.
  - destruct (is_auth_error msg) eqn:Hm.
    + erewrite execute_api_for_auth by eassumption.
      eexists [_; _]. cbn. rewrite <- app_assoc.
      repeat split; unfold attempts; cbn; lia.
    + erewrite execute_api_for_retry by eassumption.
      apply Nat.ltb_lt in Hi. rewrite Hi. cbv zeta.
      match goal with |- context [execute_api_for rest op name callback ?w1] =>
        destruct (IH w1) as (evs & Ht & H1 & H2 & H3) end.
      exists ([EvCall op; EvLog WARNING msg; EvSleep 3] ++ evs).
      rewrite Ht. autorewrite with world. rewrite <- !app_assoc.
      rewrite attempts_app, sleeps_app, length_app.
      repeat split; unfold attempts in *; cbn; lia.
  - destruct (execute_api_for_uncaught op name callback i rest w _ _ Hc I) as (r' & -> & _).
    exists [EvCall op]. cbn. repeat split; unfold attempts; cbn; lia.
  - destruct (execute_api_for_uncaught op name callback i rest w _ _ Hc I) as (r' & -> & _).
    exists [EvCall op]. cbn. repeat split; unfold attempts; cbn; lia.
  - destruct (execute_api_for_uncaught op name callback i rest w _ _ Hc I) as (r' & -> & _).
    exists [EvCall op]. cbn. repeat split; unfold attempts; cbn; lia.
Qed.

(** X3.  Whatever the callback does, one call of the wrapper makes
    between one and three attempts, sleeps fewer times than it calls (never
    after the last attempt), and waits at most 6 seconds in all. *)
Theorem backoff_budget (w : world St) :
  exists evs,
    trace (_execute_api op name callback w).2 = trace w ++ evs
    /\ (1 <= attempts evs <= 3)%nat
    /\ (length (sleeps evs) < attempts evs)%nat
    /\ fold_right Z.add 0 (sleeps evs) <= 6.
Proof.
  assert (H2 : forall w1, exists evs,
      trace (execute_api_for [2%nat] op name callback w1).2 = trace w1 ++ evs
      /\ (1 <= attempts evs)%nat /\ (attempts evs <= length [2%nat])%nat
      /\ (length (sleeps evs) < attempts evs)%nat).
  { intros w1. destruct (budget_from_2 w1) as (evs & Ht & Ha & Hs).
    exists evs. rewrite Ha, Hs. cbn. repeat split; auto; lia. }
  assert (H1 : forall w1, exists evs,
      trace (execute_api_for [1%nat; 2%nat] op name callback w1).2 = trace w1 ++ evs
      /\ (1 <= attempts evs)%nat /\ (attempts evs <= length [1%nat; 2%nat])%nat
      /\ (length (sleeps evs) < attempts evs)%nat).
  { intros w1. apply budget_step; [unfold MAX_API_RETRY; lia | exact H2]. }
  destruct (budget_step 0%nat [1%nat; 2%nat] w ltac:(unfold MAX_API_RETRY; lia) H1)
    as (evs & Ht & Ha1 & Ha2 & Hs).
  destruct (execute_api_for_effects op name callback (seq 0 MAX_API_RETRY) w)
    as (evs' & Ht' & _ & Hall & _).
  change (seq 0 MAX_API_RETRY) with [0%nat; 1%nat; 2%nat] in *.
  rewrite Ht in Ht'. apply app_inv_head in Ht'. subst evs'.
  exists evs. unfold _execute_api. cbn [seq MAX_API_RETRY]. cbn in Ha2.
  repeat split; auto; try lia.
  assert (Hsum : forall l, Forall (eq 3) l -> fold_right Z.add 0 l = 3 * Z.of_nat (length l)).
  { induction 1 as [|x l <- _ IH]; cbn [fold_right length]; [reflexivity | lia]. }
  rewrite (Hsum _ Hall). lia.
Qed.
End RetryMore.

Section RetryMoreRuns.
Import GooglePhotos MemLibrary Scenarios.

Lemma interrupt_not_retried_witness :
  execute_api_for (drop 1 (seq 0 MAX_API_RETRY)) AlbumsList "execute"
    (svc_albums_list 50 None)
    (boot (with_faults [Some KeyboardInterrupt] (holding [garden] [])) quiet_env)
  = (Raised KeyboardInterrupt,
     {| remote := holding [garden] []; files := ∅; cap_held := false;
        trace := [EvCall AlbumsList]; env := quiet_env |}).
Proof.
  apply (interrupt_not_retried AlbumsList "execute" (svc_albums_list 50 None) 1
           (boot (with_faults [Some KeyboardInterrupt] (holding [garden] [])) quiet_env)
           KeyboardInterrupt (holding [garden] []));
    [ unfold MAX_API_RETRY; lia | reflexivity | intros; discriminate ].
Defined.

End RetryMoreRuns.

(** ** [save_photo]: the disk and the capture handle *)

Section CaptureMore.
Import Camera CameraModule.
Context {St : Type}.

Lemma setup_no_makedirs evs d : Forall is_setup_event evs -> ~ In (EvMakedirs d) evs.
Proof.
  induction 1 as [|e evs He _ IH]; intros Hin; [contradiction|].
  destruct Hin as [-> | Hin]; [exact He | exact (IH Hin)].
Qed.



Lemma setup_release_count evs : Forall is_setup_event evs -> release_count evs = 0%nat.
Proof.
  induction 1 as [|e evs He _ IH]; [reflexivity|].
  unfold release_count in *. cbn [List.filter].
  destruct e; try contradiction; exact IH.
Qed.

Lemma release_count_app evs1 evs2 :
  release_count (evs1 ++ evs2) = (release_count evs1 + release_count evs2)%nat.
Proof. unfold release_count. rewrite List.filter_app, length_app. reflexivity. Qed.

(** Closes one path of [save_photo]: the events it appended, and that the
    only directory among them is the one of [save_path]. *)
Ltac path_events Ht Hevs :=
  eexists; split;
  [ cbn [snd]; autorewrite with world; rewrite Ht, <- ?app_assoc; reflexivity
  | intros d Hin; rewrite ?in_app_iff in Hin; cbn [In] in Hin;
    decompose [or] Hin; try discriminate; try contradiction; try congruence;
    exfalso; eapply setup_no_makedirs; eauto ].


(** X5.  When the settings block goes through, the device opens and
    delivers a frame: if none of [cv2.putText], [os.makedirs] and
    [cv2.imwrite] raises, [save_photo] returns what [cv2.imwrite] returns
    and the capture handle has been released exactly once and is no longer
    held (a write that fails by returning [False] releases it as well); if
    one of them raises, [save_photo] raises that exception, [cap.release()]
    has not been called and the handle is still held. *)
Theorem frame_read_releases_handle device_id save_path settings with_datetime
    (w : world St) img :
  (apply_settings settings (captured device_id w)).1 = Ok tt ->
  dev_opens (env_device (env w)) = true ->
  dev_frame (env_device (env w)) = Some img ->
  let run := save_photo device_id save_path settings with_datetime w in
  exists evs,
    trace run.2 = trace w ++ evs
    /\ match write_error (env w) save_path with_datetime with
       | None =>
           run.1 = Ok (env_imwrite_ok (env w))
           /\ cap_held run.2 = false /\ release_count evs = 1%nat
       | Some e =>
           run.1 = Raised e
           /\ cap_held run.2 = true /\ release_count evs = 0%nat
       end.
Proof.
  intros Hs Ho Hfr. cbv zeta. rewrite save_photo_unfold. unfold write_error.
  destruct (local_frame_apply_settings settings (captured device_id w))
    as (evs & Hf & Hc & He & Ht & Hevs).
  destruct (apply_settings settings (captured device_id w)) as [[[]|e|] wa];
    cbn [fst snd] in *; try discriminate Hs.
  unfold captured in Hf, Hc, He, Ht. autorewrite with world in *.
  rewrite Hc, He, Ho, Hfr. cbv zeta.
  pose proof (setup_release_count evs Hevs) as Hz.
  destruct (if with_datetime then env_putText_error (env w) else None).
  { eexists. split;
      [cbn [snd]; autorewrite with world; rewrite Ht, <- ?app_assoc; reflexivity|].
    cbn [fst snd]. autorewrite with world. rewrite Hc, Ho.
    rewrite !release_count_app, Hz. repeat split. }
  destruct (nonempty (dirname save_path)).
  - destruct (env_makedirs_error (env w) (dirname save_path)).
    { eexists. split;
        [cbn [snd]; autorewrite with world; rewrite Ht, <- ?app_assoc; reflexivity|].
      cbn [fst snd]. autorewrite with world. rewrite Hc, Ho.
      rewrite !release_count_app, Hz. repeat split. }
    destruct (env_imwrite_error (env w)).
    { eexists. split;
        [cbn [snd]; autorewrite with world; rewrite Ht, <- ?app_assoc; reflexivity|].
      cbn [fst snd]. autorewrite with world. rewrite Hc, Ho.
      rewrite !release_count_app, Hz. repeat split. }
    eexists. split;
      [destruct (env_imwrite_ok (env w)); cbn [snd]; autorewrite with world;
       rewrite Ht, <- ?app_assoc; reflexivity|].
    cbn [fst snd]. autorewrite with world.
    rewrite !release_count_app, Hz. repeat split.
  - destruct (env_imwrite_error (env w)).
    { eexists. split;
        [cbn [snd]; autorewrite with world; rewrite Ht, <- ?app_assoc; reflexivity|].
      cbn [fst snd]. autorewrite with world. rewrite Hc, Ho.
      rewrite !release_count_app, Hz. repeat split. }
    eexists. split;
      [destruct (env_imwrite_ok (env w)); cbn [snd]; autorewrite with world;
       rewrite Ht, <- ?app_assoc; reflexivity|].
    cbn [fst snd]. autorewrite with world.
    rewrite !release_count_app, Hz. repeat split.
Qed.

Lemma length_list_ascii_of_string s :
  length (list_ascii_of_string s) = String.length s.
Proof. induction s as [|c s IH]; cbn; [reflexivity | rewrite IH; reflexivity]. Qed.

(** X6.  A [fourcc] setting that is not empty and not four characters long
    makes [save_photo] raise the [ValueError] of the unpacking right after
    the device is opened: nothing is set, read, written or released. *)
Theorem malformed_fourcc_raises device_id save_path d with_datetime (w : world St) code :
  fourcc d = Some code -> code <> "" -> String.length code <> 4%nat ->
  save_photo device_id save_path (Some d) with_datetime w
  = (Raised (unpack_error (String.length code)), captured device_id w).
Proof.
  intros Hcode Hne Hlen.
  assert (Hset : setting (Some d) fourcc nonempty = Some code).
  { unfold setting. rewrite Hcode. unfold nonempty.
    destruct code; [contradiction | reflexivity]. }
  assert (Hraise : apply_settings (Some d) (captured device_id w)
                   = (Raised (unpack_error (String.length code)), captured device_id w)).
  { unfold apply_settings. rewrite Hset. unfold bind at 1.
    rewrite <- length_list_ascii_of_string.
    destruct code as [|c1 [|c2 [|c3 [|c4 [|c5 rest]]]]]; try reflexivity.
    cbn in Hlen. congruence. }
  rewrite save_photo_unfold, Hraise. reflexivity.
Qed.
End CaptureMore.

Section CaptureMoreRuns.
Import Camera CameraModule MemLibrary Scenarios.

Lemma frame_read_releases_handle_witness :
  let run e := save_photo DEVICE_ID photo None true (boot (holding [] []) e) in
  (exists evs,
      trace (run quiet_env).2 = [] ++ evs
      /\ (run quiet_env).1 = Ok true
      /\ cap_held (run quiet_env).2 = false /\ release_count evs = 1%nat)
  /\ (exists evs,
        trace (run locked_env).2 = [] ++ evs
        /\ (run locked_env).1
           = Raised (PyExc "PermissionError" "[Errno 13] Permission denied: 'photos'")
        /\ cap_held (run locked_env).2 = true /\ release_count evs = 0%nat).
Proof.
  cbv zeta. split.
  - apply (frame_read_releases_handle DEVICE_ID photo None true
             (boot (holding [] []) quiet_env)
             {| img_pixels := 0%N; img_text := None |});
      vm_compute; reflexivity.
  - apply (frame_read_releases_handle DEVICE_ID photo None true
             (boot (holding [] []) locked_env)
             {| img_pixels := 0%N; img_text := None |});
      vm_compute; reflexivity.
Defined.

Lemma malformed_fourcc_raises_witness :
  let two_letters :=
    {| fourcc := Some "MJ"; width := None; height := None; fps := None;
       camera_model := None; focus := None |} in
  save_photo DEVICE_ID photo (Some two_letters) true (boot (holding [] []) quiet_env)
  = (Raised (PyExc "ValueError" "not enough values to unpack (expected 4, got 2)"),
     captured DEVICE_ID (boot (holding [] []) quiet_env)).
Proof.
  cbv zeta.
  apply (malformed_fourcc_raises DEVICE_ID photo
           {| fourcc := Some "MJ"; width := None; height := None; fps := None;
              camera_model := None; focus := None |}
           true (boot (holding [] []) quiet_env) "MJ");
    [ reflexivity | discriminate | vm_compute; discriminate ].
Defined.

End CaptureMoreRuns.

(** ** The client: footprint, call budget, malformed answers *)

Section ClientMore.
Import GooglePhotos ClientSpec.
Context {St Tok : Type} `{!Service St Tok}.

Lemma frame_untouched {A} P (m : M St A) w : local_frame P m -> untouched w (m w).2.
Proof. intros H. destruct (H w) as (evs & Hf & Hc & He & _). repeat split; auto. Qed.

(** X7.  The four operations of the client leave the image files, the
    capture handle and the environment as they were: they write, alter and
    delete no image (what they write is the log and, through
    [_get_service], the token file of the service); in particular
    [upload_image] never deletes or alters the file it uploads. *)
Theorem client_leaves_disk_and_camera_alone fuel title album_id image_path (w : world St) :
  untouched w (get_album_list fuel w).2
  /\ untouched w (get_album fuel title w).2
  /\ untouched w (create_album title w).2
  /\ untouched w (upload_image album_id image_path w).2
  /\ files (upload_image album_id image_path w).2 !! image_path = files w !! image_path.
Proof.
  assert (Hlog : forall lvl msg, is_client_event (EvLog lvl msg)) by (intros; exact I).
  assert (Hsl : forall s, is_client_event (EvSleep s)) by (intros; exact I).
  assert (Hup : untouched w (upload_image album_id image_path w).2).
  { eapply frame_untouched.
    apply (local_frame_upload_image is_client_event Hlog Hsl); reflexivity. }
  repeat split; try apply Hup.
  all: try (eapply frame_untouched;
            first [ apply (local_frame_get_album_list_loop is_client_event Hlog Hsl); reflexivity
                  | apply (local_frame_get_album is_client_event Hlog Hsl); reflexivity
                  | apply (local_frame_create_album is_client_event Hlog Hsl); reflexivity ]).
  destruct Hup as [-> _]. reflexivity.
Qed.

Lemma calls_of_le_attempts op evs : (calls_of op evs <= attempts evs)%nat.
Proof.
  unfold calls_of, attempts. induction evs as [|e evs IH]; [cbn; lia|].
  cbn [List.filter]. destruct e as [| |op'| | | | | | | |]; cbn; try exact IH.
  destruct op', op; cbn; lia.
Qed.

(** One wrapper call of [op]: at most three calls, all of them of [op]. *)
Lemma execute_api_calls {A} op name (cb : St -> result A * St) (w : world St) :
  exists evs,
    trace (_execute_api op name cb w).2 = trace w ++ evs
    /\ (calls_of op evs <= 3)%nat
    /\ (forall op', only_op op op' = false -> calls_of op' evs = 0%nat).
Proof.
  destruct (execute_api_for_effects op name cb (seq 0 MAX_API_RETRY) w)
    as (evs & Ht & Ha & _).
  destruct (local_frame_execute_api (is_event_of (only_op op))
              ltac:(intros; exact I) ltac:(intros; exact I) op name cb
              ltac:(destruct op; reflexivity) w)
    as (evs' & _ & _ & _ & Ht' & Hevs).
  unfold _execute_api in *. rewrite Ht in Ht'. apply app_inv_head in Ht'. subst evs'.
  exists evs. repeat split; auto.
  - pose proof (calls_of_le_attempts op evs). cbn in Ha. lia.
  - intros op' Hop'. exact (calls_of_none _ op' evs Hop' Hevs).
Qed.

Lemma calls_of_log op lvl msg : calls_of op [EvLog lvl msg] = 0%nat.
Proof. reflexivity. Qed.

(** The calls of one [upload_image]. *)
Lemma upload_image_calls album_id image_path (w : world St) :
  exists evs,
    trace (upload_image album_id image_path w).2 = trace w ++ evs
    /\ calls_of AlbumsList evs = 0%nat
    /\ calls_of AlbumsCreate evs = 0%nat
    /\ (calls_of UploadsPost evs <= 3)%nat
    /\ (calls_of MediaItemsBatchCreate evs <= 3)%nat
    /\ ((0 < calls_of MediaItemsBatchCreate evs)%nat ->
        exists r w1, phase1 image_path w r w1 /\ status_code r = 200).
Proof.
  rewrite upload_image_unfold.
  destruct (files w !! image_path) as [data|] eqn:Hfile.
  2:{ exists [EvLog ERROR "Image not exists."]. cbn. repeat split; auto; lia. }
  destruct (_get_service w) as [r0 wa] eqn:Hs.
  destruct (get_service_world w r0 wa Hs) as [s' Hwa].
  assert (Hta : trace wa = trace w) by (subst wa; reflexivity).
  destruct r0 as [token|e|];
    [| exists []; cbn [snd]; rewrite Hta, app_nil_r; cbn; repeat split; auto; lia ..].
  destruct (execute_api_calls UploadsPost "post"
              (svc_uploads_post token (basename image_path) data) wa)
    as (evs1 & Ht1 & Hn1 & Hz1).
  rewrite Hta in Ht1.
  destruct (_execute_api UploadsPost "post" _ wa) as [r1 wb] eqn:H1. cbn [snd] in Ht1.
  assert (Hbase : calls_of AlbumsList evs1 = 0%nat /\ calls_of AlbumsCreate evs1 = 0%nat
                  /\ calls_of MediaItemsBatchCreate evs1 = 0%nat)
    by (repeat split; apply Hz1; reflexivity).
  destruct Hbase as (Hl1 & Hc1 & Hb1).
  destruct r1 as [[r|]|e|];
    [| exists evs1; cbn [snd]; rewrite Ht1, Hl1, Hc1, Hb1;
       repeat split; auto; lia ..].
  destruct (Z.eqb (status_code r) 200) eqn:Hst.
  2:{ exists (evs1 ++ [EvLog WARNING
                         "Failed to upload image due to response status_code is not ok."]).
      cbn [snd]. autorewrite with world. rewrite Ht1, <- app_assoc, !calls_of_app.
      rewrite Hl1, Hc1, Hb1, !calls_of_log. repeat split; auto; lia. }
  apply Z.eqb_eq in Hst.
  assert (Hp1 : exists r' w1, phase1 image_path w r' w1 /\ status_code r' = 200).
  { exists r, wb. split; [|exact Hst]. exists data, token, wa. auto. }
  destruct (_get_service wb) as [r2 wc] eqn:Hs2.
  destruct (get_service_world wb r2 wc Hs2) as [s2 Hwc].
  assert (Htc : trace wc = trace wb) by (subst wc; reflexivity).
  destruct r2 as [token2|e|];
    [| exists evs1; cbn [snd]; rewrite Htc, Ht1, Hl1, Hc1, Hb1;
       repeat split; auto; lia ..].
  destruct (execute_api_calls MediaItemsBatchCreate "execute"
              (svc_batch_create album_id (content r)) wc)
    as (evs2 & Ht2 & Hn2 & Hz2).
  rewrite Htc, Ht1 in Ht2.
  destruct (_execute_api MediaItemsBatchCreate "execute" _ wc) as [r3 wd] eqn:H2.
  cbn [snd] in Ht2.
  assert (Hbase : calls_of AlbumsList evs2 = 0%nat /\ calls_of AlbumsCreate evs2 = 0%nat
                  /\ calls_of UploadsPost evs2 = 0%nat)
    by (repeat split; apply Hz2; reflexivity).
  destruct Hbase as (Hl2 & Hc2 & Hu2).
  assert (Hplain : exists evs,
             trace wd = trace w ++ evs
             /\ calls_of AlbumsList evs = 0%nat /\ calls_of AlbumsCreate evs = 0%nat
             /\ (calls_of UploadsPost evs <= 3)%nat
             /\ (calls_of MediaItemsBatchCreate evs <= 3)%nat
             /\ ((0 < calls_of MediaItemsBatchCreate evs)%nat ->
                 exists r w1, phase1 image_path w r w1 /\ status_code r = 200)).
  { exists (evs1 ++ evs2). rewrite Ht2, <- app_assoc, !calls_of_app.
    rewrite Hl1, Hc1, Hb1, Hl2, Hc2, Hu2. repeat split; auto; lia. }
  assert (Hlogged : forall lvl msg, exists evs,
             trace (add_event (EvLog lvl msg) wd) = trace w ++ evs
             /\ calls_of AlbumsList evs = 0%nat /\ calls_of AlbumsCreate evs = 0%nat
             /\ (calls_of UploadsPost evs <= 3)%nat
             /\ (calls_of MediaItemsBatchCreate evs <= 3)%nat
             /\ ((0 < calls_of MediaItemsBatchCreate evs)%nat ->
                 exists r w1, phase1 image_path w r w1 /\ status_code r = 200)).
  { intros lvl msg. exists (evs1 ++ evs2 ++ [EvLog lvl msg]).
    autorewrite with world. rewrite Ht2, <- !app_assoc, !calls_of_app.
    rewrite Hl1, Hc1, Hb1, Hl2, Hc2, Hu2, !calls_of_log. repeat split; auto; lia. }
  destruct r3 as [[r4|]|e|]; try exact Hplain.
  destruct (br_newMediaItemResults r4) as [[|item rest]|];
    [exact Hplain | | apply Hlogged].
  destruct (mir_status item); [apply Hlogged | exact Hplain].
Qed.

(** X8.  One [upload_image] makes no album request, at most three byte
    uploads and at most three [batchCreate] calls, and it calls
    [batchCreate] only after a byte upload has answered with status 200. *)
Theorem upload_image_call_budget album_id image_path (w : world St) :
  exists evs,
    trace (upload_image album_id image_path w).2 = trace w ++ evs
    /\ calls_of AlbumsList evs = 0%nat
    /\ calls_of AlbumsCreate evs = 0%nat
    /\ (calls_of UploadsPost evs <= 3)%nat
    /\ (calls_of MediaItemsBatchCreate evs <= 3)%nat
    /\ ((0 < calls_of MediaItemsBatchCreate evs)%nat ->
        exists r w1, phase1 image_path w r w1 /\ status_code r = 200).
Proof. exact (upload_image_calls album_id image_path w). Qed.

(** X9.  Once both phases have answered, the first with status 200, an
    empty [newMediaItemResults] list makes [upload_image] raise
    [IndexError], and a first result without [status] makes it raise
    [KeyError]: in both cases after the media item has been requested. *)
Theorem upload_image_malformed_results album_id image_path (w w1 w2 : world St) r r2 :
  phase1 image_path w r w1 -> status_code r = 200 ->
  phase2 album_id (content r) w1 r2 w2 ->
  (br_newMediaItemResults r2 = Some [] ->
   upload_image album_id image_path w
   = (Raised (PyExc "IndexError" "list index out of range"), w2))
  /\ (forall item rest,
        br_newMediaItemResults r2 = Some (item :: rest) -> mir_status item = None ->
        upload_image album_id image_path w = (Raised (KeyError "status"), w2)).
Proof.
  intros (data & token & wa & Hfile & Hs & H1) Hst (token2 & wc & Hs2 & H2).
  apply Z.eqb_eq in Hst.
  split; [intros Hres | intros item rest Hres Hitem];
    rewrite upload_image_unfold, Hfile, Hs, H1, Hst, Hs2, H2, Hres;
    [reflexivity | rewrite Hitem; reflexivity].
Qed.

(** X10.  When the creation request returns a response: without [id],
    [create_album] logs the failure and then raises [KeyError] for [id] all
    the same; with [id] but without [title] it raises [KeyError] for
    [title]; with both it returns the id. *)
Theorem create_album_malformed_response title (w wa wb : world St) token r :
  _get_service w = (Ok token, wa) ->
  _execute_api AlbumsCreate "execute" (svc_albums_create title) wa = (Ok (Some r), wb) ->
  (cr_id r = None ->
   create_album title w
   = (Raised (KeyError "id"),
      add_event (EvLog ERROR "Failed to create a new album.") wb))
  /\ (forall id, cr_id r = Some id -> cr_title r = None ->
        create_album title w = (Raised (KeyError "title"), wb))
  /\ (forall id t, cr_id r = Some id -> cr_title r = Some t ->
        (create_album title w).1 = Ok id).
Proof.
  intros Hs Hc. unfold create_album.
  erewrite bind_ok by exact Hs. erewrite bind_ok by exact Hc.
  split; [|split].
  - intros Hid. rewrite Hid. reflexivity.
  - intros id Hid Ht. rewrite Hid, Ht. reflexivity.
  - intros id t Hid Ht. rewrite Hid, Ht. reflexivity.
Qed.
End ClientMore.

Section ClientMoreRuns.
Import GooglePhotos ClientSpec Scenarios Terse.

Lemma upload_image_malformed_results_witness :
  upload_image (Some "id-0") photo (with_photo photo hollow)
  = (Raised (PyExc "IndexError" "list index out of range"),
     called MediaItemsBatchCreate hollow
       (called UploadsPost hollow (with_photo photo hollow))).
Proof.
  assert (H1 : phase1 photo (with_photo photo hollow)
                 {| status_code := 200; content := "upload-token" |}
                 (called UploadsPost hollow (with_photo photo hollow)))
    by (eexists _, _, _; repeat split; reflexivity).
  assert (H2 : phase2 (Some "id-0") "upload-token"
                 (called UploadsPost hollow (with_photo photo hollow))
                 {| br_newMediaItemResults := Some [] |}
                 (called MediaItemsBatchCreate hollow
                    (called UploadsPost hollow (with_photo photo hollow))))
    by (eexists _, _; repeat split; reflexivity).
  apply (proj1 (upload_image_malformed_results (Some "id-0") photo _ _ _ _ _
                  H1 eq_refl H2)).
  reflexivity.
Defined.

Lemma create_album_malformed_response_witness :
  create_album "Garden" (with_photo photo hollow)
  = (Raised (KeyError "id"),
     add_event (EvLog ERROR "Failed to create a new album.")
       (called AlbumsCreate hollow (with_photo photo hollow))).
Proof.
  assert (H1 : _get_service (with_photo photo hollow)
               = (Ok "access-token", with_photo photo hollow)) by reflexivity.
  assert (H2 : _execute_api AlbumsCreate "execute" (svc_albums_create "Garden")
                 (with_photo photo hollow)
               = (Ok (Some {| cr_id := None; cr_title := Some "Garden" |}),
                  called AlbumsCreate hollow (with_photo photo hollow)))
    by reflexivity.
  apply (proj1 (create_album_malformed_response "Garden" _ _ _ _ _ H1 H2)).
  reflexivity.
Defined.

End ClientMoreRuns.

(** ** [camera_job]: the paths without upload, and the escalation *)

Section JobsMore.
Import GooglePhotos ClientSpec CameraModule Scheduler Scenarios.
Context {St Tok : Type} `{!Service St Tok}.
Variable cfg : config.

Lemma save_photo_env device_id save_path settings with_datetime (w : world St) :
  env (save_photo device_id save_path settings with_datetime w).2 = env w.
Proof.
  rewrite save_photo_unfold.
  destruct (local_frame_apply_settings settings (captured device_id w))
    as (evs & _ & _ & He & _).
  destruct (apply_settings settings (captured device_id w)) as [[[]|e|] wa];
    cbn [snd] in *; unfold captured in He; autorewrite with world in He; auto.
  destruct (cap_held wa); [|autorewrite with world; exact He].
  destruct (dev_frame (env_device (env wa))); cbv zeta;
    [|autorewrite with world; exact He].
  destruct (if with_datetime then env_putText_error (env wa) else None);
    [autorewrite with world; exact He|].
  destruct (nonempty (dirname save_path));
    [destruct (env_makedirs_error (env wa) (dirname save_path));
     [autorewrite with world; exact He|] |];
    (destruct (env_imwrite_error (env wa)); [autorewrite with world; exact He|]);
    destruct (env_imwrite_ok (env wa)); cbn [snd]; autorewrite with world; exact He.
Qed.

(** X11.  [camera_job] does nothing when the camera is disabled; when the
    capture does not return [True] it ends where the capture ended, with no
    upload and no removal; and with the upload disabled it returns after a
    successful capture and the photo stays on the disk. *)
Theorem camera_job_skips_upload fuel (w : world St) :
  let path := photo_path cfg (env_clock (env w) "%Y%m%d_%H%M") in
  let shot := save_photo DEVICE_ID path (settings cfg) true w in
  (camera_use cfg = false -> camera_job cfg fuel w = (Ok tt, w))
  /\ (camera_use cfg = true -> shot.1 <> Ok true ->
      camera_job cfg fuel w
      = (match shot.1 with
         | Ok _ => Ok tt
         | Raised e => Raised e
         | OutOfFuel => OutOfFuel
         end, shot.2))
  /\ (camera_use cfg = true -> google_photos_use cfg = false -> shot.1 = Ok true ->
      camera_job cfg fuel w = (Ok tt, shot.2)
      /\ is_Some (files shot.2 !! path)).
Proof.
  intros path shot. split; [|split].
  - intros Hc. unfold camera_job.
    erewrite bind_ok by apply is_use_flag_camera. rewrite Hc. reflexivity.
  - intros Hc Hshot. unfold camera_job.
    erewrite bind_ok by apply is_use_flag_camera. rewrite Hc. cbn [negb].
    erewrite bind_ok by reflexivity. fold path. unfold bind at 1. fold shot.
    destruct shot as [[[|]|e|] w1]; cbn [fst snd] in *; try reflexivity.
    contradiction Hshot. reflexivity.
  - intros Hc Hg Hshot.
    assert (Hs : save_photo DEVICE_ID path (settings cfg) true w = (Ok true, shot.2)).
    { subst shot. destruct (save_photo DEVICE_ID path (settings cfg) true w) as [r w1].
      cbn [fst snd] in *. congruence. }
    split; [|exact (save_photo_true_file _ _ _ _ _ _ Hs)].
    unfold camera_job.
    erewrite bind_ok by apply is_use_flag_camera. rewrite Hc. cbn [negb].
    erewrite bind_ok by reflexivity. fold path.
    erewrite bind_ok by exact Hs. cbn [negb].
    erewrite bind_ok by apply is_use_flag_google_photos. rewrite Hg. reflexivity.
Qed.

(** What the escalation writes to the trace. *)
Lemma notification_trace c (w : world St) :
  aws_sns cfg = Some c ->
  exists evs,
    trace (_send_auth_error_notification cfg w).2 = trace w ++ evs
    /\ Forall is_notice_event evs
    /\ existsb is_publish evs = reaches_publish c (env w).
Proof.
  intros Hc. unfold _send_auth_error_notification, reaches_publish.
  erewrite bind_ok by (rewrite is_use_flag_aws_sns, Hc; reflexivity).
  rewrite Hc. destruct (sns_use c); cbn [negb andb].
  2:{ eexists [_]. cbn. split; [reflexivity | split; [repeat constructor | reflexivity]]. }
  unfold bind at 1. unfold try_except. unfold publish_auth_error.
  unfold bind at 1. unfold ask at 1.
  destruct (env_boto3 (env w)) as [sns|].
  2:{ eexists [_; _]. cbn. rewrite <- ?app_assoc.
      split; [reflexivity | split; [repeat constructor | reflexivity]]. }
  unfold sns_key, strftime, ask, bind, ret, raise, log, emit.
  destruct (sns_region c) as [region|].
  2:{ eexists [_; _]. cbn. rewrite <- ?app_assoc.
      split; [reflexivity | split; [repeat constructor|]].
      destruct (sns_client_error sns); reflexivity. }
  destruct (sns_client_error sns) as [[cls msg]|].
  { eexists [_; _]. cbn. rewrite <- ?app_assoc.
    split; [reflexivity | split; [repeat constructor | reflexivity]]. }
  destruct (sns_message_body c) as [message_body|].
  2:{ eexists [_; _]. cbn. rewrite <- ?app_assoc.
      split; [reflexivity | split; [repeat constructor | reflexivity]]. }
  destruct (sns_topic_arn c) as [topic_arn|].
  2:{ eexists [_; _]. cbn. rewrite <- ?app_assoc.
      split; [reflexivity | split; [repeat constructor | reflexivity]]. }
  destruct (sns_subject c) as [subject|].
  2:{ eexists [_; _]. cbn. rewrite <- ?app_assoc.
      split; [reflexivity | split; [repeat constructor | reflexivity]]. }
  destruct (sns_publish_result sns) as [[cls msg]|[message_id|]];
    eexists [_; _; _]; cbn; rewrite <- ?app_assoc;
    (split; [reflexivity | split; [repeat constructor | reflexivity]]).
Qed.

End JobsMore.

Section JobsMoreRuns.
Import GooglePhotos ClientSpec CameraModule Scheduler MemLibrary Scenarios.


End JobsMoreRuns.

(** ** [_create_scheduler_job] *)

Section TriggerProps.
Import Triggers.
Variable unit_error : string -> option pyexn.
Variable at_error : string -> string -> option pyexn.

Lemma register_times_accepted day times jobs :
  unit_error day = None ->
  (forall t, In t times -> at_error day t = None) ->
  register_times unit_error at_error day times jobs
  = (Ok tt, jobs ++ map (fun t => Weekly day (Some t)) times).
Proof.
  intros Hu. revert jobs. induction times as [|t rest IH]; intros jobs Ht.
  - cbn. rewrite app_nil_r. reflexivity.
  - cbn [register_times]. rewrite Hu, (Ht t) by (left; reflexivity).
    rewrite IH by (intros t' Ht'; apply Ht; right; exact Ht').
    cbn [map]. rewrite <- app_assoc. reflexivity.
Qed.

Lemma register_days_accepted cfg t days jobs :
  at_time cfg = Some t ->
  (forall d, In d days -> unit_error d = None) ->
  (forall d s, In d days -> In s (at_time_list t) -> at_error d s = None) ->
  register_days unit_error at_error cfg days jobs
  = (Ok tt, jobs ++ weekly_grid days (at_time_list t)).
Proof.
  intros Hat. revert jobs. induction days as [|d rest IH]; intros jobs Hu Ha.
  - cbn. rewrite app_nil_r. reflexivity.
  - cbn [register_days]. unfold register_day. rewrite Hat.
    rewrite register_times_accepted;
      [| apply Hu; left; reflexivity
       | intros s Hs; apply Ha; [left; reflexivity | exact Hs] ].
    rewrite IH;
      [| intros d' Hd'; apply Hu; right; exact Hd'
       | intros d' s Hd' Hs; apply Ha; [right; exact Hd' | exact Hs] ].
    unfold weekly_grid. cbn [flat_map]. rewrite <- app_assoc. reflexivity.
Qed.

Lemma weekly_grid_length days times :
  length (weekly_grid days times) = (length days * length times)%nat.
Proof.
  unfold weekly_grid. induction days as [|d rest IH]; [reflexivity|].
  cbn [flat_map]. rewrite length_app, length_map, IH. reflexivity.
Qed.

(** X13.  With [day_of_week] and [at_time] and no [interval_minutes], when
    the library accepts every day and every time, [_create_scheduler_job]
    appends one job per day and time, days first: as many as days times
    times; a single time string gives one job per day. *)
Theorem weekly_cross_product cfg days t jobs :
  interval_minutes cfg = None ->
  day_of_week cfg = Some days ->
  at_time cfg = Some t ->
  (forall d, In d days -> unit_error d = None) ->
  (forall d s, In d days -> In s (at_time_list t) -> at_error d s = None) ->
  _create_scheduler_job unit_error at_error cfg jobs
  = (Ok tt, jobs ++ weekly_grid days (at_time_list t))
  /\ length (weekly_grid days (at_time_list t))
     = (length days * length (at_time_list t))%nat
  /\ (forall s, t = inl s -> weekly_grid days (at_time_list t)
                            = map (fun d => Weekly d (Some s)) days).
Proof.
  intros Hi Hd Hat Hu Ha. split; [|split].
  - unfold _create_scheduler_job. rewrite Hi, Hd.
    apply register_days_accepted; assumption.
  - apply weekly_grid_length.
  - intros s ->. unfold weekly_grid. cbn [at_time_list map].
    clear. induction days as [|d rest IH]; [reflexivity|].
    cbn [flat_map map app]. rewrite IH. reflexivity.
Qed.

(** X14.  An [at_time] that is an empty list registers nothing, whatever
    the days are, and raises nothing: not even a misspelt day is noticed. *)
Theorem empty_at_time_registers_nothing cfg days jobs :
  interval_minutes cfg = None ->
  day_of_week cfg = Some days ->
  at_time cfg = Some (inr []) ->
  _create_scheduler_job unit_error at_error cfg jobs = (Ok tt, jobs).
Proof.
  intros Hi Hd Hat. unfold _create_scheduler_job. rewrite Hi, Hd. clear Hd.
  induction days as [|d rest IH]; [reflexivity|].
  cbn [register_days]. unfold register_day. rewrite Hat. cbn. exact IH.
Qed.

Lemma register_times_appends day times jobs :
  exists added,
    (register_times unit_error at_error day times jobs).2 = jobs ++ added.
Proof.
  revert jobs. induction times as [|t rest IH]; intros jobs.
  - exists []. cbn. rewrite app_nil_r. reflexivity.
  - cbn [register_times]. destruct (unit_error day); [exists []; cbn; apply eq_sym, app_nil_r|].
    destruct (at_error day t); [exists []; cbn; apply eq_sym, app_nil_r|].
    destruct (IH (jobs ++ [Weekly day (Some t)])) as [added Ha].
    exists ([Weekly day (Some t)] ++ added). rewrite Ha, <- app_assoc. reflexivity.
Qed.

Lemma register_days_appends cfg days jobs :
  exists added,
    (register_days unit_error at_error cfg days jobs).2 = jobs ++ added.
Proof.
  revert jobs. induction days as [|d rest IH]; intros jobs.
  - exists []. cbn. rewrite app_nil_r. reflexivity.
  - cbn [register_days].
    assert (Hday : exists added,
               (register_day unit_error at_error cfg d jobs).2 = jobs ++ added).
    { unfold register_day. destruct (at_time cfg).
      - apply register_times_appends.
      - destruct (unit_error d); [exists [] | exists [Weekly d None]]; cbn;
          rewrite ?app_nil_r; reflexivity. }
    destruct Hday as [added1 H1].
    destruct (register_day unit_error at_error cfg d jobs) as [[[]|e|] jobs1];
      cbn [snd] in H1; [| exists added1; exact H1 ..].
    destruct (IH jobs1) as [added2 H2]. exists (added1 ++ added2).
    rewrite H2, H1, <- app_assoc. reflexivity.
Qed.

(** X15.  Without [at_time], a day the library does not know raises its
    exception from [_create_scheduler_job]; the days before it stay
    registered and the days after it are never registered. *)
Theorem registration_stops_at_first_bad_day cfg before day after e jobs :
  interval_minutes cfg = None ->
  day_of_week cfg = Some (before ++ day :: after) ->
  at_time cfg = None ->
  (forall d, In d before -> unit_error d = None) ->
  unit_error day = Some e ->
  _create_scheduler_job unit_error at_error cfg jobs
  = (Raised e, jobs ++ map (fun d => Weekly d None) before).
Proof.
  intros Hi Hd Hat Hb He. unfold _create_scheduler_job. rewrite Hi, Hd.
  clear Hd. revert jobs. induction before as [|d rest IH]; intros jobs.
  - cbn [app register_days map]. unfold register_day. rewrite Hat, He, app_nil_r.
    reflexivity.
  - cbn [app register_days]. unfold register_day at 1.
    rewrite Hat, (Hb d) by (left; reflexivity).
    rewrite IH by (intros d' Hd'; apply Hb; right; exact Hd').
    cbn [map]. rewrite <- app_assoc. reflexivity.
Qed.

(** X16.  [_create_scheduler_job] only appends to the job list, whether it
    returns or raises; with [interval_minutes] it appends the one interval
    job and looks at neither [day_of_week] nor [at_time]. *)
Theorem registrations_only_appended cfg jobs :
  exists added,
    (_create_scheduler_job unit_error at_error cfg jobs).2 = jobs ++ added
    /\ (forall n, interval_minutes cfg = Some n -> added = [EveryMinutes n]).
Proof.
  unfold _create_scheduler_job.
  destruct (interval_minutes cfg) as [n|].
  - exists [EveryMinutes n]. split; [reflexivity|]. intros n' [= <-]. reflexivity.
  - destruct (day_of_week cfg) as [days|].
    + destruct (register_days_appends cfg days jobs) as [added Ha].
      exists added. split; [exact Ha | discriminate].
    + exists []. cbn. rewrite app_nil_r. split; [reflexivity | discriminate].
Qed.
End TriggerProps.

Section TriggerRuns.
Import Triggers Schedules.

Lemma weekly_cross_product_witness :
  _create_scheduler_job unit_error at_error twice_a_day []
  = (Ok tt, [Weekly "monday" (Some "09:00"); Weekly "monday" (Some "18:00");
             Weekly "friday" (Some "09:00"); Weekly "friday" (Some "18:00")]).
Proof.
  assert (Hu : forall d, In d ["monday"; "friday"] -> unit_error d = None)
    by (intros d [<- | [<- | []]]; reflexivity).
  assert (Ha : forall d s, In d ["monday"; "friday"] ->
                 In s (at_time_list (inr ["09:00"; "18:00"])) -> at_error d s = None)
    by (intros d s _ [<- | [<- | []]]; reflexivity).
  exact (proj1 (weekly_cross_product unit_error at_error twice_a_day
                  ["monday"; "friday"] (inr ["09:00"; "18:00"]) []
                  eq_refl eq_refl eq_refl Hu Ha)).
Defined.

Lemma empty_at_time_registers_nothing_witness :
  _create_scheduler_job unit_error at_error no_times [] = (Ok tt, []).
Proof.
  exact (empty_at_time_registers_nothing unit_error at_error no_times
           ["monday"; "fryday"] [] eq_refl eq_refl eq_refl).
Defined.

Lemma registration_stops_at_first_bad_day_witness :
  _create_scheduler_job unit_error at_error misspelt []
  = (Raised (PyExc "AttributeError" "'Job' object has no attribute 'fryday'"),
     [Weekly "monday" None]).
Proof.
  assert (Hb : forall d, In d ["monday"] -> unit_error d = None)
    by (intros d [<- | []]; reflexivity).
  exact (registration_stops_at_first_bad_day unit_error at_error misspelt
           ["monday"] "fryday" ["sunday"]
           (PyExc "AttributeError" "'Job' object has no attribute 'fryday'") []
           eq_refl eq_refl eq_refl Hb eq_refl).
Defined.

End TriggerRuns.

(** ** [GooglePhotos._get_service] *)

Section AuthProps.
Import Auth.
Context {Stored : Type}.
Variable lib : auth_lib Stored.

Lemma build_service_spec c (s : auth_state Stored) :
  token_file (build_service lib c s).2 = token_file s
  /\ auth_trace (build_service lib c s).2 = auth_trace s ++ [EvSetTimeout 300; EvBuild]
  /\ ((build_service lib c s).1 = Ok c \/ exists e, (build_service lib c s).1 = Raised e).
Proof.
  unfold build_service. destruct (build lib c) as [e|]; cbn;
    rewrite <- app_assoc; repeat split; eauto.
Qed.

Lemma persist_and_build_spec c (s : auth_state Stored) :
  token_file (persist_and_build lib c s).2 = Some (to_json lib c)
  /\ auth_trace (persist_and_build lib c s).2
     = auth_trace s ++ [EvWriteToken; EvSetTimeout 300; EvBuild]
  /\ ((persist_and_build lib c s).1 = Ok c
      \/ exists e, (persist_and_build lib c s).1 = Raised e).
Proof.
  unfold persist_and_build.
  destruct (build_service_spec c (write_token (to_json lib c) s)) as (Hf & Ht & Hr).
  rewrite Hf, Ht. cbn. rewrite <- app_assoc. repeat split; auto.
Qed.

(** X17.  One call of [_get_service] re-authorises at most once, by a
    refresh or by the interactive flow, never both; it writes the token
    file at most once and only after a re-authorisation; when it does not
    write, the file is as before; and when it returns a service, either the
    file now holds that credential, or nothing was written and the
    credential is the valid one loaded from the file. *)
Theorem get_service_token_discipline (s : auth_state Stored) :
  exists evs,
    auth_trace (_get_service lib s).2 = auth_trace s ++ evs
    /\ (count_event is_refresh evs + count_event is_flow evs <= 1)%nat
    /\ (count_event is_write evs <= count_event is_refresh evs + count_event is_flow evs)%nat
    /\ (count_event is_write evs = 0%nat ->
        token_file (_get_service lib s).2 = token_file s)
    /\ (forall c, (_get_service lib s).1 = Ok c ->
        (count_event is_write evs = 1%nat
         /\ token_file (_get_service lib s).2 = Some (to_json lib c))
        \/ (count_event is_write evs = 0%nat /\ cred_valid c = true
            /\ exists f, token_file s = Some f
                         /\ from_authorized_user_file lib f = inr c)).
Proof.
  unfold _get_service.
  assert (Hreauth : forall ev c' (s0 : auth_state Stored),
            (ev = EvRefresh \/ ev = EvFlow) ->
            token_file s0 = token_file s -> auth_trace s0 = auth_trace s ->
            exists evs,
              auth_trace (persist_and_build lib c' (note ev s0)).2 = auth_trace s ++ evs
              /\ (count_event is_refresh evs + count_event is_flow evs <= 1)%nat
              /\ (count_event is_write evs
                  <= count_event is_refresh evs + count_event is_flow evs)%nat
              /\ (count_event is_write evs = 0%nat ->
                  token_file (persist_and_build lib c' (note ev s0)).2 = token_file s)
              /\ (forall c, (persist_and_build lib c' (note ev s0)).1 = Ok c ->
                  (count_event is_write evs = 1%nat
                   /\ token_file (persist_and_build lib c' (note ev s0)).2
                      = Some (to_json lib c))
                  \/ (count_event is_write evs = 0%nat /\ cred_valid c = true
                      /\ exists f, token_file s = Some f
                                   /\ from_authorized_user_file lib f = inr c))).
  { intros ev c' s0 Hev Hf0 Ht0.
    destruct (persist_and_build_spec c' (note ev s0)) as (Hf & Ht & Hr).
    exists ([ev] ++ [EvWriteToken; EvSetTimeout 300; EvBuild]).
    rewrite Ht, Hf. cbn [note auth_trace]. rewrite Ht0, <- app_assoc.
    destruct Hev as [-> | ->]; cbn; repeat split; auto; try lia; try discriminate.
    - intros c Hc. left. split; [reflexivity|].
      destruct Hr as [Hr | [e Hr]]; rewrite Hr in Hc; congruence.
    - intros c Hc. left. split; [reflexivity|].
      destruct Hr as [Hr | [e Hr]]; rewrite Hr in Hc; congruence. }
  assert (Hfail : forall ev e,
            (ev = EvRefresh \/ ev = EvFlow) ->
            exists evs,
              auth_trace (note ev s) = auth_trace s ++ evs
              /\ (count_event is_refresh evs + count_event is_flow evs <= 1)%nat
              /\ (count_event is_write evs
                  <= count_event is_refresh evs + count_event is_flow evs)%nat
              /\ (count_event is_write evs = 0%nat -> token_file (note ev s) = token_file s)
              /\ (forall c, @Raised credentials e = Ok c ->
                  (count_event is_write evs = 1%nat
                   /\ token_file (note ev s) = Some (to_json lib c))
                  \/ (count_event is_write evs = 0%nat /\ cred_valid c = true
                      /\ exists f, token_file s = Some f
                                   /\ from_authorized_user_file lib f = inr c))).
  { intros ev e Hev. exists [ev].
    destruct Hev as [-> | ->]; cbn; repeat split; auto; try lia; discriminate. }
  destruct (token_file s) as [f|] eqn:Hfile.
  - destruct (from_authorized_user_file lib f) as [e|c] eqn:Hload.
    + exists []. cbn. rewrite app_nil_r. repeat split; auto; discriminate.
    + destruct (cred_valid c) eqn:Hv.
      * destruct (build_service_spec c s) as (Hf & Ht & Hr).
        exists [EvSetTimeout 300; EvBuild]. rewrite Ht, Hf. cbn.
        repeat split; auto; try lia.
        intros c0 Hc0. right.
        destruct Hr as [Hr | [e Hr]]; rewrite Hr in Hc0; [|discriminate].
        injection Hc0 as <-. repeat split; eauto.
      * destruct (cred_expired c && has_refresh_token c).
        -- destruct (refresh lib c) as [e|c'].
           ++ apply (Hfail EvRefresh e). auto.
           ++ apply Hreauth; auto.
        -- destruct (run_flow lib) as [e|c'].
           ++ apply (Hfail EvFlow e). auto.
           ++ apply Hreauth; auto.
  - destruct (run_flow lib) as [e|c'].
    + apply (Hfail EvFlow e). auto.
    + apply Hreauth; auto.
Qed.

(** X18.  When the stored credential is expired and has a refresh token,
    a refresh that fails is raised as it is: the interactive flow is not
    tried, nothing is built, and the stale token file stays in place. *)
Theorem failed_refresh_is_final (s : auth_state Stored) f c e :
  token_file s = Some f ->
  from_authorized_user_file lib f = inr c ->
  cred_valid c = false -> cred_expired c = true -> has_refresh_token c = true ->
  refresh lib c = inl e ->
  _get_service lib s
  = (Raised e, {| token_file := Some f; auth_trace := auth_trace s ++ [EvRefresh] |}).
Proof.
  intros Hf Hl Hv He Hr Hx. unfold _get_service.
  rewrite Hf, Hl, Hv, He, Hr, Hx. cbn. unfold note. rewrite Hf. reflexivity.
Qed.

End AuthProps.

Section AuthRuns.
Import Auth Tokens.

Lemma failed_refresh_is_final_witness :
  _get_service refused on_disk
  = (Raised Scenarios.invalid_grant,
     {| token_file := Some "token.json"; auth_trace := [EvRefresh] |}).
Proof.
  exact (failed_refresh_is_final refused on_disk "token.json" stale
           Scenarios.invalid_grant eq_refl eq_refl eq_refl eq_refl eq_refl eq_refl).
Defined.

End AuthRuns.

(** ** [is_use_flag] on the dictionary *)

Section FlagLookup.
Import ConfigTree.

Lemma walk_app (config : yaml) (pre post : list string) :
  walk config (pre ++ post) =
  match walk config pre with
  | inl e => inl e
  | inr v => walk v post
  end.
Proof.
  revert config. induction pre as [|k pre IH]; intros config; cbn [walk app].
  - reflexivity.
  - destruct (getitem config k); [reflexivity | apply IH].
Qed.

Lemma is_use_flag_walk (config : yaml) (args : list string) :
  args <> [] ->
  is_use_flag config args = walk config (args ++ ["use"]).
Proof.
  intros Hne. rewrite walk_app. destruct args as [|k args]; [congruence|].
  unfold is_use_flag. destruct (walk config (k :: args)) as [e|v]; [reflexivity|].
  cbn [walk]. destruct (getitem v "use"); reflexivity.
Qed.

(** X19.  For a non-empty path, [is_use_flag] is the walk along the path
    followed by the key [use]; wherever along that walk a dictionary lacks
    the next key, the result is the [KeyError] of that key. *)
Theorem is_use_flag_walks_the_path (config : yaml) (args : list string) :
  args <> [] ->
  is_use_flag config args = walk config (args ++ ["use"])
  /\ (forall pre k post entries,
        args ++ ["use"] = pre ++ k :: post ->
        walk config pre = inr (YMap entries) ->
        assoc k entries = None ->
        is_use_flag config args = inl (GooglePhotos.KeyError k)).
Proof.
  intros Hne. split; [apply is_use_flag_walk, Hne|].
  intros pre k post entries Hsplit Hpre Hk.
  rewrite is_use_flag_walk by exact Hne.
  rewrite Hsplit, walk_app, Hpre. cbn [walk getitem]. rewrite Hk. reflexivity.
Qed.

End FlagLookup.

Section FlagRuns.
Import ConfigTree Scheduler MemLibrary Scenarios.

Lemma is_use_flag_walks_the_path_witness :
  ConfigTree.is_use_flag (of_config cfg_bare) ["notifications"; "aws_sns"]
  = inl (GooglePhotos.KeyError "notifications").
Proof.
  assert (Hne : ["notifications"; "aws_sns"] <> []) by discriminate.
  exact (proj2 (is_use_flag_walks_the_path (of_config cfg_bare)
                  ["notifications"; "aws_sns"] Hne)
           [] "notifications" ["aws_sns"; "use"] _ eq_refl eq_refl eq_refl).
Defined.

End FlagRuns.

(** ** [setup_logger] *)

Section LoggerSetup.
Import Logging.

Lemma setup_logger_configured (log_file name : string) (s : logging_state) :
  exists h hs, handlers (setup_logger log_file name s) !! name = Some (h :: hs).
Proof.
  unfold setup_logger.
  destruct (handlers s !! name) as [[|h hs]|] eqn:E; simpl.
  - rewrite lookup_insert_eq. eauto.
  - rewrite E. eauto.
  - rewrite lookup_insert_eq. eauto.
Qed.


End LoggerSetup.

(** ** setup_auth.py *)

Section SetupMore.
Import GooglePhotos CameraModule Scheduler SetupAuth.
Context {St Tok : Type} `{!Service St Tok}.

Lemma upload_image_files album_id image_path (w : world St) :
  files (upload_image album_id image_path w).2 = files w.
Proof.
  assert (Hfr : local_frame is_client_event
                  (upload_image album_id image_path : M St bool)).
  { apply local_frame_upload_image; try reflexivity; intros; exact I. }
  destruct (Hfr w) as (evs & Hf & _).
  exact Hf.
Qed.

(** X22.  For a configuration that loads with the keys the script reads
    and a photo directory that can be created: the setup script ends in
    [sys.exit(1)] when the configuration file is missing (before anything
    else), when the client secrets are missing (after creating the photo
    directory), and when listing, finding or creating the album raises an
    [Exception].  Once the album is resolved, an [Exception] raised inside
    the camera test (by the capture or by the upload) is swallowed and the
    script ends normally, while an [Exception] raised by the upload of an
    existing image, which stands outside any [try], leaves the script. *)
Theorem setup_exits_unless_authenticated (args : arguments) (cfg : config)
    (secrets : bool) (image_files : list string) (fuel : nat) (w : world St) :
  main args None secrets image_files fuel w = (Raised (SystemExit 1), w)
  /\ main args (Some cfg) false image_files fuel w
     = (Raised (SystemExit 1), add_event (EvMakedirs (photo_dir cfg)) w)
  /\ (forall cls msg w1,
        resolve_album cfg fuel (add_event (EvMakedirs (photo_dir cfg)) w)
        = (Raised (PyExc cls msg), w1) ->
        main args (Some cfg) true image_files fuel w = (Raised (SystemExit 1), w1))
  /\ (forall album_id w1,
        resolve_album cfg fuel (add_event (EvMakedirs (photo_dir cfg)) w)
        = (Ok album_id, w1) ->
        (test_camera args && camera_use cfg = true ->
         forall cls msg w2,
           camera_test args cfg album_id w1 = (Raised (PyExc cls msg), w2) ->
           main args (Some cfg) true image_files fuel w = (Ok tt, w2))
        /\ (test_camera args && camera_use cfg = false -> test_upload args = true ->
            forall test_image rest e w2,
              image_files = test_image :: rest ->
              upload_image (Some album_id) test_image w1 = (Raised e, w2) ->
              main args (Some cfg) true image_files fuel w = (Raised e, w2))).
Proof.
  split; [reflexivity | split; [reflexivity | split]].
  - intros cls msg w1 Hres.
    unfold main. cbn [negb]. unfold bind at 1, emit.
    unfold bind at 1, try_except at 1. rewrite Hres. reflexivity.
  - intros album_id w1 Hres. split.
    + intros Hcam cls msg w2 Htest.
      unfold main. cbn [negb]. unfold bind at 1, emit.
      unfold bind at 1, try_except at 1. rewrite Hres, Hcam.
      unfold try_except. rewrite Htest. reflexivity.
    + intros Hcam Hup test_image rest e w2 -> Hrun.
      unfold main. cbn [negb]. unfold bind at 1, emit.
      unfold bind at 1, try_except at 1. rewrite Hres, Hcam, Hup.
      unfold bind. rewrite Hrun. reflexivity.
Qed.

(** X23.  In the camera test of the setup script, with [--test-upload],
    after a successful capture: when the upload returns [True] the test
    image is removed; when it returns [False] or raises an [Exception] the
    script still ends normally and the test image stays on the disk. *)
Theorem setup_test_image_removed_only_after_upload (args : arguments) (cfg : config)
    (image_files : list string) (fuel : nat) (album_id : string) (w w1 w2 : world St) :
  test_camera args = true -> camera_use cfg = true -> test_upload args = true ->
  resolve_album cfg fuel (add_event (EvMakedirs (photo_dir cfg)) w) = (Ok album_id, w1) ->
  save_photo DEVICE_ID (photo_dir cfg ++ "/setup_test.jpg") (settings cfg) true
    (add_event (EvLog INFO "camera module is starting...") w1) = (Ok true, w2) ->
  let path := (photo_dir cfg ++ "/setup_test.jpg")%string in
  let up := upload_image (Some album_id) path w2 in
  let done := main args (Some cfg) true image_files fuel w in
  (up.1 = Ok true ->
     done = (Ok tt, add_event (EvRemove path) (set_files (delete path (files up.2)) up.2))
     /\ files done.2 !! path = None)
  /\ (up.1 = Ok false \/ (exists cls msg, up.1 = Raised (PyExc cls msg)) ->
     done = (Ok tt, up.2) /\ is_Some (files done.2 !! path)).
Proof.
  intros Htc Hcu Htu Hres Hshot path up done.
  assert (Hfile : is_Some (files up.2 !! path)).
  { unfold up. rewrite upload_image_files. eapply save_photo_true_file. exact Hshot. }
  assert (Hmain : done =
    match up with
    | (Ok true, w3) => try_except (os_remove path) (fun _ _ => ret tt) w3
    | (Ok false, w3) => (Ok tt, w3)
    | (Raised (PyExc _ _), w3) => (Ok tt, w3)
    | (Raised e, w3) => (Raised e, w3)
    | (OutOfFuel, w3) => (OutOfFuel, w3)
    end).
  { unfold done, main. cbn [negb]. unfold bind at 1, emit.
    unfold bind at 1, try_except at 1. rewrite Hres.
    rewrite Htc, Hcu. cbn [andb].
    unfold try_except, camera_test, bind at 1, log, emit.
    unfold bind at 1. rewrite Hshot. rewrite Htu.
    unfold bind. fold path. fold up. destruct up as [[[]|[]|] w3]; reflexivity. }
  split.
  - intros Hup. destruct up as [r w3]. cbn [fst snd] in *. subst r.
    rewrite Hmain. unfold try_except. rewrite (os_remove_present path w3 Hfile).
    split; [reflexivity|].
    cbn [snd]. autorewrite with world. apply lookup_delete_eq.
  - intros Hup. destruct up as [r w3]. cbn [fst snd] in *.
    destruct Hup as [-> | (cls & msg & ->)]; rewrite Hmain; cbn [snd]; auto.
Qed.

End SetupMore.

Section SetupRuns.
Import GooglePhotos CameraModule Scheduler SetupAuth MemLibrary Scenarios.

Lemma setup_test_image_removed_only_after_upload_witness :
  let both := {| test_upload := true; test_camera := true |} in
  let path := "photos/setup_test.jpg" in
  let served := main both (Some cfg_alerts) true [] 8
                  (boot (holding [garden] []) quiet_env) in
  let failed := main both (Some cfg_alerts) true [] 8
                  (boot (with_faults (None :: None :: replicate 3 (Some transient))
                           (holding [garden] [])) quiet_env) in
  (served.1 = Ok tt /\ files served.2 !! path = None)
  /\ (failed.1 = Ok tt /\ is_Some (files failed.2 !! path)).
Proof.
  cbv zeta. split.
  - set (w := boot (holding [garden] []) quiet_env).
    set (w1 := (resolve_album cfg_alerts 8 (add_event (EvMakedirs "photos") w)).2).
    set (w2 := (save_photo DEVICE_ID "photos/setup_test.jpg" None true
                  (add_event (EvLog INFO "camera module is starting...") w1)).2).
    assert (Hres : resolve_album cfg_alerts 8
                     (add_event (EvMakedirs (photo_dir cfg_alerts)) w)
                   = (Ok "id-0", w1)) by (vm_compute; reflexivity).
    assert (Hshot : save_photo DEVICE_ID (photo_dir cfg_alerts ++ "/setup_test.jpg")
                      (settings cfg_alerts) true
                      (add_event (EvLog INFO "camera module is starting...") w1)
                    = (Ok true, w2)) by (vm_compute; reflexivity).
    assert (Hup : (upload_image (Some "id-0") "photos/setup_test.jpg" w2).1 = Ok true)
      by (vm_compute; reflexivity).
    pose proof (setup_test_image_removed_only_after_upload
                  {| test_upload := true; test_camera := true |} cfg_alerts [] 8 "id-0"
                  w w1 w2 eq_refl eq_refl eq_refl Hres Hshot) as H.
    cbv zeta in H. destruct (proj1 H Hup) as [Hd Hf].
    split; [rewrite Hd; reflexivity | exact Hf].
  - set (w := boot (with_faults (None :: None :: replicate 3 (Some transient))
                      (holding [garden] [])) quiet_env).
    set (w1 := (resolve_album cfg_alerts 8 (add_event (EvMakedirs "photos") w)).2).
    set (w2 := (save_photo DEVICE_ID "photos/setup_test.jpg" None true
                  (add_event (EvLog INFO "camera module is starting...") w1)).2).
    assert (Hres : resolve_album cfg_alerts 8
                     (add_event (EvMakedirs (photo_dir cfg_alerts)) w)
                   = (Ok "id-0", w1)) by (vm_compute; reflexivity).
    assert (Hshot : save_photo DEVICE_ID (photo_dir cfg_alerts ++ "/setup_test.jpg")
                      (settings cfg_alerts) true
                      (add_event (EvLog INFO "camera module is starting...") w1)
                    = (Ok true, w2)) by (vm_compute; reflexivity).
    assert (Hup : (upload_image (Some "id-0") "photos/setup_test.jpg" w2).1
                  = Raised (PyExc "AttributeError"
                              "'NoneType' object has no attribute 'status_code'"))
      by (vm_compute; reflexivity).
    pose proof (setup_test_image_removed_only_after_upload
                  {| test_upload := true; test_camera := true |} cfg_alerts [] 8 "id-0"
                  w w1 w2 eq_refl eq_refl eq_refl Hres Hshot) as H.
    cbv zeta in H.
    destruct (proj2 H (or_intror (ex_intro _ _ (ex_intro _ _ Hup)))) as [Hd Hf].
    split; [rewrite Hd; reflexivity | exact Hf].
Defined.

End SetupRuns.

(** ** [debug] *)

Section DebugRun.
Import GooglePhotos ClientSpec Debug.
Context {St Tok : Type} `{!Service St Tok}.

Lemma get_album_calls fuel title (w : world St) :
  exists evs,
    trace (get_album fuel title w).2 = trace w ++ evs
    /\ files (get_album fuel title w).2 = files w
    /\ (forall op, only_op AlbumsList op = false -> calls_of op evs = 0%nat).
Proof.
  assert (Hfr : local_frame (is_event_of (only_op AlbumsList))
                  (get_album fuel title : M St (option album))).
  { apply local_frame_get_album; try reflexivity; intros; exact I. }
  destruct (Hfr w) as (evs & Hf & _ & _ & Ht & Hevs).
  exists evs. repeat split; auto.
  intros op Hop. exact (calls_of_none _ op evs Hop Hevs).
Qed.

Lemma create_album_calls title (w : world St) :
  exists evs,
    trace (create_album title w).2 = trace w ++ evs
    /\ files (create_album title w).2 = files w
    /\ (calls_of AlbumsCreate evs <= 3)%nat
    /\ (forall op, only_op AlbumsCreate op = false -> calls_of op evs = 0%nat).
Proof.
  assert (Hfr : local_frame (is_event_of (only_op AlbumsCreate))
                  (create_album title : M St string)).
  { apply local_frame_create_album; try reflexivity; intros; exact I. }
  destruct (Hfr w) as (evs & Hf & _ & _ & Ht & Hevs).
  exists evs. repeat split; auto.
  2:{ intros op Hop. exact (calls_of_none _ op evs Hop Hevs). }
  revert Ht. unfold create_album. unfold bind at 1.
  destruct (_get_service w) as [r0 wa] eqn:Hs.
  destruct (get_service_world w r0 wa Hs) as [s' Hwa].
  assert (Hta : trace wa = trace w) by (subst wa; reflexivity).
  destruct r0 as [token|e|]; cbn [snd];
    [| rewrite Hta; intros Ht; rewrite <- (app_nil_r (trace w)) in Ht at 1;
       apply app_inv_head in Ht; subst evs; cbn; lia ..].
  unfold bind at 1.
  destruct (execute_api_calls AlbumsCreate "execute" (svc_albums_create title) wa)
    as (evs1 & Ht1 & Hn1 & _).
  rewrite Hta in Ht1.
  destruct (_execute_api AlbumsCreate "execute" _ wa) as [r1 wb]. cbn [snd] in Ht1.
  assert (Hlogs : forall (logs : list event),
             Forall (fun e => exists lvl msg, e = EvLog lvl msg) logs ->
             trace w ++ evs1 ++ logs = trace w ++ evs ->
             (calls_of AlbumsCreate evs <= 3)%nat).
  { intros logs Hl Heq. apply app_inv_head in Heq. subst evs.
    rewrite calls_of_app.
    assert (Hz : calls_of AlbumsCreate logs = 0%nat).
    { clear -Hl. induction Hl as [|e l (lvl & msg & ->) _ IH]; [reflexivity | exact IH]. }
    lia. }
  destruct r1 as [[r|]|e|]; cbn [snd];
    try (unfold raise; cbn [snd]; rewrite Ht1; intros Ht;
         apply (Hlogs []); [constructor | rewrite app_nil_r; exact Ht]).
  unfold bind, log, emit, raise, ret.
  destruct (cr_id r) as [id|]; [destruct (cr_title r) as [t|]|]; cbn [snd];
    autorewrite with world; rewrite Ht1, <- ?app_assoc; intros Ht.
  - apply (Hlogs [EvLog INFO ("Succeeded to create a new album. id: " ++ id
                              ++ ", title: " ++ t)]); [repeat econstructor | exact Ht].
  - apply (Hlogs []); [constructor | rewrite app_nil_r; exact Ht].
  - apply (Hlogs [EvLog ERROR "Failed to create a new album."]);
      [repeat econstructor | exact Ht].
Qed.

Lemma upload_all_calls album_id paths (w : world St) :
  exists uploads,
    trace (upload_all album_id paths w).2 = trace w ++ concat uploads
    /\ files (upload_all album_id paths w).2 = files w
    /\ (length uploads <= length paths)%nat
    /\ Forall one_upload uploads.
Proof.
  revert w. induction paths as [|p rest IH]; intros w.
  - exists []. cbn. rewrite app_nil_r. repeat split; auto.
  - cbn [upload_all]. unfold bind.
    destruct (upload_image_calls (Some album_id) p w)
      as (evs1 & Ht1 & Hl1 & Hc1 & Hu1 & Hb1 & _).
    pose proof (upload_image_files (Some album_id) p w) as Hf1.
    assert (H1 : one_upload evs1) by (repeat split; assumption).
    destruct (upload_image (Some album_id) p w) as [[b|e|] w1]; cbn [snd] in *.
    + destruct (IH w1) as (uploads & Ht2 & Hf2 & Hn2 & Hall2).
      exists (evs1 :: uploads). cbn [concat length].
      rewrite Ht2, Hf2, Ht1, Hf1, <- app_assoc.
      repeat split; auto. lia.
    + exists [evs1]. cbn [concat length]. rewrite app_nil_r.
      repeat split; auto. lia.
    + exists [evs1]. cbn [concat length]. rewrite app_nil_r.
      repeat split; auto. lia.
Qed.

(** X24.  [debug] resolves the album once for all the images.  Its events
    are those of the resolution followed by those of one upload per file
    reached: the resolution makes at most three creation calls (one
    wrapper call), none when the album is found, and no upload request;
    each upload makes no album request, at most three byte uploads and at
    most three [batchCreate] calls.  No image is written or deleted: the
    files (the token file apart, which belongs to the service) are as they
    were. *)
Theorem debug_resolves_album_once title paths fuel (w : world St) :
  exists resolution uploads,
    trace (debug title paths fuel w).2 = trace w ++ resolution ++ concat uploads
    /\ files (debug title paths fuel w).2 = files w
    /\ (calls_of AlbumsCreate resolution <= 3)%nat
    /\ calls_of UploadsPost resolution = 0%nat
    /\ calls_of MediaItemsBatchCreate resolution = 0%nat
    /\ (forall a, (get_album fuel title w).1 = Ok (Some a) ->
        calls_of AlbumsCreate resolution = 0%nat)
    /\ (length uploads <= length paths)%nat
    /\ Forall one_upload uploads.
Proof.
  unfold debug, bind.
  destruct (get_album_calls fuel title w) as (evs0 & Ht0 & Hf0 & Hz0).
  assert (H0 : calls_of AlbumsCreate evs0 = 0%nat /\ calls_of UploadsPost evs0 = 0%nat
               /\ calls_of MediaItemsBatchCreate evs0 = 0%nat)
    by (repeat split; apply Hz0; reflexivity).
  destruct H0 as (Hc0 & Hu0 & Hb0).
  destruct (get_album fuel title w) as [[album|e|] w0]; cbn [fst snd] in *;
    [| exists evs0, []; cbn [concat length]; rewrite app_nil_r, Hc0, Hu0, Hb0;
       repeat split; auto; lia ..].
  destruct album as [a|].
  - unfold id_of. destruct (album_id a) as [id|].
    + unfold ret.
      destruct (upload_all_calls id paths w0) as (uploads & Ht2 & Hf2 & Hn2 & Hall2).
      exists evs0, uploads. rewrite Ht2, Hf2, Ht0, Hf0, <- app_assoc, Hc0, Hu0, Hb0.
      repeat split; auto; lia.
    + exists evs0, []. cbn [concat length snd raise].
      rewrite app_nil_r, Hc0, Hu0, Hb0. repeat split; auto; lia.
  - destruct (create_album_calls title w0) as (evs1 & Ht1 & Hf1 & Hn1 & Hz1).
    assert (H1 : calls_of UploadsPost evs1 = 0%nat
                 /\ calls_of MediaItemsBatchCreate evs1 = 0%nat)
      by (split; apply Hz1; reflexivity).
    destruct H1 as (Hu1 & Hb1).
    destruct (create_album title w0) as [[id|e|] w1]; cbn [snd] in *.
    + destruct (upload_all_calls id paths w1) as (uploads & Ht2 & Hf2 & Hn2 & Hall2).
      exists (evs0 ++ evs1), uploads.
      rewrite Ht2, Hf2, Ht1, Hf1, Ht0, Hf0, <- !app_assoc, !calls_of_app.
      rewrite Hc0, Hu0, Hb0, Hu1, Hb1.
      repeat split; auto; try lia. discriminate.
    + exists (evs0 ++ evs1), []. cbn [concat length].
      rewrite Ht1, Hf1, Ht0, Hf0, app_nil_r, <- !app_assoc, !calls_of_app.
      rewrite Hc0, Hu0, Hb0, Hu1, Hb1.
      repeat split; auto; try lia. discriminate.
    + exists (evs0 ++ evs1), []. cbn [concat length].
      rewrite Ht1, Hf1, Ht0, Hf0, app_nil_r, <- !app_assoc, !calls_of_app.
      rewrite Hc0, Hu0, Hb0, Hu1, Hb1.
      repeat split; auto; try lia. discriminate.
Qed.

End DebugRun.

(** ** Albums without a title or an id *)

Section Untitled.
Import GooglePhotos Scheduler AlbumSpec.
Context {St Tok : Type} `{!Service St Tok}.
Variable cfg : config.

Lemma first_titled_untitled title before a after :
  titled title before = [] -> album_title a = None ->
  first_titled title (before ++ a :: after) = inl (KeyError "title").
Proof.
  intros Hb Ha. induction before as [|b before IH]; cbn [app first_titled].
  - rewrite Ha. reflexivity.
  - unfold titled in Hb. cbn [List.filter] in Hb. unfold has_title in Hb at 1.
    destruct (album_title b) as [t|]; [|reflexivity].
    destruct (String.eqb title t); [discriminate | exact (IH Hb)].
Qed.

(** X25.  An album of the listing that has no title, met before any album
    of the requested title, ends the resolution with [KeyError] for
    [title]: no album is returned or created, even when an album of that
    title follows.  An album of the requested title that has no id ends it
    with [KeyError] for [id]. *)
Theorem untitled_album_stops_resolution fuel (w w1 : world St) l before a after :
  google_photos_use cfg = true ->
  get_album_list fuel w = (Ok l, w1) ->
  l = before ++ a :: after ->
  titled (album_title_cfg cfg) before = [] ->
  (album_title a = None ->
   _get_album_id cfg fuel w = (Raised (KeyError "title"), w1))
  /\ (all_titled before -> album_title a = Some (album_title_cfg cfg) ->
      album_id a = None ->
      _get_album_id cfg fuel w = (Raised (KeyError "id"), w1))
  /\ calls_of AlbumsCreate (trace w1) = calls_of AlbumsCreate (trace w).
Proof.
  intros Hg Hl -> Hbefore. split; [|split].
  - intros Ha. rewrite (get_album_id_unfold cfg fuel w w1 _ Hg Hl).
    rewrite (first_titled_untitled _ before a after Hbefore Ha). reflexivity.
  - intros Hall Ha Hid. rewrite (get_album_id_unfold cfg fuel w w1 _ Hg Hl).
    rewrite (first_titled_found _ before a after
               (titled_nil_forall _ before Hbefore Hall) Ha).
    unfold bind, id_of. rewrite Hid. reflexivity.
  - exact (listing_makes_no_create fuel w w1 _ Hl).
Qed.

End Untitled.

Section UntitledRuns.
Import GooglePhotos Scheduler MemLibrary Scenarios AlbumSpec.

Lemma untitled_album_stops_resolution_witness :
  let untitled := {| album_id := Some "id-9"; album_title := None |} in
  let w := boot (holding [untitled; garden] ["id-1"]) quiet_env in
  _get_album_id cfg_silent 8 w = (Raised (KeyError "title"), (get_album_list 8 w).2).
Proof.
  cbv zeta.
  set (w := boot (holding [{| album_id := Some "id-9"; album_title := None |}; garden]
                    ["id-1"]) quiet_env).
  assert (Hl : get_album_list 8 w
               = (Ok [{| album_id := Some "id-9"; album_title := None |}; garden],
                  (get_album_list 8 w).2)) by (vm_compute; reflexivity).
  exact (proj1 (untitled_album_stops_resolution cfg_silent 8 w _ _ [] _ [garden]
                  eq_refl Hl eq_refl eq_refl) eq_refl).
Defined.

End UntitledRuns.
